(** * HRMS Odoo connector: the RPC session client and the connection pool

    A shallow embedding of [src/infrastructure/odoo/OdooClient.js] and
    [src/infrastructure/odoo/OdooConnectionPool.js].

    JavaScript objects are modelled by their identity: a connection, a
    promise and a timer are natural numbers naming a cell of the
    corresponding heap ([gmap]).  The [Set] of active connections is a
    [gset]; the arrays of available connections and of queued callbacks are
    lists.  Asynchronous methods are run up to the point where they settle
    or have to wait for an event that only another caller or a timer can
    produce. *)

From stdpp Require Import base gmap sets list strings pretty.

Local Open Scope list_scope.

(** ** Errors and completions *)

(** The error values the two classes create or pass on. *)
#[warnings="-register-all"]
Inductive JSError : Type :=
| Error (message : string)
    (* new Error(message) *)
| OdooConnectionError (message : string) (originalError : option JSError)
    (* new OdooConnectionError(message, originalError); originalError = null
       is None *)
| ForeignError (code : nat).
    (* an opaque error raised by the XML-RPC transport or by a caller's
       function *)

(** How a piece of code ends: with a value, or by throwing. *)
Inductive Completion (A : Type) : Type :=
| Return (a : A)
| Throw (e : JSError).
Arguments Return {A} a.
Arguments Throw {A} e.

(** ** The session client (OdooClient.js) *)

Module OdooClient.

(** [config.retry].  [delayMs] and [backoffMultiplier] are JavaScript
    numbers; the arithmetic on them is a parameter of the model. *)
Record RetryConfig (num : Type) : Type := {
  maxAttempts : nat;
  delayMs : num;
  backoffMultiplier : num
}.
Arguments maxAttempts {num} _.
Arguments delayMs {num} _.
Arguments backoffMultiplier {num} _.

(** What [_authenticateWithRetry] does to the outside world, in order. *)
Inductive AuthEvent (num : Type) : Type :=
| Attempt (attempt : nat)     (* this.odoo.connect(callback) *)
| Sleep (ms : num).           (* await this._sleep(ms) *)
Arguments Attempt {num} attempt.
Arguments Sleep {num} ms.

(** The fields of an [OdooClient] object. *)
Record t : Type := {
  odoo : bool;            (* this.odoo !== null *)
  uid : option nat;       (* this.uid, null is None *)
  connected : bool
}.

(** The constructor. *)
Definition new : t := {| odoo := false; uid := None; connected := false |}.

(** Truthiness of [this.uid]: null and 0 are falsy. *)
Definition truthy_uid (u : option nat) : bool :=
  match u with
  | Some (S _) => true
  | _ => false
  end.

Section Retry.
Context {num : Type}.
Variable mul : num → num → num.            (* a * b *)
Variable pow : num → nat → num.            (* Math.pow(a, n) *)
Variable retry : RetryConfig num.
(** The answer of the server to the [attempt]-th authentication call:
    an error or a user id. *)
Variable odoo_connect : nat → JSError + nat.

(** The [for] loop of [_authenticateWithRetry].  [remaining] is the number
    of values of [attempt] still satisfying [attempt <= maxAttempts]. *)
Fixpoint retry_loop (remaining attempt : nat) (lastError : option JSError)
  : list (AuthEvent num) * Completion nat :=
  match remaining with
  | 0 =>
      ([], Throw (OdooConnectionError
                    ("Failed to authenticate after " +:+
                     pretty (maxAttempts retry) +:+ " attempts")
                    lastError))
  | S remaining' =>
      match odoo_connect attempt with
      | inr u => ([Attempt attempt], Return u)
      | inl error =>
          let sleep :=
            if decide (attempt < maxAttempts retry)
            then [Sleep (mul (delayMs retry)
                             (pow (backoffMultiplier retry) (attempt - 1)))]
            else [] in
          let '(events, result) :=
            retry_loop remaining' (S attempt) (Some error) in
          (Attempt attempt :: sleep ++ events, result)
      end
  end.

Definition _authenticateWithRetry : list (AuthEvent num) * Completion nat :=
  retry_loop (maxAttempts retry) 1 None.

(** [connect()] *)
Definition connect (c : t) : t * Completion unit :=
  if connected c && truthy_uid (uid c) then (c, Return tt)
  else
    match _authenticateWithRetry.2 with
    | Return u =>
        ({| odoo := true; uid := Some u; connected := true |}, Return tt)
    | Throw error =>
        ({| odoo := true; uid := uid c; connected := connected c |},
         Throw (OdooConnectionError "Failed to connect to Odoo" (Some error)))
    end.

(** The delay slept after the failed attempt [k]. *)
Definition backoff_delay (k : nat) : num :=
  mul (delayMs retry) (pow (backoffMultiplier retry) (k - 1)).

(** Attempts [from .. from+n-1], each followed by its backoff sleep. *)
Definition failed_rounds (from n : nat) : list (AuthEvent num) :=
  flat_map (λ k, [Attempt k; Sleep (backoff_delay k)]) (seq from n).

Definition is_attempt (e : AuthEvent num) : bool :=
  match e with Attempt _ => true | Sleep _ => false end.

(** Number of authentication calls in a run. *)
Definition attempts_made (events : list (AuthEvent num)) : nat :=
  length (List.filter is_attempt events).
End Retry.

(** [connect()] up to the point where it waits for the server: [this.odoo]
    has been set, the other fields are as they were. *)
Definition connect_begin (c : t) : t :=
  if connected c && truthy_uid (uid c) then c
  else {| odoo := true; uid := uid c; connected := connected c |}.

(** [disconnect()] *)
Definition disconnect (c : t) : t :=
  if connected c then {| odoo := false; uid := None; connected := false |}
  else c.

(** [isConnected()] *)
Definition isConnected (c : t) : bool :=
  connected c && bool_decide (uid c ≠ None).

End OdooClient.

(** ** The connection pool (OdooConnectionPool.js) *)

Module Pool.

(** [config.pool]; a missing setting is 0, which is falsy like [undefined]. *)
Record PoolConfig : Type := {
  pool_min : nat;
  pool_max : nat;
  idleTimeoutMillis : N;
  connectionTimeoutMillis : N
}.

(** The part of the Odoo configuration the two classes read. *)
Record Config (num : Type) : Type := {
  pool : PoolConfig;
  retry : OdooClient.RetryConfig num
}.
Arguments pool {num} _.
Arguments retry {num} _.

(** [this.stats] *)
Record Stats : Type := {
  created : nat;
  acquired : nat;
  released : nat;
  destroyed : nat;
  queuedRequests : nat
}.

(** The function objects that are stored in, or looked up in,
    [connectionQueue].  Both are created by one call of
    [_waitForConnection], which also creates the promise [p]. *)
Inductive Callback : Type :=
| PromiseResolve (p : nat)
    (* the [resolve] function of promise [p] *)
| WaitCallback (p : nat) (timeout : nat).
    (* the arrow function [(connection) => { clearTimeout(timeout); ... }] *)

Global Instance Callback_eq_dec : EqDecision Callback.
Proof. solve_decision. Defined.

(** The closures handed to [setTimeout]. *)
Inductive TimerCallback : Type :=
| WaitTimeout (p : nat)          (* in [_waitForConnection] *)
| IdleTimeout (connection : nat). (* in [_setIdleTimeout] *)

Inductive TimerStatus : Type := Scheduled | Cleared | Fired.

Record Timer : Type := {
  timer_callback : TimerCallback;
  timer_delay : N;
  timer_status : TimerStatus
}.

(** The promises made by [_waitForConnection]. *)
Inductive PromiseState : Type :=
| Pending
| Resolved (value : option nat)   (* resolve(connection); null is None *)
| Rejected (reason : JSError).

Inductive Level : Type := Debug | Info | Warn | LogError.

(** The fields of an [OdooConnectionPool] object. *)
Record t (num : Type) : Type := {
  config : Config num;
  minConnections : nat;
  maxConnections : nat;
  idleTimeout : N;
  availableConnections : list nat;
  activeConnections : gset nat;
  connectionQueue : list Callback;
  stats : Stats
}.
Arguments config {num} _.
Arguments minConnections {num} _.
Arguments maxConnections {num} _.
Arguments idleTimeout {num} _.
Arguments availableConnections {num} _.
Arguments activeConnections {num} _.
Arguments connectionQueue {num} _.
Arguments stats {num} _.

(** The pool together with the objects it refers to: the [OdooClient]
    objects, the promises and the timers (none of them is ever removed, so a
    fresh key is a new object), and the messages the methods of the pool
    give to the logger. *)
Record World (num : Type) : Type := {
  self : t num;
  clients : gmap nat OdooClient.t;
  promises : gmap nat PromiseState;
  timers : gmap nat Timer;
  log : list (Level * string)
}.
Arguments self {num} _.
Arguments clients {num} _.
Arguments promises {num} _.
Arguments timers {num} _.
Arguments log {num} _.

(** What an [async] method has produced when control comes back: a settled
    promise, or one that waits for the promise [p] of
    [_waitForConnection]. *)
Inductive AsyncResult (A : Type) : Type :=
| Settled (c : Completion A)
| Awaiting (p : nat).
Arguments Settled {A} c.
Arguments Awaiting {A} p.

(** [x || d] on numbers: 0 is falsy. *)
Definition or_default (x d : nat) : nat :=
  match x with 0 => d | S _ => x end.

Definition or_default_ms (x d : N) : N :=
  match x with 0%N => d | _ => x end.

Section Updates.
Context {num : Type}.

Definition set_available (l : list nat) (p : t num) : t num :=
  {| config := config p; minConnections := minConnections p;
     maxConnections := maxConnections p; idleTimeout := idleTimeout p;
     availableConnections := l;
     activeConnections := activeConnections p;
     connectionQueue := connectionQueue p; stats := stats p |}.

Definition set_active (s : gset nat) (p : t num) : t num :=
  {| config := config p; minConnections := minConnections p;
     maxConnections := maxConnections p; idleTimeout := idleTimeout p;
     availableConnections := availableConnections p;
     activeConnections := s;
     connectionQueue := connectionQueue p; stats := stats p |}.

Definition set_queue (q : list Callback) (p : t num) : t num :=
  {| config := config p; minConnections := minConnections p;
     maxConnections := maxConnections p; idleTimeout := idleTimeout p;
     availableConnections := availableConnections p;
     activeConnections := activeConnections p;
     connectionQueue := q; stats := stats p |}.

Definition set_stats (s : Stats) (p : t num) : t num :=
  {| config := config p; minConnections := minConnections p;
     maxConnections := maxConnections p; idleTimeout := idleTimeout p;
     availableConnections := availableConnections p;
     activeConnections := activeConnections p;
     connectionQueue := connectionQueue p; stats := s |}.

Definition on_self (f : t num → t num) (w : World num) : World num :=
  {| self := f (self w); clients := clients w; promises := promises w;
     timers := timers w; log := log w |}.

Definition set_clients (m : gmap nat OdooClient.t) (w : World num) : World num :=
  {| self := self w; clients := m; promises := promises w;
     timers := timers w; log := log w |}.

Definition set_promises (m : gmap nat PromiseState) (w : World num) : World num :=
  {| self := self w; clients := clients w; promises := m;
     timers := timers w; log := log w |}.

Definition set_timers (m : gmap nat Timer) (w : World num) : World num :=
  {| self := self w; clients := clients w; promises := promises w;
     timers := m; log := log w |}.

(** [this.logger.<level>(message, ...)] *)
Definition logger (l : Level) (message : string) (w : World num) : World num :=
  {| self := self w; clients := clients w; promises := promises w;
     timers := timers w; log := log w ++ [(l, message)] |}.

(** [this.stats.<counter>++] *)
Definition incr_created (p : t num) : t num :=
  set_stats {| created := S (created (stats p)); acquired := acquired (stats p);
               released := released (stats p); destroyed := destroyed (stats p);
               queuedRequests := queuedRequests (stats p) |} p.
Definition incr_acquired (p : t num) : t num :=
  set_stats {| created := created (stats p); acquired := S (acquired (stats p));
               released := released (stats p); destroyed := destroyed (stats p);
               queuedRequests := queuedRequests (stats p) |} p.
Definition incr_released (p : t num) : t num :=
  set_stats {| created := created (stats p); acquired := acquired (stats p);
               released := S (released (stats p)); destroyed := destroyed (stats p);
               queuedRequests := queuedRequests (stats p) |} p.
Definition incr_destroyed (p : t num) : t num :=
  set_stats {| created := created (stats p); acquired := acquired (stats p);
               released := released (stats p); destroyed := S (destroyed (stats p));
               queuedRequests := queuedRequests (stats p) |} p.
Definition incr_queuedRequests (p : t num) : t num :=
  set_stats {| created := created (stats p); acquired := acquired (stats p);
               released := released (stats p); destroyed := destroyed (stats p);
               queuedRequests := S (queuedRequests (stats p)) |} p.

(** *** Promises and timers *)

(** [new Promise(...)]: a new pending promise. *)
Definition new_promise (w : World num) : World num * nat :=
  let p := fresh (dom (promises w)) in
  (set_promises (<[p := Pending]> (promises w)) w, p).

(** Settling a promise; a settled promise ignores later calls. *)
Definition settle (p : nat) (s : PromiseState) (w : World num) : World num :=
  match promises w !! p with
  | Some Pending => set_promises (<[p := s]> (promises w)) w
  | _ => w
  end.

Definition setTimeout (cb : TimerCallback) (delay : N) (w : World num)
  : World num * nat :=
  let id := fresh (dom (timers w)) in
  (set_timers (<[id := {| timer_callback := cb; timer_delay := delay;
                          timer_status := Scheduled |}]> (timers w)) w, id).

Definition clearTimeout (id : nat) (w : World num) : World num :=
  match timers w !! id with
  | Some {| timer_callback := cb; timer_delay := d; timer_status := Scheduled |} =>
      set_timers (<[id := {| timer_callback := cb; timer_delay := d;
                             timer_status := Cleared |}]> (timers w)) w
  | _ => w
  end.

(** [array.indexOf(x)]; -1 is None. *)
Definition indexOf {A : Type} `{EqDecision A} (l : list A) (x : A) : option nat :=
  fst <$> list_find (λ y, y = x) l.

(** Calling a function taken from the queue with one argument. *)
Definition call (cb : Callback) (connection : option nat) (w : World num)
  : World num :=
  match cb with
  | PromiseResolve p => settle p (Resolved connection) w
  | WaitCallback p timeout =>
      let w := clearTimeout timeout w in
      match connection with
      | Some c => settle p (Resolved (Some c)) w
      | None =>
          settle p (Rejected (OdooConnectionError "Connection pool is closing" None)) w
      end
  end.
End Updates.

(** The constructor (without its log message). *)
Definition construct {num : Type} (cfg : Config num) : t num :=
  {| config := cfg;
     minConnections := or_default (pool_min (pool cfg)) 2;
     maxConnections := or_default (pool_max (pool cfg)) 10;
     idleTimeout := or_default_ms (idleTimeoutMillis (pool cfg)) 30000;
     availableConnections := [];
     activeConnections := ∅;
     connectionQueue := [];
     stats := {| created := 0; acquired := 0; released := 0; destroyed := 0;
                 queuedRequests := 0 |} |}.

(** A process in which [new OdooConnectionPool(config, logger)] has just
    run. *)
Definition new {num : Type} (cfg : Config num) : World num :=
  {| self := construct cfg; clients := ∅; promises := ∅; timers := ∅;
     log := [(Info, "OdooConnectionPool initialized")] |}.

(** *** The singleton *)

(** The static field [OdooConnectionPool.instance] and the pool objects
    constructed so far; an object is referred to by its position. *)
Record Process (num : Type) : Type := {
  objects : list (t num);
  instance : option nat
}.
Arguments objects {num} _.
Arguments instance {num} _.

(** [static getInstance(config = null, logger = console)] *)
Definition getInstance {num : Type} (cfg : option (Config num)) (s : Process num)
  : Process num * Completion nat :=
  match instance s with
  | Some r => (s, Return r)
  | None =>
      match cfg with
      | None =>
          (s, Throw (Error
             "Config is required for first initialization of OdooConnectionPool"))
      | Some c =>
          let r := length (objects s) in
          ({| objects := objects s ++ [construct c]; instance := Some r |},
           Return r)
      end
  end.

(** *** The methods *)

Section Methods.
Context {num : Type}.
Variable mul : num → num → num.
Variable pow : num → nat → num.
(** [transport c k]: the server's answer to the [k]-th authentication call
    of connection [c]. *)
Variable transport : nat → nat → JSError + nat.
(** [login_order pending]: of the logins in flight, listed in the order in
    which they were started, the position of the one that settles next
    (taken modulo their number). *)
Variable login_order : list nat → nat.
(** [disconnect_error c]: the error with which [c.disconnect()] fails, if
    it does. *)
Variable disconnect_error : nat → option JSError.

(** [connection.disconnect()] *)
Definition disconnect_client (c : nat) (w : World num)
  : World num * Completion unit :=
  match disconnect_error c with
  | Some e => (w, Throw e)
  | None =>
      (set_clients (alter OdooClient.disconnect c (clients w)) w, Return tt)
  end.

(** [_createConnection()] *)
Definition _createConnection (w : World num) : World num * Completion nat :=
  let connection := fresh (dom (clients w)) in
  let '(client, connected) :=
    OdooClient.connect mul pow (retry (config (self w))) (transport connection)
                       OdooClient.new in
  let w := set_clients (<[connection := client]> (clients w)) w in
  match connected with
  | Return _ =>
      let w := on_self incr_created w in
      let w := on_self (λ p, set_available (availableConnections p ++ [connection]) p) w in
      let w := logger Debug "Created new connection" w in
      (w, Return connection)
  | Throw error =>
      let w := logger LogError "Failed to create connection" w in
      (w, Throw (OdooConnectionError "Failed to create connection" (Some error)))
  end.

(** [_createConnection()] in two parts, for callers that start several
    connections before they wait for any of them.  First the part that runs
    at the call: the client object is made and its [connect()] runs up to
    the point where it waits for the server. *)
Definition start_connection (w : World num) : World num * nat :=
  let connection := fresh (dom (clients w)) in
  (set_clients (<[connection := OdooClient.connect_begin OdooClient.new]>
                  (clients w)) w,
   connection).

(** Then the part that runs when the login of [connection] has settled. *)
Definition finish_connection (connection : nat) (w : World num)
  : World num * Completion nat :=
  let '(client, connected) :=
    OdooClient.connect mul pow (retry (config (self w))) (transport connection)
                       OdooClient.new in
  let w := set_clients (<[connection := client]> (clients w)) w in
  match connected with
  | Return _ =>
      let w := on_self incr_created w in
      let w := on_self (λ p, set_available (availableConnections p ++ [connection]) p) w in
      let w := logger Debug "Created new connection" w in
      (w, Return connection)
  | Throw error =>
      let w := logger LogError "Failed to create connection" w in
      (w, Throw (OdooConnectionError "Failed to create connection" (Some error)))
  end.

(** The loop of [initialize()]: [n] calls of [_createConnection()], each of
    which runs up to the point where it waits.  The result lists the
    connections whose logins are in flight, in the order of the calls. *)
Fixpoint start_connections (n : nat) (w : World num) : World num * list nat :=
  match n with
  | 0 => (w, [])
  | S n' =>
      let '(w, connection) := start_connection w in
      let '(w, connections) := start_connections n' w in
      (w, connection :: connections)
  end.

(** Of the logins in flight, the one that settles next, and the others. *)
Definition next_login (pending : list nat) : option (nat * list nat) :=
  let index := login_order pending `mod` length pending in
  connection ← pending !! index;
  Some (connection, delete index pending).

(** [await Promise.all(promises)] on the promises of the logins [pending]:
    the logins settle one after the other, each running the rest of its
    [_createConnection()].  [Promise.all] is fulfilled when all of them
    are, and rejected with the error of the first one that fails; the
    logins that are in flight then are the third component.  [n] bounds the
    number of logins. *)
Fixpoint await_all (n : nat) (pending : list nat) (w : World num)
  : World num * Completion unit * list nat :=
  match n with
  | 0 => (w, Return tt, pending)
  | S n' =>
      match next_login pending with
      | None => (w, Return tt, [])
      | Some (connection, pending') =>
          match finish_connection connection w with
          | (w, Return _) => await_all n' pending' w
          | (w, Throw e) => (w, Throw e, pending')
          end
      end
  end.

(** [initialize()] up to the point where it returns or throws, with nothing
    else running while the logins are awaited; and the logins that are
    still in flight at that point. *)
Definition initialize_in_flight (w : World num)
  : World num * Completion unit * list nat :=
  let w := logger Info "Initializing connection pool with minimum connections" w in
  let '(w, promises) := start_connections (minConnections (self w)) w in
  match await_all (length promises) promises w with
  | (w, Return _, pending) =>
      (logger Info ("Connection pool initialized with " +:+
                    pretty (minConnections (self w)) +:+ " connections") w,
       Return tt, pending)
  | (w, Throw e, pending) => (w, Throw e, pending)
  end.

(** [initialize()] *)
Definition initialize (w : World num) : World num * Completion unit :=
  (initialize_in_flight w).1.

(** Logins that nobody waits for any more settle, one after the other. *)
Fixpoint settle_logins (n : nat) (pending : list nat) (w : World num)
  : World num :=
  match n with
  | 0 => w
  | S n' =>
      match next_login pending with
      | None => w
      | Some (connection, pending') =>
          settle_logins n' pending' (finish_connection connection w).1
      end
  end.

(** The pool when [initialize()] has returned or thrown and every login it
    started has settled. *)
Definition initialize_settled (w : World num) : World num :=
  let '(w, _, pending) := initialize_in_flight w in
  settle_logins (length pending) pending w.

(** [_waitForConnection()]: returns the promise it creates. *)
Definition _waitForConnection (w : World num) : World num * nat :=
  let '(w, p) := new_promise w in
  let '(w, timeout) :=
    setTimeout (WaitTimeout p)
      (or_default_ms (connectionTimeoutMillis (pool (config (self w)))) 10000) w in
  (on_self (λ s, set_queue (connectionQueue s ++ [WaitCallback p timeout]) s) w, p).

(** The function given to [setTimeout] by [_waitForConnection]. *)
Definition wait_timeout (p : nat) (w : World num) : World num :=
  let w :=
    match indexOf (connectionQueue (self w)) (PromiseResolve p) with
    | Some index =>
        on_self (λ s, set_queue (delete index (connectionQueue s)) s) w
    | None => w
    end in
  settle p (Rejected (OdooConnectionError
                        "Timeout waiting for available connection" None)) w.

(** [_setIdleTimeout(connection)] *)
Definition _setIdleTimeout (connection : nat) (w : World num) : World num :=
  if decide (minConnections (self w) < length (availableConnections (self w)))
  then (setTimeout (IdleTimeout connection) (idleTimeout (self w)) w).1
  else w.

(** The function given to [setTimeout] by [_setIdleTimeout]. *)
Definition idle_timeout (connection : nat) (w : World num) : World num :=
  match indexOf (availableConnections (self w)) connection with
  | Some index =>
      let w := on_self (λ s, set_available (delete index (availableConnections s)) s) w in
      let w := (disconnect_client connection w).1 in
      let w := on_self incr_destroyed w in
      logger Debug "Destroyed idle connection" w
  | None => w
  end.

(** A scheduled timer goes off. *)
Definition fire (id : nat) (w : World num) : World num :=
  match timers w !! id with
  | Some {| timer_callback := cb; timer_delay := d; timer_status := Scheduled |} =>
      let w := set_timers (<[id := {| timer_callback := cb; timer_delay := d;
                                      timer_status := Fired |}]> (timers w)) w in
      match cb with
      | WaitTimeout p => wait_timeout p w
      | IdleTimeout c => idle_timeout c w
      end
  | _ => w
  end.

(** [acquire()], with nothing else running while [connect()] is awaited. *)
Definition acquire (w : World num) : World num * AsyncResult nat :=
  let w := on_self incr_acquired w in
  match availableConnections (self w) with
  | connection :: rest =>
      let w := on_self (set_available rest) w in
      let w := on_self (λ s, set_active (activeConnections s ∪ {[connection]}) s) w in
      let w := logger Debug "Acquired existing connection from pool" w in
      (w, Settled (Return connection))
  | [] =>
      if decide (size (activeConnections (self w)) < maxConnections (self w)) then
        match _createConnection w with
        | (w, Return connection) =>
            let w := on_self (λ s, set_active (activeConnections s ∪ {[connection]}) s) w in
            let w := logger Debug "Created and acquired new connection" w in
            (w, Settled (Return connection))
        | (w, Throw e) => (w, Settled (Throw e))
        end
      else
        let w := on_self incr_queuedRequests w in
        let w := logger Warn "Connection pool exhausted, queuing request" w in
        let '(w, p) := _waitForConnection w in
        (w, Awaiting p)
  end.

(** [release(connection)] *)
Definition release (connection : nat) (w : World num) : World num :=
  let w := on_self incr_released w in
  if decide (connection ∉ activeConnections (self w)) then
    logger Warn "Attempted to release unknown connection" w
  else
    let w := on_self (λ s, set_active (activeConnections s ∖ {[connection]}) s) w in
    match connectionQueue (self w) with
    | resolve :: rest =>
        let w := on_self (set_queue rest) w in
        let w := on_self (λ s, set_active (activeConnections s ∪ {[connection]}) s) w in
        let w := call resolve (Some connection) w in
        logger Debug "Released connection to queued request" w
    | [] =>
        let w := on_self (λ s, set_available (availableConnections s ++ [connection]) s) w in
        let w := _setIdleTimeout connection w in
        logger Debug "Released connection back to pool" w
    end.

(** The part of [withConnection] after [acquire()] has produced
    [connection]: the [try]/[finally]. *)
Definition use_connection {R : Type}
    (fn : nat → World num → World num * Completion R)
    (connection : nat) (w : World num) : World num * Completion R :=
  let '(w, result) := fn connection w in
  (release connection w, result).

(** [withConnection(fn)].  [fn] is any function of the connection; what it
    does, and what happens while it runs, is a change of the world. *)
Definition withConnection {R : Type}
    (fn : nat → World num → World num * Completion R)
    (w : World num) : World num * AsyncResult R :=
  match acquire w with
  | (w, Settled (Return connection)) =>
      let '(w, result) := use_connection fn connection w in
      (w, Settled result)
  | (w, Settled (Throw e)) => (w, Settled (Throw e))
  | (w, Awaiting p) => (w, Awaiting p)
  end.

(** [withConnection(fn)] going on once the promise [p] it waited for is
    settled.  (A promise made by [_waitForConnection] is never resolved
    with [null]: the queued callback rejects it instead.) *)
Definition withConnection_resume {R : Type}
    (fn : nat → World num → World num * Completion R)
    (p : nat) (w : World num) : World num * AsyncResult R :=
  match promises w !! p with
  | Some (Resolved (Some connection)) =>
      let '(w, result) := use_connection fn connection w in
      (w, Settled result)
  | Some (Rejected e) => (w, Settled (Throw e))
  | _ => (w, Awaiting p)
  end.

(** The callback [destroy()] maps over [allConnections]. *)
Definition destroy_one (w : World num) (connection : nat) : World num :=
  match disconnect_client connection w with
  | (w, Return _) => on_self incr_destroyed w
  | (w, Throw error) => logger LogError "Error disconnecting connection" w
  end.

(** [destroy()], with nothing else running while the disconnections are
    awaited. *)
Definition destroy (w : World num) : World num * Completion unit :=
  let w := logger Info "Destroying connection pool" w in
  let w := foldl (λ w resolve, call resolve None w) w (connectionQueue (self w)) in
  let w := on_self (set_queue []) w in
  let allConnections :=
    availableConnections (self w) ++ elements (activeConnections (self w)) in
  let w := foldl destroy_one w allConnections in
  let w := on_self (set_available []) w in
  let w := on_self (set_active ∅) w in
  let w := logger Info "Connection pool destroyed" w in
  (w, Return tt).

(** [destroy()] in two parts.  First what has happened when the call
    returns its promise: the waiters are turned away, the queue is emptied,
    and [disconnect()] has been called on every connection (the callbacks
    of [map] run up to their [await]). *)
Definition destroy_begin (w : World num) : World num * list nat :=
  let w := logger Info "Destroying connection pool" w in
  let w := foldl (λ w resolve, call resolve None w) w (connectionQueue (self w)) in
  let w := on_self (set_queue []) w in
  let allConnections :=
    availableConnections (self w) ++ elements (activeConnections (self w)) in
  (foldl (λ w connection, (disconnect_client connection w).1) w allConnections,
   allConnections).

(** A callback of [map] going on after its [await]. *)
Definition destroy_count (w : World num) (connection : nat) : World num :=
  match disconnect_error connection with
  | None => on_self incr_destroyed w
  | Some error => logger LogError "Error disconnecting connection" w
  end.

(** Then what happens later, with nothing else running in between: the
    callbacks of [map] go on, and then [destroy()] itself. *)
Definition destroy_end (allConnections : list nat) (w : World num) : World num :=
  let w := foldl destroy_count w allConnections in
  let w := on_self (set_available []) w in
  let w := on_self (set_active ∅) w in
  logger Info "Connection pool destroyed" w.

(** [getStats().total] *)
Definition total (w : World num) : nat :=
  length (availableConnections (self w)) + size (activeConnections (self w)).

(** Several calls of [release], one after the other. *)
Definition release_all (connections : list nat) (w : World num) : World num :=
  foldl (λ w connection, release connection w) w connections.

(** *** Histories *)

(** The things that happen to a pool: calls of its methods and timers going
    off.  A history is a list of them, each finished before the next one
    starts; [initialize()] is finished when the logins it started have
    settled. *)
Inductive Op : Type :=
| Initialize
| Acquire
| Release (connection : nat)
| Fire (id : nat)
| Destroy.

Definition step (w : World num) (op : Op) : World num :=
  match op with
  | Initialize => initialize_settled w
  | Acquire => (acquire w).1
  | Release connection => release connection w
  | Fire id => fire id w
  | Destroy => (destroy w).1
  end.

Definition run (history : list Op) (w : World num) : World num :=
  foldl step w history.
End Methods.

End Pool.

(** ** Concrete settings used in the examples *)

Module Scenario.

(** [maxAttempts=3, delayMs=100, backoffMultiplier=2] *)
Definition retry3 : OdooClient.RetryConfig nat :=
  {| OdooClient.maxAttempts := 3; OdooClient.delayMs := 100;
     OdooClient.backoffMultiplier := 2 |}.

(** A server that refuses the first two authentication calls and then
    answers with user id 7. *)
Definition fails_twice (attempt : nat) : JSError + nat :=
  if decide (attempt < 3) then inl (ForeignError attempt) else inr 7.

(** A server that refuses every authentication call. *)
Definition always_fails (attempt : nat) : JSError + nat :=
  inl (ForeignError attempt).

(** [{ min, max, idleTimeoutMillis: 50, connectionTimeoutMillis: 100 }] *)
Definition config (min max : nat) : Pool.Config nat :=
  {| Pool.pool := {| Pool.pool_min := min; Pool.pool_max := max;
                     Pool.idleTimeoutMillis := 50;
                     Pool.connectionTimeoutMillis := 100 |};
     Pool.retry := retry3 |}.

(** Every connection authenticates at once, as user 7. *)
Definition server_up (connection attempt : nat) : JSError + nat := inr 7.

(** Of the logins in flight, the one started first settles first. *)
Definition first_started (pending : list nat) : nat := 0.

(** Of the logins in flight, the one started last settles first. *)
Definition last_started (pending : list nat) : nat := length pending - 1.

Definition disconnect_ok (connection : nat) : option JSError := None.

Definition disconnect_fails (connection : nat) : option JSError :=
  Some (ForeignError connection).

Definition acquire : Pool.World nat → Pool.World nat * Pool.AsyncResult nat :=
  Pool.acquire Nat.mul Nat.pow server_up.

Definition run : list Pool.Op → Pool.World nat → Pool.World nat :=
  Pool.run Nat.mul Nat.pow server_up first_started disconnect_ok.

(** A function for [withConnection] that does nothing and throws. *)
Definition fn_throws (connection : nat) (w : Pool.World nat)
  : Pool.World nat * Completion nat :=
  (w, Throw (ForeignError 1)).

(** The static state of a process that has not asked for the pool yet. *)
Definition no_instance : Pool.Process nat :=
  {| Pool.objects := []; Pool.instance := None |}.

End Scenario.

(** ** Remote calls of the session client (OdooClient.js, [execute_kw] and
    the verbs built on it) *)

Module OdooRpc.

(** The values passed to and returned by the server. *)
#[warnings="-register-all"]
Inductive Value : Type :=
| VNull
| VBool (b : bool)
| VNum (n : Z)
| VStr (s : string)
| VArr (items : list Value)
| VObj (members : list (string * Value)).

(** One call [this.odoo.execute_kw(model, method, finalParams, callback)].
    [finalParams] is [[params, kwargs]] or [[params]]; the latter is
    [kwargs = None]. *)
Record Request : Type := {
  model : string;
  method : string;
  params : list Value;
  kwargs : option (gmap string Value)
}.

Section Calls.
Context {num : Type}.
Variable mul : num → num → num.
Variable pow : num → nat → num.
Variable retry : OdooClient.RetryConfig num.
(** The answers of the server: to the [attempt]-th authentication call, and
    to a request. *)
Variable odoo_connect : nat → JSError + nat.
Variable rpc : Request → JSError + Value.

(** [execute_kw(model, method, params = [], kwargs = {})]: the client
    afterwards, the requests sent, and the outcome. *)
Definition execute_kw (model method : string) (params : list Value)
    (kwargs : gmap string Value) (c : OdooClient.t)
  : OdooClient.t * list Request * Completion Value :=
  match OdooClient.connect mul pow retry odoo_connect c with
  | (c, Throw e) => (c, [], Throw e)
  | (c, Return _) =>
      let failed error :=
        Throw (OdooConnectionError
                 ("Failed to execute " +:+ model +:+ "." +:+ method)
                 (Some error)) in
      if OdooClient.odoo c then
        let request :=
          {| model := model; method := method; params := params;
             kwargs := if decide (0 < size kwargs) then Some kwargs else None |} in
        match rpc request with
        | inr result => (c, [request], Return result)
        | inl error => (c, [request], failed error)
        end
      else
        (* [this.odoo] is null: the TypeError of the engine is caught *)
        (c, [], failed (ForeignError 0))
  end.

(** [search(model, domain = [], options = {})] *)
Definition search (model : string) (domain : list Value)
    (options : gmap string Value) :=
  execute_kw model "search" [VArr domain] options.

(** [read(model, ids, fields = [])] *)
Definition read (model : string) (ids : Value) (fields : list Value) :=
  let kwargs : gmap string Value :=
    if decide (0 < length fields) then {[ "fields" := VArr fields ]} else ∅ in
  execute_kw model "read" [ids] kwargs.

(** [searchRead(model, domain = [], fields = [], options = {})] *)
Definition searchRead (model : string) (domain : list Value)
    (fields : list Value) (options : gmap string Value) :=
  let kwargs : gmap string Value :=
    if decide (0 < length fields) then <[ "fields" := VArr fields ]> options
    else options in
  execute_kw model "search_read" [VArr domain] kwargs.

(** [create(model, values)] *)
Definition create (model : string) (values : Value) :=
  execute_kw model "create" [values] ∅.

(** [write(model, ids, values)] *)
Definition write (model : string) (ids values : Value) :=
  execute_kw model "write" [ids; values] ∅.

(** [unlink(model, ids)] *)
Definition unlink (model : string) (ids : Value) :=
  execute_kw model "unlink" [ids] ∅.

(** *** Situations the statements below speak about *)

(** Attempt [k] is the first authentication call that succeeds, with user
    id [u], and the retry policy allows it. *)
Definition first_success (k u : nat) : Prop :=
  1 ≤ k ≤ OdooClient.maxAttempts retry
  ∧ (∀ j, 1 ≤ j < k → ∃ e, odoo_connect j = inl e)
  ∧ odoo_connect k = inr u.

(** Every authentication call the retry policy allows fails. *)
Definition all_fail (errors : nat → JSError) : Prop :=
  ∀ j, 1 ≤ j ≤ OdooClient.maxAttempts retry → odoo_connect j = inl (errors j).

(** A client that [connect()] regards as connected and that has its
    transport object. *)
Definition ready (c : OdooClient.t) : Prop :=
  OdooClient.connected c = true
  ∧ (∃ n, OdooClient.uid c = Some (S n))
  ∧ OdooClient.odoo c = true.
End Calls.

End OdooRpc.

(** ** The pool as a client (OdooConnectionPool.js, "IOdooClient Interface
    Implementation") *)

Module PoolApi.

Section Api.
Context {num : Type}.
Variable mul : num → num → num.
Variable pow : num → nat → num.
Variable transport : nat → nat → JSError + nat.
Variable login_order : list nat → nat.
Variable disconnect_error : nat → option JSError.
Variable rpc : OdooRpc.Request → JSError + OdooRpc.Value.

(** [connect()] *)
Definition connect (w : Pool.World num) : Pool.World num * Completion unit :=
  if decide (length (Pool.availableConnections (Pool.self w)) = 0
             ∧ size (Pool.activeConnections (Pool.self w)) = 0)
  then Pool.initialize mul pow transport login_order w
  else (w, Return tt).

(** [isConnected()] *)
Definition isConnected (w : Pool.World num) : bool :=
  bool_decide (0 < length (Pool.availableConnections (Pool.self w)))
  || bool_decide (0 < size (Pool.activeConnections (Pool.self w))).

(** [disconnect()] *)
Definition disconnect (w : Pool.World num) : Pool.World num * Completion unit :=
  Pool.destroy disconnect_error w.

(** A method call on the connection given to the function of
    [withConnection], with nothing else happening to the pool while the
    call runs.  The connection uses the configuration of the pool that made
    it.  A connection that is no client object cannot be called: the engine
    throws a TypeError. *)
Definition on_connection
    (call : OdooClient.RetryConfig num → (nat → JSError + nat) → OdooClient.t →
            OdooClient.t * list OdooRpc.Request * Completion OdooRpc.Value)
    (connection : nat) (w : Pool.World num)
  : Pool.World num * Completion OdooRpc.Value :=
  match Pool.clients w !! connection with
  | Some client =>
      let '(client, _, result) :=
        call (Pool.retry (Pool.config (Pool.self w))) (transport connection) client in
      (Pool.set_clients (<[connection := client]> (Pool.clients w)) w, result)
  | None => (w, Throw (ForeignError 0))
  end.

(** [execute_kw(model, method, params = [], kwargs = {})] *)
Definition execute_kw (model method : string) (params : list OdooRpc.Value)
    (kwargs : gmap string OdooRpc.Value) (w : Pool.World num)
  : Pool.World num * Pool.AsyncResult OdooRpc.Value :=
  Pool.withConnection mul pow transport
    (on_connection (λ retry auth,
       OdooRpc.execute_kw mul pow retry auth rpc model method params kwargs)) w.

(** [search(model, domain = [], options = {})] *)
Definition search (model : string) (domain : list OdooRpc.Value)
    (options : gmap string OdooRpc.Value) (w : Pool.World num)
  : Pool.World num * Pool.AsyncResult OdooRpc.Value :=
  Pool.withConnection mul pow transport
    (on_connection (λ retry auth,
       OdooRpc.search mul pow retry auth rpc model domain options)) w.

(** [read(model, ids, fields = [])] *)
Definition read (model : string) (ids : OdooRpc.Value)
    (fields : list OdooRpc.Value) (w : Pool.World num)
  : Pool.World num * Pool.AsyncResult OdooRpc.Value :=
  Pool.withConnection mul pow transport
    (on_connection (λ retry auth,
       OdooRpc.read mul pow retry auth rpc model ids fields)) w.

(** [searchRead(model, domain = [], fields = [], options = {})] *)
Definition searchRead (model : string) (domain fields : list OdooRpc.Value)
    (options : gmap string OdooRpc.Value) (w : Pool.World num)
  : Pool.World num * Pool.AsyncResult OdooRpc.Value :=
  Pool.withConnection mul pow transport
    (on_connection (λ retry auth,
       OdooRpc.searchRead mul pow retry auth rpc model domain fields options)) w.

(** [create(model, values)] *)
Definition create (model : string) (values : OdooRpc.Value) (w : Pool.World num)
  : Pool.World num * Pool.AsyncResult OdooRpc.Value :=
  Pool.withConnection mul pow transport
    (on_connection (λ retry auth,
       OdooRpc.create mul pow retry auth rpc model values)) w.

(** [write(model, ids, values)] *)
Definition write (model : string) (ids values : OdooRpc.Value) (w : Pool.World num)
  : Pool.World num * Pool.AsyncResult OdooRpc.Value :=
  Pool.withConnection mul pow transport
    (on_connection (λ retry auth,
       OdooRpc.write mul pow retry auth rpc model ids values)) w.

(** [unlink(model, ids)] *)
Definition unlink (model : string) (ids : OdooRpc.Value) (w : Pool.World num)
  : Pool.World num * Pool.AsyncResult OdooRpc.Value :=
  Pool.withConnection mul pow transport
    (on_connection (λ retry auth,
       OdooRpc.unlink mul pow retry auth rpc model ids)) w.

(** *** Notions the statements below speak about *)

(** The connections the pool holds, each counted once. *)
Definition tracked (w : Pool.World num) : gset nat :=
  list_to_set (Pool.availableConnections (Pool.self w))
  ∪ Pool.activeConnections (Pool.self w).

(** Every connection can authenticate within the attempts that the retry
    policy [r] allows. *)
Definition server_accepts (r : OdooClient.RetryConfig num) : Prop :=
  ∀ connection, ∃ k u, OdooRpc.first_success r (transport connection) k u.

(** The fields of the pool that are set by the constructor. *)
Definition same_settings (w w' : Pool.World num) : Prop :=
  Pool.config (Pool.self w') = Pool.config (Pool.self w)
  ∧ Pool.minConnections (Pool.self w') = Pool.minConnections (Pool.self w)
  ∧ Pool.maxConnections (Pool.self w') = Pool.maxConnections (Pool.self w)
  ∧ Pool.idleTimeout (Pool.self w') = Pool.idleTimeout (Pool.self w).

(** No counter of [s1] is larger than in [s2]. *)
Definition stats_le (s1 s2 : Pool.Stats) : Prop :=
  Pool.created s1 ≤ Pool.created s2
  ∧ Pool.acquired s1 ≤ Pool.acquired s2
  ∧ Pool.released s1 ≤ Pool.released s2
  ∧ Pool.destroyed s1 ≤ Pool.destroyed s2
  ∧ Pool.queuedRequests s1 ≤ Pool.queuedRequests s2.

(** The server lets [connection] in within the attempts that the retry
    policy [r] allows. *)
Definition login_accepted (r : OdooClient.RetryConfig num) (connection : nat)
  : bool :=
  match (OdooClient._authenticateWithRetry mul pow r (transport connection)).2 with
  | Return _ => true
  | Throw _ => false
  end.

(** The order in which logins in flight settle; [n] bounds their number. *)
Fixpoint settling (n : nat) (pending : list nat) : list nat :=
  match n with
  | 0 => []
  | S n' =>
      match Pool.next_login login_order pending with
      | None => []
      | Some (connection, pending') => connection :: settling n' pending'
      end
  end.

Definition settling_order (pending : list nat) : list nat :=
  settling (length pending) pending.

(** How often a history calls [acquire()] and [release()]. *)
Definition acquire_calls (history : list Pool.Op) : nat :=
  length (List.filter (λ op, match op with Pool.Acquire => true | _ => false end)
                      history).

Definition release_calls (history : list Pool.Op) : nat :=
  length (List.filter (λ op, match op with Pool.Release _ => true | _ => false end)
                      history).
End Api.

End PoolApi.

(** ** The static side of the pool, continued *)

Module PoolStatic.

(** The pool objects of a process, each with the objects it refers to, and
    the static field [OdooConnectionPool.instance]; a pool is referred to by
    its position. *)
Record Program (num : Type) : Type := {
  pools : list (Pool.World num);
  instance : option nat
}.
Arguments pools {num} _.
Arguments instance {num} _.

(** The static state as [getInstance] sees it. *)
Definition static {num : Type} (s : Program num) : Pool.Process num :=
  {| Pool.objects := Pool.self <$> pools s; Pool.instance := instance s |}.

(** [static resetInstance()].  [destroy()] is called on the instance and
    not awaited: when [resetInstance()] returns, the instance has run its
    [destroy()] up to the [await]. *)
Definition resetInstance {num : Type} (disconnect_error : nat → option JSError)
    (s : Program num) : Program num :=
  match instance s with
  | Some r =>
      {| pools := alter (λ w, (Pool.destroy_begin disconnect_error w).1) r (pools s);
         instance := None |}
  | None => s
  end.

End PoolStatic.

(** ** Concrete settings for the remote calls *)

Module ScenarioRpc.

(** A client that is connected as user 7. *)
Definition online7 : OdooClient.t :=
  {| OdooClient.odoo := true; OdooClient.uid := Some 7;
     OdooClient.connected := true |}.

(** A server that answers every request with the parameters it was sent. *)
Definition echo (request : OdooRpc.Request) : JSError + OdooRpc.Value :=
  inr (OdooRpc.VArr (OdooRpc.params request)).

(** A server that refuses every request. *)
Definition refuses (request : OdooRpc.Request) : JSError + OdooRpc.Value :=
  inl (ForeignError 9).

(** Only connection 0 can authenticate. *)
Definition only_first (connection attempt : nat) : JSError + nat :=
  match connection with
  | 0 => inr 7
  | S _ => inl (ForeignError attempt)
  end.

(** A process whose pool ([min = 1], [max = 1]) has handed out its only
    connection and queued one request. *)
Definition one_waiting : PoolStatic.Program nat :=
  {| PoolStatic.pools :=
       [Scenario.run [Pool.Initialize; Pool.Acquire; Pool.Acquire]
                     (Pool.new (Scenario.config 1 1))];
     PoolStatic.instance := Some 0 |}.

(** A process that has not asked for the pool yet. *)
Definition no_pool : PoolStatic.Program nat :=
  {| PoolStatic.pools := []; PoolStatic.instance := None |}.

(** [{ limit: 5 }] *)
Definition limit5 : gmap string OdooRpc.Value := {[ "limit" := OdooRpc.VNum 5 ]}.

(** [['name', 'job_id']] *)
Definition two_fields : list OdooRpc.Value :=
  [OdooRpc.VStr "name"; OdooRpc.VStr "job_id"].

End ScenarioRpc.

(** * Properties of the session client *)

Section RetryFacts.
Context {num : Type}.
Variable mul : num → num → num.
Variable pow : num → nat → num.
Variable retry : OdooClient.RetryConfig num.
Variable odoo_connect : nat → JSError + nat.

Local Abbreviation retry_loop := (OdooClient.retry_loop mul pow retry odoo_connect).
Local Abbreviation failed_rounds := (OdooClient.failed_rounds mul pow retry).
Local Abbreviation maxAttempts := (OdooClient.maxAttempts retry).

Lemma attempts_made_app (l1 l2 : list (OdooClient.AuthEvent num)) :
  OdooClient.attempts_made (l1 ++ l2) =
  OdooClient.attempts_made l1 + OdooClient.attempts_made l2.
Proof.
  unfold OdooClient.attempts_made.
  by rewrite List.filter_app, length_app.
Qed.

(** The loop body runs at most once per remaining value of [attempt]. *)
Lemma retry_loop_attempts remaining attempt lastError :
  OdooClient.attempts_made (retry_loop remaining attempt lastError).1 ≤ remaining.
Proof.
  revert attempt lastError.
  induction remaining as [|r IH]; intros attempt lastError; simpl.
  - done.
  - destruct (odoo_connect attempt) as [error|u]; simpl.
    + specialize (IH (S attempt) (Some error)).
      destruct (retry_loop r (S attempt) (Some error)) as [events result].
      simpl in *.
      change (OdooClient.Attempt attempt :: ?s ++ events)
        with ([OdooClient.Attempt attempt] ++ s ++ events).
      rewrite !attempts_made_app.
      destruct (decide (attempt < maxAttempts)); cbn; lia.
    + cbn. lia.
Qed.

Lemma failed_rounds_cons from n :
  failed_rounds from (S n) =
  OdooClient.Attempt from
    :: OdooClient.Sleep (OdooClient.backoff_delay mul pow retry from)
    :: failed_rounds (S from) n.
Proof. reflexivity. Qed.

(** [k] failures in a row and then a success. *)
Lemma retry_loop_success k :
  ∀ remaining attempt lastError u,
    attempt + remaining = S maxAttempts →
    k < remaining →
    (∀ j, attempt ≤ j < attempt + k → ∃ e, odoo_connect j = inl e) →
    odoo_connect (attempt + k) = inr u →
    retry_loop remaining attempt lastError =
    (failed_rounds attempt k ++ [OdooClient.Attempt (attempt + k)], Return u).
Proof.
  induction k as [|k IH]; intros remaining attempt lastError u Hsum Hk Hfail Hok.
  - destruct remaining as [|r]; [lia|]. simpl.
    rewrite Nat.add_0_r in Hok. rewrite Hok.
    by rewrite Nat.add_0_r.
  - destruct remaining as [|r]; [lia|].
    rewrite failed_rounds_cons. cbn [OdooClient.retry_loop].
    destruct (Hfail attempt ltac:(lia)) as [e He]. rewrite He.
    rewrite (IH r (S attempt) (Some e) u); try lia.
    + destruct (decide (attempt < maxAttempts)) as [_|Hge]; [|lia].
      simpl.
      by replace (S (attempt + k)) with (attempt + S k) by lia.
    + intros j Hj. apply Hfail. lia.
    + by replace (S attempt + k) with (attempt + S k) by lia.
Qed.

(** Every remaining attempt fails. *)
Lemma retry_loop_exhausted (errors : nat → JSError) :
  ∀ remaining attempt lastError,
    attempt + S remaining = S maxAttempts →
    (∀ j, attempt ≤ j ≤ maxAttempts → odoo_connect j = inl (errors j)) →
    retry_loop (S remaining) attempt lastError =
    (failed_rounds attempt remaining ++ [OdooClient.Attempt maxAttempts],
     Throw (OdooConnectionError
              ("Failed to authenticate after " +:+ pretty maxAttempts +:+ " attempts")
              (Some (errors maxAttempts)))).
Proof.
  induction remaining as [|r IH]; intros attempt lastError Hsum Hfail.
  - assert (attempt = maxAttempts) as -> by lia.
    simpl. rewrite Hfail by lia.
    destruct (decide (maxAttempts < maxAttempts)); [lia|]. done.
  - rewrite failed_rounds_cons.
    remember (S r) as r' eqn:Hr. cbn [OdooClient.retry_loop].
    rewrite Hfail by lia.
    destruct (decide (attempt < maxAttempts)) as [_|Hge]; [|lia].
    subst r'. rewrite (IH (S attempt) (Some (errors attempt))).
    + done.
    + lia.
    + intros j Hj. apply Hfail. lia.
Qed.

(** C6.  [_authenticateWithRetry] calls the server at most [maxAttempts]
    times.  If the attempts before the [k]-th fail and the [k]-th
    succeeds, it has slept [delayMs * backoffMultiplier^(j-1)] after each
    failed attempt [j], and it returns the user id of attempt [k].  If all
    [maxAttempts] attempts fail, it has slept after each but the last
    one, and it throws an [OdooConnectionError] that wraps the error of
    the last attempt. *)
Theorem authenticateWithRetry_spec :
  OdooClient.attempts_made
    (OdooClient._authenticateWithRetry mul pow retry odoo_connect).1 ≤ maxAttempts
  ∧ (∀ k u,
       1 ≤ k ≤ maxAttempts →
       (∀ j, 1 ≤ j < k → ∃ e, odoo_connect j = inl e) →
       odoo_connect k = inr u →
       OdooClient._authenticateWithRetry mul pow retry odoo_connect =
       (failed_rounds 1 (k - 1) ++ [OdooClient.Attempt k], Return u))
  ∧ (∀ errors : nat → JSError,
       1 ≤ maxAttempts →
       (∀ j, 1 ≤ j ≤ maxAttempts → odoo_connect j = inl (errors j)) →
       OdooClient._authenticateWithRetry mul pow retry odoo_connect =
       (failed_rounds 1 (maxAttempts - 1) ++ [OdooClient.Attempt maxAttempts],
        Throw (OdooConnectionError
                 ("Failed to authenticate after " +:+ pretty maxAttempts +:+ " attempts")
                 (Some (errors maxAttempts))))).
Proof.
  unfold OdooClient._authenticateWithRetry. split; [|split].
  - apply retry_loop_attempts.
  - intros k u Hk Hfail Hok.
    rewrite (retry_loop_success (k - 1) maxAttempts 1 None u); try lia.
    + by replace (1 + (k - 1)) with k by lia.
    + intros j Hj. apply Hfail. lia.
    + by replace (1 + (k - 1)) with k by lia.
  - intros errors Hmax Hfail.
    destruct maxAttempts as [|m] eqn:Hm; [lia|].
    rewrite <- Hm in *.
    replace (retry_loop maxAttempts) with (retry_loop (S m)) by (by rewrite Hm).
    rewrite (retry_loop_exhausted errors m 1 None); try lia; [|done].
    by replace (maxAttempts - 1) with m by lia.
Qed.
End RetryFacts.

(** * Properties of the connection pool *)

Section PoolFacts.
Context {num : Type}.
Implicit Types (w : Pool.World num) (c p id : nat).

(** ** What the helpers leave alone *)

Lemma self_settle p s w : Pool.self (Pool.settle p s w) = Pool.self w.
Proof. unfold Pool.settle. by repeat case_match. Qed.

Lemma self_clearTimeout id w : Pool.self (Pool.clearTimeout id w) = Pool.self w.
Proof. unfold Pool.clearTimeout. by repeat case_match. Qed.

Lemma self_call cb arg w : Pool.self (Pool.call cb arg w) = Pool.self w.
Proof.
  destruct cb, arg; simpl; by rewrite ?self_settle, ?self_clearTimeout.
Qed.

Lemma timers_settle p s w : Pool.timers (Pool.settle p s w) = Pool.timers w.
Proof. unfold Pool.settle. by repeat case_match. Qed.

Lemma clients_settle p s w : Pool.clients (Pool.settle p s w) = Pool.clients w.
Proof. unfold Pool.settle. by repeat case_match. Qed.

Lemma promises_clearTimeout id w :
  Pool.promises (Pool.clearTimeout id w) = Pool.promises w.
Proof. unfold Pool.clearTimeout. by repeat case_match. Qed.

Lemma clients_clearTimeout id w :
  Pool.clients (Pool.clearTimeout id w) = Pool.clients w.
Proof. unfold Pool.clearTimeout. by repeat case_match. Qed.

Lemma clients_call cb arg w : Pool.clients (Pool.call cb arg w) = Pool.clients w.
Proof.
  destruct cb, arg; simpl; by rewrite ?clients_settle, ?clients_clearTimeout.
Qed.

Lemma log_settle p s w : Pool.log (Pool.settle p s w) = Pool.log w.
Proof. unfold Pool.settle. by repeat case_match. Qed.

Lemma log_clearTimeout id w : Pool.log (Pool.clearTimeout id w) = Pool.log w.
Proof. unfold Pool.clearTimeout. by repeat case_match. Qed.

Lemma log_call cb arg w : Pool.log (Pool.call cb arg w) = Pool.log w.
Proof.
  destruct cb, arg; simpl; by rewrite ?log_settle, ?log_clearTimeout.
Qed.

(** The promise and timer helpers commute with changes of the pool's own
    fields. *)
Lemma settle_on_self f p s w :
  Pool.settle p s (Pool.on_self f w) = Pool.on_self f (Pool.settle p s w).
Proof. unfold Pool.settle. simpl. by repeat case_match. Qed.

Lemma clearTimeout_on_self f id w :
  Pool.clearTimeout id (Pool.on_self f w) = Pool.on_self f (Pool.clearTimeout id w).
Proof. unfold Pool.clearTimeout. simpl. by repeat case_match. Qed.

Lemma call_on_self f cb arg w :
  Pool.call cb arg (Pool.on_self f w) = Pool.on_self f (Pool.call cb arg w).
Proof.
  destruct cb, arg; simpl; by rewrite ?clearTimeout_on_self, ?settle_on_self.
Qed.

(** Putting back the element that was just taken out of a set. *)
Lemma remove_then_add (X : gset nat) c : c ∈ X → X ∖ {[c]} ∪ {[c]} = X.
Proof.
  intros Hc. apply set_eq. intros x.
  rewrite elem_of_union, elem_of_difference, elem_of_singleton.
  destruct (decide (x = c)) as [Heq|Hne]; [rewrite Heq|]; tauto.
Qed.

(** A pending promise takes the state it is settled with. *)
Lemma settle_pending p s w :
  Pool.promises w !! p = Some Pool.Pending →
  Pool.promises (Pool.settle p s w) = <[p := s]> (Pool.promises w).
Proof. intros H. unfold Pool.settle. by rewrite H. Qed.

(** Settling touches no other promise, and no promise that is settled. *)
Lemma settle_other p q s w :
  p ≠ q → Pool.promises (Pool.settle p s w) !! q = Pool.promises w !! q.
Proof.
  intros Hne. unfold Pool.settle.
  repeat case_match; simpl; try done. by rewrite lookup_insert_ne.
Qed.

Lemma settle_settled p q s s0 w :
  Pool.promises w !! q = Some s0 → s0 ≠ Pool.Pending →
  Pool.promises (Pool.settle p s w) !! q = Some s0.
Proof.
  intros Hq Hs0. destruct (decide (p = q)) as [->|Hne].
  - unfold Pool.settle. rewrite Hq. by destruct s0.
  - by rewrite settle_other.
Qed.

Lemma call_settled cb arg q s0 w :
  Pool.promises w !! q = Some s0 → s0 ≠ Pool.Pending →
  Pool.promises (Pool.call cb arg w) !! q = Some s0.
Proof.
  intros Hq Hs0.
  destruct cb, arg; simpl;
    apply settle_settled; by rewrite ?promises_clearTimeout.
Qed.

Lemma call_other_promise p timeout arg q w :
  p ≠ q →
  Pool.promises (Pool.call (Pool.WaitCallback p timeout) arg w) !! q =
  Pool.promises w !! q.
Proof.
  intros Hne. destruct arg; simpl;
    by rewrite settle_other, promises_clearTimeout.
Qed.

(** ** C10: releasing a connection the pool does not track *)

(** C10.  [release(connection)] for a connection that is not in the active
    set returns normally; it adds one to the [released] counter and changes
    nothing else: the available list, the active set, the wait queue, the
    other counters, the clients, promises and timers are as before (the
    logger receives a warning). *)
Theorem release_untracked_only_counts c w :
  c ∉ Pool.activeConnections (Pool.self w) →
  Pool.availableConnections (Pool.self (Pool.release c w)) =
    Pool.availableConnections (Pool.self w)
  ∧ Pool.activeConnections (Pool.self (Pool.release c w)) =
    Pool.activeConnections (Pool.self w)
  ∧ Pool.connectionQueue (Pool.self (Pool.release c w)) =
    Pool.connectionQueue (Pool.self w)
  ∧ Pool.stats (Pool.self (Pool.release c w)) =
    {| Pool.created := Pool.created (Pool.stats (Pool.self w));
       Pool.acquired := Pool.acquired (Pool.stats (Pool.self w));
       Pool.released := S (Pool.released (Pool.stats (Pool.self w)));
       Pool.destroyed := Pool.destroyed (Pool.stats (Pool.self w));
       Pool.queuedRequests := Pool.queuedRequests (Pool.stats (Pool.self w)) |}
  ∧ Pool.clients (Pool.release c w) = Pool.clients w
  ∧ Pool.promises (Pool.release c w) = Pool.promises w
  ∧ Pool.timers (Pool.release c w) = Pool.timers w
  ∧ Pool.log (Pool.release c w) =
    Pool.log w ++ [(Pool.Warn, "Attempted to release unknown connection")].
Proof.
  intros Hc. unfold Pool.release. simpl.
  destruct (decide (c ∉ Pool.activeConnections (Pool.self w))); [|done].
  simpl. repeat split.
Qed.

Variable mul : num → num → num.
Variable pow : num → nat → num.
Variable transport : nat → nat → JSError + nat.
Variable disconnect_error : nat → option JSError.

Local Abbreviation acquire := (Pool.acquire mul pow transport).
Local Abbreviation _createConnection := (Pool._createConnection mul pow transport).
Local Abbreviation destroy := (Pool.destroy disconnect_error).
Local Abbreviation fire := (Pool.fire disconnect_error).

(** ** C9: the counters of [acquire()] *)

(** Creating a connection changes the [created] counter and the available
    list only. *)
Lemma createConnection_frame w :
  let w' := (_createConnection w).1 in
  Pool.connectionQueue (Pool.self w') = Pool.connectionQueue (Pool.self w)
  ∧ Pool.activeConnections (Pool.self w') = Pool.activeConnections (Pool.self w)
  ∧ Pool.acquired (Pool.stats (Pool.self w')) = Pool.acquired (Pool.stats (Pool.self w))
  ∧ Pool.released (Pool.stats (Pool.self w')) = Pool.released (Pool.stats (Pool.self w))
  ∧ Pool.destroyed (Pool.stats (Pool.self w')) = Pool.destroyed (Pool.stats (Pool.self w))
  ∧ Pool.queuedRequests (Pool.stats (Pool.self w')) =
    Pool.queuedRequests (Pool.stats (Pool.self w))
  ∧ Pool.promises w' = Pool.promises w
  ∧ Pool.timers w' = Pool.timers w.
Proof.
  unfold Pool._createConnection.
  destruct (OdooClient.connect _ _ _ _ _) as [client [[]|e]]; simpl; repeat split.
Qed.

(** What a successful creation does: the new connection is the one it
    returns, and it is appended to the available list. *)
Lemma createConnection_returns w w' c :
  _createConnection w = (w', Return c) →
  c = fresh (dom (Pool.clients w))
  ∧ Pool.availableConnections (Pool.self w') =
    Pool.availableConnections (Pool.self w) ++ [c]
  ∧ Pool.created (Pool.stats (Pool.self w')) =
    S (Pool.created (Pool.stats (Pool.self w))).
Proof.
  unfold Pool._createConnection.
  destruct (OdooClient.connect _ _ _ _ _) as [client [[]|e]]; simpl;
    intros [= <- <-]; repeat split.
Qed.

(** C9.  Every call of [acquire()] adds exactly one to the [acquired]
    counter, whichever way it is served.  When the call is put on the wait
    queue (its result waits for a promise), [queuedRequests] grows by one
    and the queue by one callback; on the two other paths both are
    unchanged. *)
Theorem acquire_counts w :
  Pool.acquired (Pool.stats (Pool.self (acquire w).1)) =
    S (Pool.acquired (Pool.stats (Pool.self w)))
  ∧ match (acquire w).2 with
    | Pool.Awaiting p =>
        Pool.queuedRequests (Pool.stats (Pool.self (acquire w).1)) =
          S (Pool.queuedRequests (Pool.stats (Pool.self w)))
        ∧ ∃ timeout,
            Pool.connectionQueue (Pool.self (acquire w).1) =
            Pool.connectionQueue (Pool.self w) ++ [Pool.WaitCallback p timeout]
    | Pool.Settled _ =>
        Pool.queuedRequests (Pool.stats (Pool.self (acquire w).1)) =
          Pool.queuedRequests (Pool.stats (Pool.self w))
        ∧ Pool.connectionQueue (Pool.self (acquire w).1) =
          Pool.connectionQueue (Pool.self w)
    end.
Proof.
  unfold Pool.acquire. simpl.
  destruct (Pool.availableConnections (Pool.self w)) as [|c rest]; simpl.
  - destruct (decide (size (Pool.activeConnections (Pool.self w)) <
                      Pool.maxConnections (Pool.self w))) as [Hlt|Hge].
    + pose proof (createConnection_frame (Pool.on_self Pool.incr_acquired w)) as Hframe.
      simpl in Hframe.
      destruct (Pool._createConnection _ _ _ _) as [w' [c|e]]; simpl in *;
        destruct Hframe as (Hq & _ & Ha & _ & _ & Hqr & _); by rewrite Ha, Hq, Hqr.
    + simpl. eauto.
  - done.
Qed.

(** ** C8: the singleton *)

(** C8.  While no instance exists, [getInstance()] without a configuration
    throws (synchronously) and changes nothing; [getInstance(config)]
    constructs one new pool from [config], stores it in the static field
    and returns it; every later call, whatever its argument, returns that
    same object and neither constructs nor stores anything. *)
Theorem getInstance_singleton (s : Pool.Process num) :
  Pool.instance s = None →
  Pool.getInstance None s =
    (s, Throw (Error
       "Config is required for first initialization of OdooConnectionPool"))
  ∧ ∀ cfg : Pool.Config num,
      let s1 := (Pool.getInstance (Some cfg) s).1 in
      let r := length (Pool.objects s) in
      (Pool.getInstance (Some cfg) s).2 = Return r
      ∧ Pool.instance s1 = Some r
      ∧ Pool.objects s1 = Pool.objects s ++ [Pool.construct cfg]
      ∧ Pool.objects s1 !! r = Some (Pool.construct cfg)
      ∧ ∀ later : option (Pool.Config num),
          Pool.getInstance later s1 = (s1, Return r).
Proof.
  intros Hnone. unfold Pool.getInstance. rewrite Hnone. split; [done|].
  intros cfg. simpl. repeat split.
  by rewrite lookup_app_r, Nat.sub_diag.
Qed.

(** ** A released connection goes to the callback at the head of the queue *)

(** [acquire()] on an exhausted pool puts its callback at the end of the
    queue and waits for a new, pending promise. *)
Lemma acquire_exhausted w :
  Pool.availableConnections (Pool.self w) = [] →
  ¬ size (Pool.activeConnections (Pool.self w)) < Pool.maxConnections (Pool.self w) →
  ∃ p timeout,
    (acquire w).2 = Pool.Awaiting p
    ∧ Pool.promises w !! p = None
    ∧ Pool.promises (acquire w).1 = <[p := Pool.Pending]> (Pool.promises w)
    ∧ Pool.connectionQueue (Pool.self (acquire w).1) =
      Pool.connectionQueue (Pool.self w) ++ [Pool.WaitCallback p timeout]
    ∧ Pool.availableConnections (Pool.self (acquire w).1) = []
    ∧ Pool.activeConnections (Pool.self (acquire w).1) =
      Pool.activeConnections (Pool.self w).
Proof.
  intros Hav Hfull. unfold Pool.acquire. simpl. rewrite Hav.
  destruct (decide _) as [?|_]; [done|]. simpl.
  eexists _, _. repeat split; try done.
  apply not_elem_of_dom, is_fresh.
Qed.

(** One release with a non-empty queue. *)
Lemma release_to_waiter c cb rest w :
  c ∈ Pool.activeConnections (Pool.self w) →
  Pool.connectionQueue (Pool.self w) = cb :: rest →
  Pool.connectionQueue (Pool.self (Pool.release c w)) = rest
  ∧ Pool.activeConnections (Pool.self (Pool.release c w)) =
    Pool.activeConnections (Pool.self w)
  ∧ Pool.availableConnections (Pool.self (Pool.release c w)) =
    Pool.availableConnections (Pool.self w)
  ∧ Pool.promises (Pool.release c w) = Pool.promises (Pool.call cb (Some c) w).
Proof.
  intros Hc Hq. unfold Pool.release. simpl.
  destruct (decide (c ∉ _)) as [?|_]; [done|]. simpl. rewrite Hq. simpl.
  rewrite !self_call. simpl. repeat split.
  - by apply remove_then_add.
  - by rewrite !call_on_self.
Qed.

(** A release never changes a promise that is already settled. *)
Lemma release_settled c q s0 w :
  Pool.promises w !! q = Some s0 → s0 ≠ Pool.Pending →
  Pool.promises (Pool.release c w) !! q = Some s0.
Proof.
  intros Hq Hs0. unfold Pool.release. simpl.
  destruct (decide (c ∉ _)); [done|]. simpl.
  destruct (Pool.connectionQueue (Pool.self w)) as [|cb rest]; simpl.
  - unfold Pool._setIdleTimeout. by case_decide.
  - by apply call_settled.
Qed.

Lemma release_all_settled cs q s0 w :
  Pool.promises w !! q = Some s0 → s0 ≠ Pool.Pending →
  Pool.promises (Pool.release_all cs w) !! q = Some s0.
Proof.
  revert w. induction cs as [|c cs IH]; intros w Hq Hs0; [done|].
  simpl. apply IH; [|done]. by apply release_settled.
Qed.

(** Releases met by as many waiting callbacks: the [i]-th release settles
    the promise of the [i]-th callback. *)
Lemma release_all_in_order (tickets : list (nat * nat)) :
  ∀ (cs : list nat) (rest : list Pool.Callback) w,
    Pool.connectionQueue (Pool.self w) =
      (uncurry Pool.WaitCallback <$> tickets) ++ rest →
    length cs = length tickets →
    Forall (λ c, c ∈ Pool.activeConnections (Pool.self w)) cs →
    NoDup tickets.*1 →
    Forall (λ p, Pool.promises w !! p = Some Pool.Pending) tickets.*1 →
    Pool.connectionQueue (Pool.self (Pool.release_all cs w)) = rest
    ∧ Pool.activeConnections (Pool.self (Pool.release_all cs w)) =
      Pool.activeConnections (Pool.self w)
    ∧ Pool.availableConnections (Pool.self (Pool.release_all cs w)) =
      Pool.availableConnections (Pool.self w)
    ∧ ∀ i p timeout c,
        tickets !! i = Some (p, timeout) → cs !! i = Some c →
        Pool.promises (Pool.release_all cs w) !! p =
        Some (Pool.Resolved (Some c)).
Proof.
  induction tickets as [|[p timeout] tickets IH];
    intros cs rest w Hq Hlen Hact Hnd Hpend.
  - destruct cs; [|done]. simpl in *. by repeat split.
  - destruct cs as [|c cs]; [done|]. simpl in *.
    apply Forall_cons in Hact as [Hc Hact].
    apply NoDup_cons in Hnd as [Hp Hnd].
    apply Forall_cons in Hpend as [Hpp Hpend].
    destruct (release_to_waiter c _ _ w Hc Hq) as (Hq1 & Ha1 & Hav1 & Hpr1).
    assert (Pool.promises (Pool.release c w) !! p = Some (Pool.Resolved (Some c)))
      as Hdone.
    { rewrite Hpr1. simpl. rewrite settle_pending.
      - by rewrite lookup_insert_eq.
      - by rewrite promises_clearTimeout. }
    destruct (IH cs rest (Pool.release c w)) as (Hq2 & Ha2 & Hav2 & Hpr2).
    + done.
    + lia.
    + by rewrite Ha1.
    + done.
    + rewrite Forall_forall in Hpend |- *. intros q Hq'.
      rewrite Hpr1, call_other_promise; [by apply Hpend|].
      intros ->. done.
    + rewrite Hq2, Ha2, Ha1, Hav2, Hav1. repeat split.
      intros [|i] q t' c' Hi Hci; simpl in *.
      * injection Hi as -> ->. injection Hci as ->.
        by apply release_all_settled.
      * eauto.
Qed.

(** A release while the callback at the head of the queue belongs to a
    waiter that has timed out: the callback is taken from the queue and
    called, which settles nothing.  The connection stays in the active set,
    it is not put on the available list, and no promise changes: nobody is
    given the connection. *)
Lemma release_to_settled_waiter c p timeout rest s0 w :
  c ∈ Pool.activeConnections (Pool.self w) →
  Pool.connectionQueue (Pool.self w) = Pool.WaitCallback p timeout :: rest →
  Pool.promises w !! p = Some s0 → s0 ≠ Pool.Pending →
  Pool.connectionQueue (Pool.self (Pool.release c w)) = rest
  ∧ Pool.activeConnections (Pool.self (Pool.release c w)) =
    Pool.activeConnections (Pool.self w)
  ∧ Pool.availableConnections (Pool.self (Pool.release c w)) =
    Pool.availableConnections (Pool.self w)
  ∧ Pool.promises (Pool.release c w) = Pool.promises w.
Proof.
  intros Hc Hq Hp Hs0.
  destruct (release_to_waiter c _ _ w Hc Hq) as (-> & -> & -> & ->).
  repeat split. simpl. unfold Pool.settle.
  rewrite promises_clearTimeout, Hp.
  destruct s0; [done|..]; apply promises_clearTimeout.
Qed.

(** While the waiters are still waiting, they are served in the order of
    their calls.  (1) An [acquire()] that finds the pool exhausted puts its
    callback at the end of the queue.  (2) [release(connection)] of an
    active connection, with a non-empty queue, takes the callback at the
    head of the queue and calls it with the connection; the connection
    stays in the active set and is not put on the available list.
    (3) Successive releases, met by callbacks whose promises are all
    pending, resolve the promise of the [i]-th waiter with the [i]-th
    released connection. *)
Lemma pending_waiters_served_in_order w :
  (Pool.availableConnections (Pool.self w) = [] →
   ¬ size (Pool.activeConnections (Pool.self w)) < Pool.maxConnections (Pool.self w) →
   ∃ p timeout,
     (acquire w).2 = Pool.Awaiting p
     ∧ Pool.connectionQueue (Pool.self (acquire w).1) =
       Pool.connectionQueue (Pool.self w) ++ [Pool.WaitCallback p timeout])
  ∧ (∀ c cb rest,
       c ∈ Pool.activeConnections (Pool.self w) →
       Pool.connectionQueue (Pool.self w) = cb :: rest →
       Pool.connectionQueue (Pool.self (Pool.release c w)) = rest
       ∧ Pool.activeConnections (Pool.self (Pool.release c w)) =
         Pool.activeConnections (Pool.self w)
       ∧ Pool.availableConnections (Pool.self (Pool.release c w)) =
         Pool.availableConnections (Pool.self w)
       ∧ Pool.promises (Pool.release c w) = Pool.promises (Pool.call cb (Some c) w))
  ∧ (∀ (tickets : list (nat * nat)) (cs : list nat) (rest : list Pool.Callback),
       Pool.connectionQueue (Pool.self w) =
         (uncurry Pool.WaitCallback <$> tickets) ++ rest →
       length cs = length tickets →
       Forall (λ c, c ∈ Pool.activeConnections (Pool.self w)) cs →
       NoDup tickets.*1 →
       Forall (λ p, Pool.promises w !! p = Some Pool.Pending) tickets.*1 →
       Pool.connectionQueue (Pool.self (Pool.release_all cs w)) = rest
       ∧ Pool.activeConnections (Pool.self (Pool.release_all cs w)) =
         Pool.activeConnections (Pool.self w)
       ∧ Pool.availableConnections (Pool.self (Pool.release_all cs w)) =
         Pool.availableConnections (Pool.self w)
       ∧ ∀ i p timeout c,
           tickets !! i = Some (p, timeout) → cs !! i = Some c →
           Pool.promises (Pool.release_all cs w) !! p =
           Some (Pool.Resolved (Some c))).
Proof.
  split; [|split].
  - intros Hav Hfull.
    destruct (acquire_exhausted w Hav Hfull) as (p & timeout & Hr & _ & _ & Hq & _).
    eauto.
  - intros c cb rest. apply release_to_waiter.
  - intros tickets cs rest. apply release_all_in_order.
Qed.

(** ** C7: [destroy()] *)

Local Abbreviation closing :=
  (Pool.Rejected (OdooConnectionError "Connection pool is closing" None)).
Local Abbreviation reject_all :=
  (foldl (λ w resolve, Pool.call resolve None w)).
Local Abbreviation destroy_each := (foldl (Pool.destroy_one disconnect_error)).

Lemma reject_all_self q : ∀ w, Pool.self (reject_all w q) = Pool.self w.
Proof.
  induction q as [|cb q IH]; intros w; simpl; [done|].
  by rewrite IH, self_call.
Qed.

Lemma reject_all_clients q : ∀ w, Pool.clients (reject_all w q) = Pool.clients w.
Proof.
  induction q as [|cb q IH]; intros w; simpl; [done|].
  by rewrite IH, clients_call.
Qed.

Lemma reject_all_log q : ∀ w, Pool.log (reject_all w q) = Pool.log w.
Proof.
  induction q as [|cb q IH]; intros w; simpl; [done|].
  by rewrite IH, log_call.
Qed.

Lemma reject_all_settled q : ∀ w p s0,
  Pool.promises w !! p = Some s0 → s0 ≠ Pool.Pending →
  Pool.promises (reject_all w q) !! p = Some s0.
Proof.
  induction q as [|cb q IH]; intros w p s0 Hp Hs0; simpl; [done|].
  apply IH; [|done]. by apply call_settled.
Qed.

(** Calling every queued callback with [null] rejects the pending promise
    of every waiter. *)
Lemma reject_all_rejects q : ∀ w p timeout,
  Pool.WaitCallback p timeout ∈ q →
  Pool.PromiseResolve p ∉ q →
  Pool.promises w !! p = Some Pool.Pending →
  Pool.promises (reject_all w q) !! p = Some closing.
Proof.
  induction q as [|cb q IH]; intros w p timeout Hin Hnot Hp; simpl.
  - by apply elem_of_nil in Hin.
  - apply not_elem_of_cons in Hnot as [Hcb Hnot].
    destruct cb as [p'|p' t'].
    + assert (p' ≠ p) by congruence.
      apply elem_of_cons in Hin as [?|Hin]; [done|].
      apply (IH _ _ timeout); [done..|].
      simpl. by rewrite settle_other.
    + destruct (decide (p' = p)) as [->|Hne].
      * apply reject_all_settled; [|done].
        simpl. rewrite settle_pending by (by rewrite promises_clearTimeout).
        by rewrite lookup_insert_eq.
      * apply elem_of_cons in Hin as [?|Hin]; [congruence|].
        apply (IH _ _ timeout); [done..|].
        by rewrite call_other_promise.
Qed.

Lemma destroy_one_frame w c :
  let w' := Pool.destroy_one disconnect_error w c in
  Pool.connectionQueue (Pool.self w') = Pool.connectionQueue (Pool.self w)
  ∧ Pool.availableConnections (Pool.self w') = Pool.availableConnections (Pool.self w)
  ∧ Pool.activeConnections (Pool.self w') = Pool.activeConnections (Pool.self w)
  ∧ Pool.promises w' = Pool.promises w.
Proof.
  unfold Pool.destroy_one, Pool.disconnect_client.
  destruct (disconnect_error c); simpl; repeat split.
Qed.

Lemma destroy_each_promises l : ∀ w,
  Pool.promises (destroy_each w l) = Pool.promises w.
Proof.
  induction l as [|c l IH]; intros w; simpl; [done|].
  rewrite IH. apply destroy_one_frame.
Qed.

(** A disconnected client stays disconnected. *)
Lemma destroy_one_disconnected w c x cl :
  Pool.clients w !! x = Some cl → OdooClient.connected cl = false →
  ∃ cl', Pool.clients (Pool.destroy_one disconnect_error w c) !! x = Some cl'
         ∧ OdooClient.connected cl' = false.
Proof.
  intros Hx Hcl. unfold Pool.destroy_one, Pool.disconnect_client.
  destruct (disconnect_error c); simpl; [eauto|].
  rewrite lookup_alter. case_decide as Heq; [|eauto].
  rewrite Heq, Hx. simpl. unfold OdooClient.disconnect. rewrite Hcl. eauto.
Qed.

Lemma destroy_each_disconnected l : ∀ w x cl,
  Pool.clients w !! x = Some cl → OdooClient.connected cl = false →
  ∃ cl', Pool.clients (destroy_each w l) !! x = Some cl'
         ∧ OdooClient.connected cl' = false.
Proof.
  induction l as [|c l IH]; intros w x cl Hx Hcl; simpl; [eauto|].
  destruct (destroy_one_disconnected w c x cl Hx Hcl) as (cl1 & Hx1 & Hcl1).
  eauto.
Qed.

(** Every client in the list whose [disconnect()] does not fail ends up
    disconnected. *)
Lemma destroy_each_disconnects l : ∀ w x cl,
  x ∈ l → disconnect_error x = None →
  Pool.clients w !! x = Some cl →
  ∃ cl', Pool.clients (destroy_each w l) !! x = Some cl'
         ∧ OdooClient.connected cl' = false.
Proof.
  induction l as [|c l IH]; intros w x cl Hin Hok Hx; simpl.
  - by apply elem_of_nil in Hin.
  - destruct (decide (x = c)) as [->|Hne].
    + apply (destroy_each_disconnected l _ c (OdooClient.disconnect cl)).
      * unfold Pool.destroy_one, Pool.disconnect_client. rewrite Hok. simpl.
        by rewrite lookup_alter_eq, Hx.
      * unfold OdooClient.disconnect. by destruct (OdooClient.connected cl) eqn:?.
    + apply elem_of_cons in Hin as [?|Hin]; [done|].
      assert (∃ cl1, Pool.clients (Pool.destroy_one disconnect_error w c) !! x
                     = Some cl1) as [cl1 Hx1].
      { unfold Pool.destroy_one, Pool.disconnect_client.
        destruct (disconnect_error c); simpl; [eauto|].
        rewrite lookup_alter_ne by done. eauto. }
      eauto.
Qed.

Lemma destroy_one_log w c entry :
  entry ∈ Pool.log w → entry ∈ Pool.log (Pool.destroy_one disconnect_error w c).
Proof.
  intros Hin. unfold Pool.destroy_one, Pool.disconnect_client.
  destruct (disconnect_error c); simpl; [|done].
  apply elem_of_app. by left.
Qed.

Lemma destroy_each_log l : ∀ w entry,
  entry ∈ Pool.log w → entry ∈ Pool.log (destroy_each w l).
Proof.
  induction l as [|c l IH]; intros w entry Hin; simpl; [done|].
  by apply IH, destroy_one_log.
Qed.

(** A failing [disconnect()] is reported to the logger. *)
Lemma destroy_each_logs_failure l : ∀ w x e,
  x ∈ l → disconnect_error x = Some e →
  (Pool.LogError, "Error disconnecting connection") ∈ Pool.log (destroy_each w l).
Proof.
  induction l as [|c l IH]; intros w x e Hin Hfail; simpl.
  - by apply elem_of_nil in Hin.
  - apply elem_of_cons in Hin as [->|Hin]; [|eauto].
    apply destroy_each_log.
    unfold Pool.destroy_one, Pool.disconnect_client. rewrite Hfail. simpl.
    apply elem_of_app. right. apply list_elem_of_singleton. done.
Qed.

Lemma destroy_each_sets l : ∀ w,
  Pool.connectionQueue (Pool.self (destroy_each w l)) =
    Pool.connectionQueue (Pool.self w)
  ∧ Pool.availableConnections (Pool.self (destroy_each w l)) =
    Pool.availableConnections (Pool.self w)
  ∧ Pool.activeConnections (Pool.self (destroy_each w l)) =
    Pool.activeConnections (Pool.self w).
Proof.
  induction l as [|c l IH]; intros w; simpl; [done|].
  destruct (IH (Pool.destroy_one disconnect_error w c)) as (-> & -> & ->).
  destruct (destroy_one_frame w c) as (-> & -> & -> & _). done.
Qed.

(** [destroy()] returns normally and leaves nothing tracked. *)
Lemma destroy_clears w :
  (destroy w).2 = Return tt
  ∧ Pool.connectionQueue (Pool.self (destroy w).1) = []
  ∧ Pool.availableConnections (Pool.self (destroy w).1) = []
  ∧ Pool.activeConnections (Pool.self (destroy w).1) = ∅
  ∧ Pool.total (destroy w).1 = 0.
Proof.
  unfold Pool.destroy, Pool.total. simpl. repeat split.
  match goal with |- context [foldl (Pool.destroy_one _) ?w0 ?l] =>
    destruct (destroy_each_sets l w0) as (-> & _) end.
  done.
Qed.

(** C7.  [destroy()] never throws.  It rejects the pending promise of every
    queued waiter with "Connection pool is closing"; it disconnects every
    connection of the available list and of the active set whose
    [disconnect()] does not fail; a failing [disconnect()] is reported to
    the logger and does not stop the teardown; afterwards the queue, the
    available list and the active set are empty.  The same holds when the
    pool is empty or has been destroyed before. *)
Theorem destroy_tears_down w :
  (destroy w).2 = Return tt
  ∧ Pool.connectionQueue (Pool.self (destroy w).1) = []
  ∧ Pool.availableConnections (Pool.self (destroy w).1) = []
  ∧ Pool.activeConnections (Pool.self (destroy w).1) = ∅
  ∧ Pool.total (destroy w).1 = 0
  ∧ (∀ p timeout,
       Pool.WaitCallback p timeout ∈ Pool.connectionQueue (Pool.self w) →
       Pool.PromiseResolve p ∉ Pool.connectionQueue (Pool.self w) →
       Pool.promises w !! p = Some Pool.Pending →
       Pool.promises (destroy w).1 !! p =
       Some (Pool.Rejected (OdooConnectionError "Connection pool is closing" None)))
  ∧ (∀ c cl,
       c ∈ Pool.availableConnections (Pool.self w)
       ∨ c ∈ Pool.activeConnections (Pool.self w) →
       disconnect_error c = None →
       Pool.clients w !! c = Some cl →
       ∃ cl', Pool.clients (destroy w).1 !! c = Some cl'
              ∧ OdooClient.connected cl' = false
              ∧ OdooClient.isConnected cl' = false)
  ∧ (∀ c e,
       c ∈ Pool.availableConnections (Pool.self w)
       ∨ c ∈ Pool.activeConnections (Pool.self w) →
       disconnect_error c = Some e →
       (Pool.LogError, "Error disconnecting connection") ∈ Pool.log (destroy w).1)
  ∧ (destroy (destroy w).1).2 = Return tt
  ∧ Pool.connectionQueue (Pool.self (destroy (destroy w).1).1) = []
  ∧ Pool.total (destroy (destroy w).1).1 = 0.
Proof.
  destruct (destroy_clears w) as (Hr & Hq & Hav & Hact & Htot).
  destruct (destroy_clears (destroy w).1) as (Hr' & Hq' & _ & _ & Htot').
  repeat split; try done.
  - intros p timeout Hin Hnot Hp.
    unfold Pool.destroy. simpl.
    rewrite destroy_each_promises. simpl.
    by apply (reject_all_rejects _ _ p timeout).
  - intros c cl Hc Hok Hcl.
    assert (c ∈ Pool.availableConnections (Pool.self w)
                ++ elements (Pool.activeConnections (Pool.self w))) as Hin.
    { apply elem_of_app. rewrite elem_of_elements. done. }
    unfold Pool.destroy. simpl. rewrite !reject_all_self. simpl.
    match goal with |- context [foldl (Pool.destroy_one _) ?w0 ?l] =>
      destruct (destroy_each_disconnects l w0 c cl Hin Hok) as (cl' & Hcl' & Hoff)
    end.
    { simpl. by rewrite reject_all_clients. }
    exists cl'. repeat split; [done..|].
    unfold OdooClient.isConnected. by rewrite Hoff.
  - intros c e Hc Hfail.
    assert (c ∈ Pool.availableConnections (Pool.self w)
                ++ elements (Pool.activeConnections (Pool.self w))) as Hin.
    { apply elem_of_app. rewrite elem_of_elements. done. }
    unfold Pool.destroy. simpl. rewrite !reject_all_self. simpl.
    apply elem_of_app. left.
    by apply (destroy_each_logs_failure _ _ c e).
Qed.

(** ** C3: idle eviction *)

Lemma indexOf_Some {A} `{EqDecision A} (l : list A) x i :
  Pool.indexOf l x = Some i → l !! i = Some x.
Proof.
  unfold Pool.indexOf. intros H.
  apply fmap_Some in H as ([j y] & Hfind & ->).
  apply list_find_Some in Hfind as (Hl & -> & _). done.
Qed.

Lemma indexOf_elem_of {A} `{EqDecision A} (l : list A) x :
  x ∈ l → ∃ i, Pool.indexOf l x = Some i.
Proof.
  intros Hin. unfold Pool.indexOf.
  destruct (list_find_elem_of (λ y, y = x) l x Hin eq_refl) as [[i y] Hfind].
  exists i. by rewrite Hfind.
Qed.

Lemma indexOf_not_elem_of {A} `{EqDecision A} (l : list A) x :
  x ∉ l → Pool.indexOf l x = None.
Proof.
  intros Hnot. unfold Pool.indexOf.
  destruct (list_find _ l) as [[i y]|] eqn:Hfind; [|done].
  apply list_find_Some in Hfind as (Hl & -> & _).
  by apply list_elem_of_lookup_2 in Hl.
Qed.

Lemma self_setIdleTimeout c w : Pool.self (Pool._setIdleTimeout c w) = Pool.self w.
Proof. unfold Pool._setIdleTimeout. by case_decide. Qed.

(** C3, as the code has it.  (1) When an active connection is released and
    nobody waits, it is appended to the available list, and an idle timer
    for it is scheduled exactly if the available list is then longer than
    [minConnections].  (2) When such a timer goes off, the connection is
    destroyed exactly if it is still in the available list: its first
    occurrence is removed and [destroyed] grows by one; the length of the
    list is not looked at again.  If the connection is no longer available,
    the pool is unchanged. *)
Theorem idle_eviction_checks_membership_only w :
  (∀ c,
     c ∈ Pool.activeConnections (Pool.self w) →
     Pool.connectionQueue (Pool.self w) = [] →
     Pool.availableConnections (Pool.self (Pool.release c w)) =
       Pool.availableConnections (Pool.self w) ++ [c]
     ∧ (Pool.minConnections (Pool.self w) <
          S (length (Pool.availableConnections (Pool.self w))) →
        ∃ id, Pool.timers w !! id = None
              ∧ Pool.timers (Pool.release c w) =
                <[id := {| Pool.timer_callback := Pool.IdleTimeout c;
                           Pool.timer_delay := Pool.idleTimeout (Pool.self w);
                           Pool.timer_status := Pool.Scheduled |}]> (Pool.timers w))
     ∧ (¬ Pool.minConnections (Pool.self w) <
            S (length (Pool.availableConnections (Pool.self w))) →
        Pool.timers (Pool.release c w) = Pool.timers w))
  ∧ (∀ id c delay,
       Pool.timers w !! id =
         Some {| Pool.timer_callback := Pool.IdleTimeout c;
                 Pool.timer_delay := delay;
                 Pool.timer_status := Pool.Scheduled |} →
       (c ∈ Pool.availableConnections (Pool.self w) →
        ∃ index,
          Pool.indexOf (Pool.availableConnections (Pool.self w)) c = Some index
          ∧ Pool.availableConnections (Pool.self (fire id w)) =
            delete index (Pool.availableConnections (Pool.self w))
          ∧ S (length (Pool.availableConnections (Pool.self (fire id w)))) =
            length (Pool.availableConnections (Pool.self w))
          ∧ Pool.destroyed (Pool.stats (Pool.self (fire id w))) =
            S (Pool.destroyed (Pool.stats (Pool.self w))))
       ∧ (c ∉ Pool.availableConnections (Pool.self w) →
          Pool.self (fire id w) = Pool.self w
          ∧ Pool.clients (fire id w) = Pool.clients w)).
Proof.
  split.
  - intros c Hc Hq. unfold Pool.release. simpl.
    destruct (decide (c ∉ _)) as [?|_]; [done|]. simpl. rewrite Hq. simpl.
    rewrite self_setIdleTimeout. simpl. split; [done|].
    unfold Pool._setIdleTimeout. simpl. rewrite length_app. simpl.
    rewrite Nat.add_1_r. split; intros Hmin; case_decide; try done.
    simpl. eexists. split; [|done]. apply not_elem_of_dom, is_fresh.
  - intros id c delay Hid. unfold Pool.fire. rewrite Hid. simpl.
    unfold Pool.idle_timeout. simpl. split.
    + intros Hin. destruct (indexOf_elem_of _ _ Hin) as [index Hindex].
      exists index. rewrite Hindex. simpl.
      unfold Pool.disconnect_client. split; [done|].
      destruct (disconnect_error c); simpl; repeat split; try done.
      all: rewrite length_delete by (apply indexOf_Some in Hindex; eauto).
      all: apply indexOf_Some, lookup_lt_Some in Hindex; lia.
    + intros Hnot. by rewrite (indexOf_not_elem_of _ _ Hnot).
Qed.

(** ** C4: [withConnection] *)

(** [release] never changes the number of tracked connections. *)
Lemma release_total c w : Pool.total (Pool.release c w) = Pool.total w.
Proof.
  unfold Pool.total, Pool.release. simpl.
  destruct (decide (c ∉ _)) as [Hnot|Hin]; [done|]. simpl.
  apply dec_stable in Hin.
  destruct (Pool.connectionQueue (Pool.self w)) as [|cb rest]; simpl.
  - rewrite self_setIdleTimeout. simpl.
    rewrite length_app, size_difference by (by apply singleton_subseteq_l).
    rewrite size_singleton. simpl.
    assert (size (Pool.activeConnections (Pool.self w)) ≠ 0).
    { intros Hz. apply size_empty_inv in Hz. apply leibniz_equiv in Hz.
      rewrite Hz in Hin. by apply not_elem_of_empty in Hin. }
    lia.
  - rewrite self_call. simpl. by rewrite remove_then_add.
Qed.

Lemma release_counts c w :
  Pool.released (Pool.stats (Pool.self (Pool.release c w))) =
  S (Pool.released (Pool.stats (Pool.self w))).
Proof.
  unfold Pool.release. simpl.
  destruct (decide (c ∉ _)); [done|]. simpl.
  destruct (Pool.connectionQueue (Pool.self w)); simpl.
  - by rewrite self_setIdleTimeout.
  - by rewrite self_call.
Qed.

(** Taking a connection from the available list. *)
Lemma acquire_reuse c rest w :
  Pool.availableConnections (Pool.self w) = c :: rest →
  (acquire w).2 = Pool.Settled (Return c)
  ∧ Pool.availableConnections (Pool.self (acquire w).1) = rest
  ∧ Pool.activeConnections (Pool.self (acquire w).1) =
    Pool.activeConnections (Pool.self w) ∪ {[c]}.
Proof. intros Hav. unfold Pool.acquire. simpl. by rewrite Hav. Qed.

(** [acquire()] releases nothing. *)
Lemma acquire_released w :
  Pool.released (Pool.stats (Pool.self (acquire w).1)) =
  Pool.released (Pool.stats (Pool.self w)).
Proof.
  unfold Pool.acquire. simpl.
  destruct (Pool.availableConnections (Pool.self w)); simpl; [|done].
  destruct (decide _); simpl; [|done].
  destruct (createConnection_frame (Pool.on_self Pool.incr_acquired w))
    as (_ & _ & _ & Hr & _).
  destruct (Pool._createConnection _ _ _ _) as [w1 [c|e]]; simpl in *; by rewrite Hr.
Qed.

(** C4, as the code has it.  [acquire()] delivers a connection at once, or
    fails, or waits in the queue and is served or turned away later.
    (1) When it delivers a connection at once, [withConnection(fn)] runs
    [fn] and then [release(connection)], whether [fn] returned or threw, and
    only then passes on the result of [fn]; the release adds one to
    [released] and leaves the number of tracked connections as [fn] left
    it.  (2) When it fails, its error is passed on and nothing is released.
    (3) When it has to wait, so does [withConnection(fn)], and nothing is
    released.  (4) A call that waited and is given a connection goes on as
    in (1): [fn], then the release, then the result.  (5) A call that
    waited and is turned away passes the error on; [fn] is not run and
    nothing changes.  (6) While its promise is pending the call goes on
    waiting.  (7) When the connection was taken from the available list,
    was not in the active set, and [fn] itself leaves the number of tracked
    connections alone, available plus active is the same after the call as
    before it. *)
Theorem withConnection_releases {R : Type}
    (fn : nat → Pool.World num → Pool.World num * Completion R) w :
  (∀ w1 c w2 result,
     acquire w = (w1, Pool.Settled (Return c)) →
     fn c w1 = (w2, result) →
     Pool.withConnection mul pow transport fn w =
       (Pool.release c w2, Pool.Settled result)
     ∧ Pool.released (Pool.stats (Pool.self (Pool.release c w2))) =
       S (Pool.released (Pool.stats (Pool.self w2)))
     ∧ Pool.total (Pool.release c w2) = Pool.total w2)
  ∧ (∀ w1 e,
       acquire w = (w1, Pool.Settled (Throw e)) →
       Pool.withConnection mul pow transport fn w = (w1, Pool.Settled (Throw e))
       ∧ Pool.released (Pool.stats (Pool.self w1)) =
         Pool.released (Pool.stats (Pool.self w)))
  ∧ (∀ w1 p,
       acquire w = (w1, Pool.Awaiting p) →
       Pool.withConnection mul pow transport fn w = (w1, Pool.Awaiting p)
       ∧ Pool.released (Pool.stats (Pool.self w1)) =
         Pool.released (Pool.stats (Pool.self w)))
  ∧ (∀ p later c w2 result,
       Pool.promises later !! p = Some (Pool.Resolved (Some c)) →
       fn c later = (w2, result) →
       Pool.withConnection_resume fn p later =
         (Pool.release c w2, Pool.Settled result)
       ∧ Pool.released (Pool.stats (Pool.self (Pool.release c w2))) =
         S (Pool.released (Pool.stats (Pool.self w2)))
       ∧ Pool.total (Pool.release c w2) = Pool.total w2)
  ∧ (∀ p later e,
       Pool.promises later !! p = Some (Pool.Rejected e) →
       Pool.withConnection_resume fn p later = (later, Pool.Settled (Throw e)))
  ∧ (∀ p later,
       Pool.promises later !! p = Some Pool.Pending →
       Pool.withConnection_resume fn p later = (later, Pool.Awaiting p))
  ∧ (∀ c rest,
       Pool.availableConnections (Pool.self w) = c :: rest →
       c ∉ Pool.activeConnections (Pool.self w) →
       Pool.total (fn c (acquire w).1).1 = Pool.total (acquire w).1 →
       Pool.total (Pool.withConnection mul pow transport fn w).1 = Pool.total w).
Proof.
  split; [|split; [|split; [|split; [|split; [|split]]]]].
  - intros w1 c w2 result Hacq Hfn.
    unfold Pool.withConnection, Pool.use_connection. rewrite Hacq, Hfn.
    by rewrite release_counts, release_total.
  - intros w1 e Hacq. unfold Pool.withConnection. rewrite Hacq.
    split; [done|]. by rewrite <- (acquire_released w), Hacq.
  - intros w1 p Hacq. unfold Pool.withConnection. rewrite Hacq.
    split; [done|]. by rewrite <- (acquire_released w), Hacq.
  - intros p later c w2 result Hp Hfn.
    unfold Pool.withConnection_resume, Pool.use_connection. rewrite Hp, Hfn.
    by rewrite release_counts, release_total.
  - intros p later e Hp. unfold Pool.withConnection_resume. by rewrite Hp.
  - intros p later Hp. unfold Pool.withConnection_resume. by rewrite Hp.
  - intros c rest Hav Hc Hfn.
    destruct (acquire_reuse c rest w Hav) as (Hres & Hav1 & Hact1).
    unfold Pool.withConnection, Pool.use_connection.
    destruct (acquire w) as [w1 r] eqn:Hacq. simpl in *. subst r.
    destruct (fn c w1) as [w2 result] eqn:Hfn2. simpl in *.
    rewrite release_total, Hfn. unfold Pool.total.
    rewrite Hav1, Hact1, Hav. simpl.
    rewrite size_union by (by apply disjoint_singleton_r).
    rewrite size_singleton. lia.
Qed.

(** ** C1 and C2: what goes wrong *)

(** A connection created by [acquire()] is put on the available list by
    [_createConnection] and into the active set by [acquire]. *)
Lemma acquire_creates_into_both w w1 c :
  Pool.availableConnections (Pool.self w) = [] →
  size (Pool.activeConnections (Pool.self w)) < Pool.maxConnections (Pool.self w) →
  _createConnection (Pool.on_self Pool.incr_acquired w) = (w1, Return c) →
  (acquire w).2 = Pool.Settled (Return c)
  ∧ c ∈ Pool.availableConnections (Pool.self (acquire w).1)
  ∧ c ∈ Pool.activeConnections (Pool.self (acquire w).1).
Proof.
  intros Hav Hlt Hcreate. unfold Pool.acquire. simpl. rewrite Hav.
  destruct (decide _) as [_|?]; [|done].
  destruct (createConnection_returns _ _ _ Hcreate) as (_ & Hav1 & _).
  rewrite Hcreate. simpl. rewrite Hav1. simpl. rewrite Hav.
  repeat split.
  - apply list_elem_of_singleton. done.
  - apply elem_of_union_r, elem_of_singleton. done.
Qed.

(** The queue only ever receives [WaitCallback]s, and the timeout of a
    waiter looks for the [resolve] function of its promise: it finds
    nothing and removes nothing. *)
Lemma wait_timeout_keeps_queue p w :
  Forall (λ cb, ∃ q timeout, cb = Pool.WaitCallback q timeout)
         (Pool.connectionQueue (Pool.self w)) →
  Pool.connectionQueue (Pool.self (Pool.wait_timeout p w)) =
  Pool.connectionQueue (Pool.self w).
Proof.
  intros Hq. unfold Pool.wait_timeout.
  rewrite indexOf_not_elem_of; [by rewrite self_settle|].
  intros Hin. rewrite Forall_forall in Hq.
  destruct (Hq _ Hin) as (q & timeout & ?). done.
Qed.

End PoolFacts.

(** * The logins of [initialize()] *)

Section Logins.
Context {num : Type}.
Variable mul : num → num → num.
Variable pow : num → nat → num.
Variable transport : nat → nat → JSError + nat.
Variable login_order : list nat → nat.
Implicit Types (w : Pool.World num) (c : nat) (pending : list nat).

Local Abbreviation finish_connection := (Pool.finish_connection mul pow transport).
Local Abbreviation next_login := (Pool.next_login login_order).
Local Abbreviation await_all := (Pool.await_all mul pow transport login_order).
Local Abbreviation settle_logins :=
  (Pool.settle_logins mul pow transport login_order).
Local Abbreviation initialize_in_flight :=
  (Pool.initialize_in_flight mul pow transport login_order).
Local Abbreviation initialize_settled :=
  (Pool.initialize_settled mul pow transport login_order).
Local Abbreviation settling := (PoolApi.settling login_order).
Local Abbreviation accepted r := (PoolApi.login_accepted mul pow transport r).
Local Abbreviation online u :=
  ({| OdooClient.odoo := true; OdooClient.uid := Some u;
      OdooClient.connected := true |}).
Local Abbreviation created_world c client w :=
  (Pool.logger Pool.Debug "Created new connection"
     (Pool.on_self
        (λ s, Pool.set_available (Pool.availableConnections s ++ [c]) s)
        (Pool.on_self Pool.incr_created
           (Pool.set_clients (<[c := client]> (Pool.clients w)) w)))).
Local Abbreviation failed_world c client w :=
  (Pool.logger Pool.LogError "Failed to create connection"
     (Pool.set_clients (<[c := client]> (Pool.clients w)) w)).

(** ** The two parts of [_createConnection()] *)

(** Run one after the other, they are [_createConnection()]. *)
Lemma createConnection_parts w :
  Pool._createConnection mul pow transport w =
  finish_connection (Pool.start_connection w).2 (Pool.start_connection w).1.
Proof using Type.
  unfold Pool._createConnection, Pool.finish_connection, Pool.start_connection.
  simpl.
  destruct (OdooClient.connect _ _ _ _ _) as [client [[]|e]]; simpl;
    by rewrite insert_insert_eq.
Qed.

(** The two ways a login can end. *)
Lemma finish_connection_cases c w :
  (∃ client, finish_connection c w = (created_world c client w, Return c))
  ∨ (∃ client cause,
       finish_connection c w =
       (failed_world c client w,
        Throw (OdooConnectionError "Failed to create connection" (Some cause)))).
Proof using Type.
  unfold Pool.finish_connection.
  destruct (OdooClient.connect _ _ _ _ _) as [client [[]|e]]; simpl; eauto.
Qed.

Lemma finish_connection_accepted r c w :
  Pool.retry (Pool.config (Pool.self w)) = r →
  accepted r c = true →
  ∃ u, finish_connection c w = (created_world c (online u) w, Return c).
Proof using Type.
  intros <-. unfold PoolApi.login_accepted, Pool.finish_connection,
    OdooClient.connect. simpl.
  destruct (OdooClient._authenticateWithRetry _ _ _ _).2 as [u|e]; [|done].
  intros _. by exists u.
Qed.

Lemma finish_connection_refused r c w :
  Pool.retry (Pool.config (Pool.self w)) = r →
  accepted r c = false →
  ∃ cause,
    finish_connection c w =
    (failed_world c (OdooClient.connect_begin OdooClient.new) w,
     Throw (OdooConnectionError "Failed to create connection"
              (Some (OdooConnectionError "Failed to connect to Odoo"
                       (Some cause))))).
Proof using Type.
  intros <-. unfold PoolApi.login_accepted, Pool.finish_connection,
    OdooClient.connect. simpl.
  destruct (OdooClient._authenticateWithRetry _ _ _ _).2 as [u|e]; [done|].
  intros _. by exists e.
Qed.

(** ** The login that settles next *)

Lemma next_login_Some pending c pending' :
  next_login pending = Some (c, pending') →
  ∃ i, pending !! i = Some c ∧ pending' = delete i pending.
Proof using Type.
  unfold Pool.next_login. intros Hnext.
  destruct (pending !! _) as [c'|] eqn:Hi; simpl in Hnext; [|done].
  injection Hnext as <- <-. eauto.
Qed.

Lemma next_login_None pending : next_login pending = None → pending = [].
Proof using Type.
  unfold Pool.next_login. destruct pending as [|c0 pending]; [done|].
  intros Hnext.
  destruct ((c0 :: pending) !! _) as [c'|] eqn:Hi; simpl in Hnext; [done|].
  apply lookup_ge_None in Hi.
  pose proof (Nat.mod_upper_bound (login_order (c0 :: pending))
                                  (length (c0 :: pending))) as Hlt.
  simpl in *. lia.
Qed.

Lemma next_login_length pending c pending' :
  next_login pending = Some (c, pending') →
  length pending = S (length pending') ∧ pending ≡ₚ c :: pending'.
Proof using Type.
  intros Hnext. apply next_login_Some in Hnext as (i & Hi & ->).
  split; [|by apply delete_Permutation].
  rewrite length_delete by eauto.
  apply lookup_lt_Some in Hi. lia.
Qed.

(** Every login in flight settles, each once. *)
Lemma settling_Permutation n : ∀ pending,
  length pending = n → settling n pending ≡ₚ pending.
Proof using Type.
  induction n as [|n IH]; intros pending Hlen; simpl.
  - by apply nil_length_inv in Hlen as ->.
  - destruct (next_login pending) as [[c pending']|] eqn:Hnext.
    + destruct (next_login_length _ _ _ Hnext) as [Hlen' Hperm].
      rewrite Hperm. f_equiv. apply IH. lia.
    + by apply next_login_None in Hnext as ->.
Qed.

(** ** What [initialize()] keeps *)

Section Invariant.
Variable P : Pool.World num → Prop.
Hypothesis P_logger : ∀ l message w, P w → P (Pool.logger l message w).
Hypothesis P_start : ∀ w, P w → P (Pool.start_connection w).1.
Hypothesis P_finish : ∀ c w, P w → P (finish_connection c w).1.

Lemma start_connections_invariant n : ∀ w,
  P w → P (Pool.start_connections n w).1.
Proof using P_start.
  induction n as [|n IH]; intros w Hw; simpl; [done|].
  specialize (IH _ (P_start w Hw)).
  destruct (Pool.start_connections n _) as [w' cs]. done.
Qed.

Lemma await_all_invariant n : ∀ pending w,
  P w → P (await_all n pending w).1.1.
Proof using P_finish.
  induction n as [|n IH]; intros pending w Hw; simpl; [done|].
  destruct (next_login pending) as [[c pending']|]; [|done].
  pose proof (P_finish c w Hw) as Hc.
  destruct (finish_connection c w) as [w' [c'|e]]; simpl in *; [|done].
  by apply IH.
Qed.

Lemma settle_logins_invariant n : ∀ pending w,
  P w → P (settle_logins n pending w).
Proof using P_finish.
  induction n as [|n IH]; intros pending w Hw; simpl; [done|].
  destruct (next_login pending) as [[c pending']|]; [|done].
  by apply IH, P_finish.
Qed.

(** A property of the pool that the logger and the two parts of
    [_createConnection()] keep holds when [initialize()] returns or throws,
    and still holds when the last login has settled. *)
Lemma initialize_invariant w :
  P w → P (initialize_in_flight w).1.1 ∧ P (initialize_settled w).
Proof using P_logger P_start P_finish.
  intros Hw. unfold Pool.initialize_settled, Pool.initialize_in_flight.
  pose proof (start_connections_invariant
                (Pool.minConnections (Pool.self w))
                (Pool.logger Pool.Info
                   "Initializing connection pool with minimum connections" w)
                (P_logger _ _ _ Hw)) as Hstarted.
  simpl in *.
  destruct (Pool.start_connections _ _) as [w1 promises]. simpl in *.
  pose proof (await_all_invariant (length promises) promises w1 Hstarted)
    as Hawaited.
  destruct (await_all _ _ _) as [[w2 [[]|e]] pending]; simpl in *.
  - split; [by apply P_logger|].
    by apply settle_logins_invariant, P_logger.
  - split; [done|]. by apply settle_logins_invariant.
Qed.
End Invariant.

(** What a login leaves alone when it settles. *)
Lemma finish_connection_frame c w :
  let w' := (finish_connection c w).1 in
  Pool.connectionQueue (Pool.self w') = Pool.connectionQueue (Pool.self w)
  ∧ Pool.activeConnections (Pool.self w') = Pool.activeConnections (Pool.self w)
  ∧ Pool.acquired (Pool.stats (Pool.self w')) = Pool.acquired (Pool.stats (Pool.self w))
  ∧ Pool.released (Pool.stats (Pool.self w')) = Pool.released (Pool.stats (Pool.self w))
  ∧ Pool.promises w' = Pool.promises w
  ∧ Pool.timers w' = Pool.timers w.
Proof using Type.
  destruct (finish_connection_cases c w) as [[client ->]|(client & cause & ->)];
    by repeat split.
Qed.

(** [initialize()] and its logins touch neither the queue nor the active
    set, neither [acquired] nor [released], neither promises nor timers. *)
Lemma initialize_frame w :
  ∀ w', w' = (initialize_in_flight w).1.1 ∨ w' = initialize_settled w →
  Pool.connectionQueue (Pool.self w') = Pool.connectionQueue (Pool.self w)
  ∧ Pool.activeConnections (Pool.self w') = Pool.activeConnections (Pool.self w)
  ∧ Pool.acquired (Pool.stats (Pool.self w')) = Pool.acquired (Pool.stats (Pool.self w))
  ∧ Pool.released (Pool.stats (Pool.self w')) = Pool.released (Pool.stats (Pool.self w))
  ∧ Pool.promises w' = Pool.promises w
  ∧ Pool.timers w' = Pool.timers w.
Proof using Type.
  set (Q := λ w' : Pool.World num,
         Pool.connectionQueue (Pool.self w') = Pool.connectionQueue (Pool.self w)
         ∧ Pool.activeConnections (Pool.self w') =
           Pool.activeConnections (Pool.self w)
         ∧ Pool.acquired (Pool.stats (Pool.self w')) =
           Pool.acquired (Pool.stats (Pool.self w))
         ∧ Pool.released (Pool.stats (Pool.self w')) =
           Pool.released (Pool.stats (Pool.self w))
         ∧ Pool.promises w' = Pool.promises w
         ∧ Pool.timers w' = Pool.timers w).
  assert (Q (initialize_in_flight w).1.1 ∧ Q (initialize_settled w))
    as [Hthrown Hsettled].
  { apply initialize_invariant; unfold Q.
    - intros l message w0 H. exact H.
    - intros w0 H. exact H.
    - intros c w0 (Hq & Ha & Hacq & Hrel & Hp & Ht).
      destruct (finish_connection_frame c w0) as (-> & -> & -> & -> & -> & ->).
      done.
    - done. }
  intros w' [->| ->]; done.
Qed.

(** ** What [initialize()] does *)

(** The loop puts one new client object per call into the heap and touches
    nothing else; the objects are new and different from each other. *)
Lemma start_connections_spec n : ∀ w,
  (Pool.start_connections n w).2 = fresh_list n (dom (Pool.clients w))
  ∧ Pool.self (Pool.start_connections n w).1 = Pool.self w
  ∧ (∀ c, c ∉ fresh_list n (dom (Pool.clients w)) →
       Pool.clients (Pool.start_connections n w).1 !! c = Pool.clients w !! c).
Proof using Type.
  induction n as [|n IH]; intros w; simpl; [done|].
  destruct (IH (Pool.start_connection w).1) as (Hcs & Hself & Hold).
  unfold Pool.start_connection in *. simpl in *.
  rewrite dom_insert_L in Hcs, Hold.
  destruct (Pool.start_connections n _) as [w' cs]. simpl in *.
  split; [by rewrite Hcs|]. split; [done|].
  intros c Hc. apply not_elem_of_cons in Hc as [Hne Hc].
  rewrite Hold by done. by rewrite lookup_insert_ne.
Qed.

(** While every login that settles is let in, [Promise.all] goes on
    waiting; when the last one is in, it is fulfilled.  The connections are
    on the available list in the order in which they settled. *)
Lemma await_all_accepted r n : ∀ pending w,
  length pending = n →
  Pool.retry (Pool.config (Pool.self w)) = r →
  Forall (λ c, accepted r c = true) (settling n pending) →
  ∃ w',
    await_all n pending w = (w', Return tt, [])
    ∧ Pool.availableConnections (Pool.self w') =
      Pool.availableConnections (Pool.self w) ++ settling n pending
    ∧ Pool.created (Pool.stats (Pool.self w')) =
      Pool.created (Pool.stats (Pool.self w)) + n
    ∧ (∀ c, c ∈ pending → ∃ u, Pool.clients w' !! c = Some (online u))
    ∧ (∀ c, c ∉ pending → Pool.clients w' !! c = Pool.clients w !! c)
    ∧ Pool.minConnections (Pool.self w') = Pool.minConnections (Pool.self w).
Proof using Type.
  induction n as [|n IH]; intros pending w Hlen Hr Hall; simpl in *.
  - apply nil_length_inv in Hlen as ->. exists w.
    rewrite app_nil_r, Nat.add_0_r. repeat split; try done.
    intros c Hc. by apply elem_of_nil in Hc.
  - destruct (next_login pending) as [[c0 pending']|] eqn:Hnext.
    2: { apply next_login_None in Hnext as ->. done. }
    destruct (next_login_length _ _ _ Hnext) as [Hlen' Hperm].
    apply Forall_cons in Hall as [Hc0 Hall].
    destruct (finish_connection_accepted r c0 w Hr Hc0) as [u ->].
    destruct (IH pending' (created_world c0 (online u) w))
      as (w' & Hrun & Hav & Hcr & Hnew & Hold & Hmin); [lia|done|done|].
    exists w'. simpl in *. rewrite Hrun, Hav, Hcr, <- app_assoc. simpl.
    repeat split; try done; try lia.
    + intros c Hc. destruct (decide (c ∈ pending')) as [Hin|Hnot]; [eauto|].
      rewrite Hperm in Hc. apply elem_of_cons in Hc as [->|Hc]; [|done].
      exists u. rewrite Hold by done. by rewrite lookup_insert_eq.
    + intros c Hc. rewrite Hperm in Hc. apply not_elem_of_cons in Hc as [Hne Hc].
      rewrite Hold by done. by rewrite lookup_insert_ne.
Qed.

(** The first login that is refused makes [Promise.all] reject: that is
    the moment at which [initialize()] throws.  The connections that
    settled before are on the available list, and the others are still in
    flight. *)
Lemma await_all_refused r n : ∀ pending w pre c post,
  length pending = n →
  Pool.retry (Pool.config (Pool.self w)) = r →
  settling n pending = pre ++ c :: post →
  Forall (λ c, accepted r c = true) pre →
  accepted r c = false →
  ∃ w' cause remaining,
    await_all n pending w =
    (w', Throw (OdooConnectionError "Failed to create connection" (Some cause)),
     remaining)
    ∧ settling (length remaining) remaining = post
    ∧ Pool.availableConnections (Pool.self w') =
      Pool.availableConnections (Pool.self w) ++ pre
    ∧ Pool.created (Pool.stats (Pool.self w')) =
      Pool.created (Pool.stats (Pool.self w)) + length pre
    ∧ Pool.retry (Pool.config (Pool.self w')) = r.
Proof using Type.
  induction n as [|n IH]; intros pending w pre c post Hlen Hr Horder Hpre Hc;
    simpl in *.
  - by destruct pre.
  - destruct (next_login pending) as [[c0 pending']|] eqn:Hnext.
    2: { by destruct pre. }
    destruct (next_login_length _ _ _ Hnext) as [Hlen' _].
    destruct pre as [|x pre]; simpl in Horder; injection Horder as -> Hrest.
    + destruct (finish_connection_refused r c w Hr Hc) as [cause ->].
      eexists _, _, pending'. split; [done|].
      assert (length pending' = n) as -> by lia.
      simpl. rewrite app_nil_r, Nat.add_0_r. done.
    + apply Forall_cons in Hpre as [Hx Hpre].
      destruct (finish_connection_accepted r x w Hr Hx) as [u ->].
      destruct (IH pending' (created_world x (online u) w) pre c post)
        as (w' & cause & remaining & Hrun & Hpost & Hav & Hcr & Hr');
        [lia|done|done|done|done|].
      exists w', cause, remaining. simpl in *.
      rewrite Hrun, Hav, Hcr, <- app_assoc. simpl.
      repeat split; try done; lia.
Qed.

(** Logins that settle after [initialize()] has thrown still put their
    connections on the available list. *)
Lemma settle_logins_spec r n : ∀ pending w,
  length pending = n →
  Pool.retry (Pool.config (Pool.self w)) = r →
  Pool.availableConnections (Pool.self (settle_logins n pending w)) =
    Pool.availableConnections (Pool.self w)
    ++ List.filter (accepted r) (settling n pending)
  ∧ Pool.created (Pool.stats (Pool.self (settle_logins n pending w))) =
    Pool.created (Pool.stats (Pool.self w))
    + length (List.filter (accepted r) (settling n pending)).
Proof using Type.
  induction n as [|n IH]; intros pending w Hlen Hr; simpl.
  - by rewrite app_nil_r, Nat.add_0_r.
  - destruct (next_login pending) as [[c0 pending']|] eqn:Hnext.
    2: { simpl. by rewrite app_nil_r, Nat.add_0_r. }
    destruct (next_login_length _ _ _ Hnext) as [Hlen' _]. simpl.
    destruct (accepted r c0) eqn:Hc0.
    + destruct (finish_connection_accepted r c0 w Hr Hc0) as [u ->].
      destruct (IH pending' (created_world c0 (online u) w)) as [Hav Hcr];
        [lia|done|].
      simpl in *. rewrite Hav, Hcr, <- app_assoc. split; [done|lia].
    + destruct (finish_connection_refused r c0 w Hr Hc0) as [cause ->].
      destruct (IH pending' (failed_world c0
                  (OdooClient.connect_begin OdooClient.new) w)) as [Hav Hcr];
        [lia|done|].
      simpl in *. by rewrite Hav, Hcr.
Qed.

End Logins.

(** * Histories: what holds in every state the pool can reach *)

Section Reachable.
Context {num : Type}.
Variable mul : num → num → num.
Variable pow : num → nat → num.
Variable transport : nat → nat → JSError + nat.
Variable login_order : list nat → nat.
Variable disconnect_error : nat → option JSError.

Local Abbreviation step :=
  (Pool.step mul pow transport login_order disconnect_error).
Local Abbreviation run :=
  (Pool.run mul pow transport login_order disconnect_error).
Local Abbreviation waiters_only :=
  (Forall (λ cb, ∃ q timeout, cb = Pool.WaitCallback q timeout)).

Lemma release_queue c (w : Pool.World num) :
  Pool.connectionQueue (Pool.self (Pool.release c w)) =
    Pool.connectionQueue (Pool.self w)
  ∨ ∃ cb, Pool.connectionQueue (Pool.self w) =
          cb :: Pool.connectionQueue (Pool.self (Pool.release c w)).
Proof.
  unfold Pool.release. simpl.
  destruct (decide (c ∉ _)); [by left|]. simpl.
  destruct (Pool.connectionQueue (Pool.self w)) as [|cb rest] eqn:Hq; simpl.
  - left. by rewrite self_setIdleTimeout.
  - right. exists cb. by rewrite self_call.
Qed.

Lemma acquire_queue (w : Pool.World num) :
  Pool.connectionQueue (Pool.self (Pool.acquire mul pow transport w).1) =
    Pool.connectionQueue (Pool.self w)
  ∨ ∃ p timeout,
      Pool.connectionQueue (Pool.self (Pool.acquire mul pow transport w).1) =
      Pool.connectionQueue (Pool.self w) ++ [Pool.WaitCallback p timeout].
Proof.
  unfold Pool.acquire. simpl.
  destruct (Pool.availableConnections (Pool.self w)) as [|c rest]; [|by left].
  destruct (decide _) as [Hlt|Hge]; [|right; simpl; eauto].
  left.
  destruct (createConnection_frame mul pow transport
              (Pool.on_self Pool.incr_acquired w)) as (Hq & _).
  destruct (Pool._createConnection _ _ _ _) as [w' [c|e]]; simpl in *; by rewrite Hq.
Qed.

Lemma initialize_queue (w : Pool.World num) :
  Pool.connectionQueue
    (Pool.self (Pool.initialize_settled mul pow transport login_order w)) =
  Pool.connectionQueue (Pool.self w).
Proof.
  destruct (initialize_frame mul pow transport login_order w
              (Pool.initialize_settled mul pow transport login_order w))
    as (Hq & _); [by right|done].
Qed.

Lemma fire_queue id (w : Pool.World num) :
  waiters_only (Pool.connectionQueue (Pool.self w)) →
  Pool.connectionQueue (Pool.self (Pool.fire disconnect_error id w)) =
  Pool.connectionQueue (Pool.self w).
Proof.
  intros Hq. unfold Pool.fire.
  destruct (Pool.timers w !! id) as [[cb d []]|]; try done.
  destruct cb as [p|c].
  - by rewrite wait_timeout_keeps_queue.
  - unfold Pool.idle_timeout, Pool.disconnect_client. simpl.
    destruct (Pool.indexOf _ c); [|done].
    by destruct (disconnect_error c).
Qed.

Lemma step_waiters_only (w : Pool.World num) op :
  waiters_only (Pool.connectionQueue (Pool.self w)) →
  waiters_only (Pool.connectionQueue (Pool.self (step w op))).
Proof.
  intros Hq. destruct op as [| |c|id|]; unfold Pool.step.
  - by rewrite initialize_queue.
  - destruct (acquire_queue w) as [->|(p & timeout & ->)]; [done|].
    apply Forall_app. split; [done|]. apply Forall_singleton. eauto.
  - destruct (release_queue c w) as [->|[cb Hcb]]; [done|].
    rewrite Hcb in Hq. by apply Forall_cons in Hq as [_ ?].
  - by rewrite fire_queue.
  - destruct (destroy_clears disconnect_error w) as (_ & -> & _). done.
Qed.

(** Whatever has happened to a pool since it was constructed, its queue
    holds [WaitCallback]s only. *)
Lemma run_waiters_only history : ∀ w : Pool.World num,
  waiters_only (Pool.connectionQueue (Pool.self w)) →
  waiters_only (Pool.connectionQueue (Pool.self (run history w))).
Proof.
  induction history as [|op history IH]; intros w Hq; simpl; [done|].
  by apply IH, step_waiters_only.
Qed.

(** In every state a pool can reach, a waiter's timeout rejects the pending
    promise with the timeout error and leaves the queue as it is: the
    callback of the waiter stays queued. *)
Lemma timeout_never_dequeues history (cfg : Pool.Config num) id p delay :
  let w := run history (Pool.new cfg) in
  Pool.timers w !! id =
    Some {| Pool.timer_callback := Pool.WaitTimeout p;
            Pool.timer_delay := delay;
            Pool.timer_status := Pool.Scheduled |} →
  Pool.connectionQueue (Pool.self (Pool.fire disconnect_error id w)) =
    Pool.connectionQueue (Pool.self w)
  ∧ (Pool.promises w !! p = Some Pool.Pending →
     Pool.promises (Pool.fire disconnect_error id w) !! p =
     Some (Pool.Rejected (OdooConnectionError
                            "Timeout waiting for available connection" None))).
Proof.
  intros w Hid.
  assert (waiters_only (Pool.connectionQueue (Pool.self w))) as Hq.
  { apply run_waiters_only. simpl. constructor. }
  split; [by apply fire_queue|].
  intros Hp. unfold Pool.fire. rewrite Hid. unfold Pool.wait_timeout. simpl.
  rewrite indexOf_not_elem_of.
  - rewrite settle_pending by done. by rewrite lookup_insert_eq.
  - intros Hin. rewrite Forall_forall in Hq.
    destruct (Hq _ Hin) as (q & timeout & ?). done.
Qed.
End Reachable.

(** * The pool at work: concrete histories *)

(** C1.  "Available plus active never exceeds [maxConnections], and no
    connection is in both" does not hold of the code: on a new pool with
    [max = 1], a single [acquire()] creates connection 0, which
    [_createConnection] pushes on the available list and [acquire] adds to
    the active set.  The connection is then in both, and available plus
    active is 2. *)
Theorem acquire_puts_new_connection_in_both_sets :
  let w := Scenario.run [Pool.Acquire] (Pool.new (Scenario.config 2 1)) in
  (Scenario.acquire (Pool.new (Scenario.config 2 1))).2 = Pool.Settled (Return 0)
  ∧ Pool.availableConnections (Pool.self w) = [0]
  ∧ Pool.activeConnections (Pool.self w) = {[0]}
  ∧ Pool.maxConnections (Pool.self w) = 1
  ∧ Pool.total w = 2.
Proof. vm_compute. repeat split. Qed.

(** C2.  The timeout of a queued [acquire()] rejects its promise with
    "Timeout waiting for available connection", but the callback of the
    waiter is still in the queue afterwards: on a pool with [max = 1] the
    third [acquire()] is queued; after its timer has gone off the queue
    still holds its callback, and the next [release] hands the connection
    to that dead waiter. *)
Theorem wait_timeout_leaves_ticket_in_queue :
  let w := Scenario.run [Pool.Acquire; Pool.Acquire; Pool.Acquire]
                        (Pool.new (Scenario.config 2 1)) in
  let w' := Scenario.run [Pool.Fire 0] w in
  Pool.connectionQueue (Pool.self w) = [Pool.WaitCallback 0 0]
  ∧ Pool.timers w !! 0 =
    Some {| Pool.timer_callback := Pool.WaitTimeout 0;
            Pool.timer_delay := 100;
            Pool.timer_status := Pool.Scheduled |}
  ∧ Pool.promises w !! 0 = Some Pool.Pending
  ∧ Pool.promises w' !! 0 =
    Some (Pool.Rejected (OdooConnectionError
                           "Timeout waiting for available connection" None))
  ∧ Pool.connectionQueue (Pool.self w') = [Pool.WaitCallback 0 0]
  ∧ Pool.connectionQueue (Pool.self (Scenario.run [Pool.Release 0] w')) = []
  ∧ Pool.availableConnections (Pool.self (Scenario.run [Pool.Release 0] w')) = []
  ∧ Pool.activeConnections (Pool.self (Scenario.run [Pool.Release 0] w')) = {[0]}.
Proof. vm_compute. repeat split. Qed.

(** C5.  "A released connection is handed to the oldest waiter, and
    waiters are served in the order of their calls" does not hold of the
    code.  On an initialized pool with [min = max = 1] the connection is
    handed out and two more requests are queued.  The timer of the first
    waiter goes off: its promise is rejected, and its callback stays in the
    queue (C2).  Then [release(0)] takes that callback from the head of the
    queue and calls it, which settles nothing.  The second waiter is not
    served; connection 0 stays in the active set, is not available, and
    has been given to nobody; and the second waiter times out in turn. *)
Theorem release_hands_connection_to_timed_out_waiter :
  let w := Scenario.run [Pool.Initialize; Pool.Acquire; Pool.Acquire; Pool.Acquire;
                         Pool.Fire 0]
                        (Pool.new (Scenario.config 1 1)) in
  let w' := Scenario.run [Pool.Release 0] w in
  Pool.connectionQueue (Pool.self w) = [Pool.WaitCallback 0 0; Pool.WaitCallback 1 1]
  ∧ Pool.activeConnections (Pool.self w) = {[0]}
  ∧ Pool.promises w !! 0 =
    Some (Pool.Rejected (OdooConnectionError
                           "Timeout waiting for available connection" None))
  ∧ Pool.promises w !! 1 = Some Pool.Pending
  ∧ Pool.connectionQueue (Pool.self w') = [Pool.WaitCallback 1 1]
  ∧ Pool.promises w' = Pool.promises w
  ∧ Pool.activeConnections (Pool.self w') = {[0]}
  ∧ Pool.availableConnections (Pool.self w') = []
  ∧ Pool.promises (Scenario.run [Pool.Fire 1] w') !! 1 =
    Some (Pool.Rejected (OdooConnectionError
                           "Timeout waiting for available connection" None)).
Proof. vm_compute. repeat split. Qed.

(** C3 as stated fails.  With [min = 1]: connection 0 is released while
    connection 1 is available, so that an idle timer is set for it; then
    connection 1 is acquired again.  When the timer goes off the available
    list holds connection 0 only, which is not more than [min], and yet the
    connection is destroyed and the list becomes empty. *)
Lemma idle_eviction_below_floor :
  let w := Scenario.run [Pool.Acquire; Pool.Acquire; Pool.Acquire;
                         Pool.Release 0; Pool.Acquire]
                        (Pool.new (Scenario.config 1 5)) in
  ¬ (∀ id c delay,
       Pool.timers w !! id =
         Some {| Pool.timer_callback := Pool.IdleTimeout c;
                 Pool.timer_delay := delay;
                 Pool.timer_status := Pool.Scheduled |} →
       let w' := Pool.fire Scenario.disconnect_ok id w in
       Pool.destroyed (Pool.stats (Pool.self w')) ≠
       Pool.destroyed (Pool.stats (Pool.self w)) →
       c ∈ Pool.availableConnections (Pool.self w)
       ∧ Pool.minConnections (Pool.self w) <
         length (Pool.availableConnections (Pool.self w))
       ∧ Pool.minConnections (Pool.self w) ≤
         length (Pool.availableConnections (Pool.self w'))).
Proof.
  intros w Hclaim.
  destruct (Hclaim 0 0 50%N eq_refl) as (_ & Hsize & Hfloor).
  - vm_compute. lia.
  - vm_compute in Hsize. lia.
Qed.

(** C4 as stated fails.  On a new pool, [withConnection(fn)] with an [fn]
    that throws leaves two tracked connections where there was none. *)
Lemma withConnection_changes_total :
  let w := Pool.new (Scenario.config 2 3) in
  ¬ (Pool.total
       (Pool.withConnection Nat.mul Nat.pow Scenario.server_up
                            Scenario.fn_throws w).1
     = Pool.total w).
Proof. vm_compute. lia. Qed.

(** ** The scenario of the specification: [{min: 2, max: 3}] *)

Example scenario_initialize :
  let w := Scenario.run [Pool.Initialize] (Pool.new (Scenario.config 2 3)) in
  Pool.availableConnections (Pool.self w) = [0; 1]
  ∧ Pool.activeConnections (Pool.self w) = ∅
  ∧ Pool.created (Pool.stats (Pool.self w)) = 2.
Proof. vm_compute. repeat split. Qed.

(** The same when the login that was started last settles first: the
    connections are on the available list in the order in which their
    logins settled. *)
Example scenario_initialize_last_first :
  let w := Pool.run Nat.mul Nat.pow Scenario.server_up Scenario.last_started
                    Scenario.disconnect_ok [Pool.Initialize]
                    (Pool.new (Scenario.config 2 3)) in
  Pool.availableConnections (Pool.self w) = [1; 0]
  ∧ Pool.activeConnections (Pool.self w) = ∅
  ∧ Pool.created (Pool.stats (Pool.self w)) = 2.
Proof. vm_compute. repeat split. Qed.

(** The third [acquire()] creates connection 2 and leaves it on the
    available list, so that a fourth [acquire()] is not queued: it is given
    connection 2 a second time. *)
Example scenario_fourth_acquire :
  let w := Scenario.run [Pool.Initialize; Pool.Acquire; Pool.Acquire; Pool.Acquire]
                        (Pool.new (Scenario.config 2 3)) in
  Pool.availableConnections (Pool.self w) = [2]
  ∧ size (Pool.activeConnections (Pool.self w)) = 3
  ∧ (Scenario.acquire w).2 = Pool.Settled (Return 2)
  ∧ ∃ p, (Scenario.acquire (Scenario.acquire w).1).2 = Pool.Awaiting p.
Proof. vm_compute. repeat split. by exists 0. Qed.

(** A release while a request is queued hands the connection over: three
    connections stay active and none becomes available. *)
Example scenario_handoff :
  let w := Scenario.run [Pool.Initialize; Pool.Acquire; Pool.Acquire; Pool.Acquire;
                         Pool.Acquire; Pool.Acquire]
                        (Pool.new (Scenario.config 2 3)) in
  Pool.connectionQueue (Pool.self w) = [Pool.WaitCallback 0 0]
  ∧ Pool.promises (Pool.release 1 w) !! 0 = Some (Pool.Resolved (Some 1))
  ∧ size (Pool.activeConnections (Pool.self (Pool.release 1 w))) = 3
  ∧ Pool.availableConnections (Pool.self (Pool.release 1 w)) = [].
Proof. vm_compute. repeat split. Qed.

(** ** The theorems at concrete inputs *)

(** Deciding a closed, decidable proposition by computation. *)
Local Ltac by_computation := apply (bool_decide_unpack _); vm_compute; exact I.

(** The retry scenario of the specification: two failures, then success;
    and the same settings against a server that always refuses. *)
Lemma authenticateWithRetry_spec_witness :
  OdooClient._authenticateWithRetry Nat.mul Nat.pow
    Scenario.retry3 Scenario.fails_twice =
  ([OdooClient.Attempt 1; OdooClient.Sleep 100; OdooClient.Attempt 2;
    OdooClient.Sleep 200; OdooClient.Attempt 3], Return 7)
  ∧ OdooClient._authenticateWithRetry Nat.mul Nat.pow
      Scenario.retry3 Scenario.always_fails =
    ([OdooClient.Attempt 1; OdooClient.Sleep 100; OdooClient.Attempt 2;
      OdooClient.Sleep 200; OdooClient.Attempt 3],
     Throw (OdooConnectionError "Failed to authenticate after 3 attempts"
                                (Some (ForeignError 3)))).
Proof.
  split.
  - apply (proj1 (proj2 (authenticateWithRetry_spec
                           Nat.mul Nat.pow Scenario.retry3 Scenario.fails_twice))
                 3 7).
    + simpl. lia.
    + intros j Hj. exists (ForeignError j). unfold Scenario.fails_twice.
      destruct (decide (j < 3)); [reflexivity|lia].
    + reflexivity.
  - apply (proj2 (proj2 (authenticateWithRetry_spec
                           Nat.mul Nat.pow Scenario.retry3 Scenario.always_fails))
                 ForeignError).
    + simpl. lia.
    + intros j Hj. reflexivity.
Defined.

(** Releasing connection 5, which a new pool has never seen. *)
Lemma release_untracked_only_counts_witness :
  (5 ∉ Pool.activeConnections (Pool.self (Pool.new (Scenario.config 2 3))))
  ∧ Pool.stats (Pool.self (Pool.release 5 (Pool.new (Scenario.config 2 3)))) =
    {| Pool.created := 0; Pool.acquired := 0; Pool.released := 1;
       Pool.destroyed := 0; Pool.queuedRequests := 0 |}
  ∧ Pool.availableConnections
      (Pool.self (Pool.release 5 (Pool.new (Scenario.config 2 3)))) = [].
Proof.
  assert (5 ∉ Pool.activeConnections (Pool.self (Pool.new (Scenario.config 2 3))))
    as Hnot by by_computation.
  split; [exact Hnot|].
  destruct (release_untracked_only_counts 5 (Pool.new (Scenario.config 2 3)) Hnot)
    as (Hav & _ & _ & Hstats & _).
  split; [exact Hstats|exact Hav].
Defined.

(** The first calls of [getInstance] in a process. *)
Lemma getInstance_singleton_witness :
  Pool.instance Scenario.no_instance = None
  ∧ Pool.getInstance None Scenario.no_instance =
    (Scenario.no_instance,
     Throw (Error "Config is required for first initialization of OdooConnectionPool"))
  ∧ (Pool.getInstance (Some (Scenario.config 2 3)) Scenario.no_instance).2 = Return 0
  ∧ (Pool.getInstance (Some (Scenario.config 1 1))
       (Pool.getInstance (Some (Scenario.config 2 3)) Scenario.no_instance).1).2 =
    Return 0.
Proof.
  split; [reflexivity|].
  destruct (getInstance_singleton Scenario.no_instance eq_refl) as [Hthrow Hmake].
  split; [exact Hthrow|].
  destruct (Hmake (Scenario.config 2 3)) as (Hret & _ & _ & _ & Hlater).
  split; [exact Hret|].
  by rewrite (Hlater (Some (Scenario.config 1 1))).
Defined.

(** A pool with [max = 2], both connections handed out and two waiters
    queued: releasing connection 1 and then connection 0 serves the first
    waiter with 1 and the second with 0. *)
Lemma pending_waiters_served_in_order_example :
  let full := Scenario.run [Pool.Acquire; Pool.Acquire; Pool.Acquire; Pool.Acquire]
                           (Pool.new (Scenario.config 2 2)) in
  let w := Scenario.run [Pool.Acquire; Pool.Acquire] full in
  (∃ p timeout,
     (Scenario.acquire full).2 = Pool.Awaiting p
     ∧ Pool.connectionQueue (Pool.self (Scenario.acquire full).1) =
       Pool.connectionQueue (Pool.self full) ++ [Pool.WaitCallback p timeout])
  ∧ Pool.connectionQueue (Pool.self w) = [Pool.WaitCallback 0 0; Pool.WaitCallback 1 1]
  ∧ Pool.connectionQueue (Pool.self (Pool.release 1 w)) = [Pool.WaitCallback 1 1]
  ∧ Pool.promises (Pool.release_all [1; 0] w) !! 0 = Some (Pool.Resolved (Some 1))
  ∧ Pool.promises (Pool.release_all [1; 0] w) !! 1 = Some (Pool.Resolved (Some 0)).
Proof.
  intros full w.
  split.
  { apply (proj1 (pending_waiters_served_in_order Nat.mul Nat.pow Scenario.server_up full)).
    - reflexivity.
    - vm_compute. lia. }
  split; [reflexivity|].
  split.
  { apply (proj1 (proj2 (pending_waiters_served_in_order
                           Nat.mul Nat.pow Scenario.server_up w))
                 1 (Pool.WaitCallback 0 0) [Pool.WaitCallback 1 1]).
    - by_computation.
    - reflexivity. }
  destruct (proj2 (proj2 (pending_waiters_served_in_order
                            Nat.mul Nat.pow Scenario.server_up w))
                  [(0, 0); (1, 1)] [1; 0] []) as (_ & _ & _ & Hserved).
  - reflexivity.
  - reflexivity.
  - repeat constructor; by_computation.
  - by_computation.
  - repeat constructor.
  - split.
    + apply (Hserved 0 0 0 1); reflexivity.
    + apply (Hserved 1 1 1 0); reflexivity.
Qed.

(** Destroying a pool with one connection and one waiter; and the same with
    a connection whose [disconnect()] fails. *)
Lemma destroy_tears_down_witness :
  let w := Scenario.run [Pool.Acquire; Pool.Acquire; Pool.Acquire]
                        (Pool.new (Scenario.config 2 1)) in
  Pool.promises (Pool.destroy Scenario.disconnect_ok w).1 !! 0 =
    Some (Pool.Rejected (OdooConnectionError "Connection pool is closing" None))
  ∧ (∃ cl, Pool.clients (Pool.destroy Scenario.disconnect_ok w).1 !! 0 = Some cl
           ∧ OdooClient.connected cl = false
           ∧ OdooClient.isConnected cl = false)
  ∧ (Pool.LogError, "Error disconnecting connection")
      ∈ Pool.log (Pool.destroy Scenario.disconnect_fails w).1
  ∧ Pool.total (Pool.destroy Scenario.disconnect_fails w).1 = 0.
Proof.
  intros w.
  destruct (destroy_tears_down Scenario.disconnect_ok w)
    as (_ & _ & _ & _ & _ & Hreject & Hdisconnect & _).
  destruct (destroy_tears_down Scenario.disconnect_fails w)
    as (_ & _ & _ & _ & Htotal & _ & _ & Hlogged & _).
  split; [|split; [|split]].
  - apply (Hreject 0 0).
    + by_computation.
    + by_computation.
    + reflexivity.
  - apply (Hdisconnect 0 {| OdooClient.odoo := true; OdooClient.uid := Some 7;
                            OdooClient.connected := true |}).
    + right. by_computation.
    + reflexivity.
    + reflexivity.
  - apply (Hlogged 0 (ForeignError 0)).
    + right. by_computation.
    + reflexivity.
  - exact Htotal.
Defined.

(** Idle timers at work, with [min = 1] and [min = 2]. *)
Lemma idle_eviction_checks_membership_only_witness :
  let two_out := Scenario.run [Pool.Acquire; Pool.Acquire; Pool.Acquire]
                              (Pool.new (Scenario.config 1 5)) in
  let one_out := Scenario.run [Pool.Acquire; Pool.Acquire]
                              (Pool.new (Scenario.config 2 5)) in
  let idle := Scenario.run [Pool.Release 0; Pool.Acquire] two_out in
  let taken := Scenario.run [Pool.Acquire] idle in
  Pool.availableConnections (Pool.self (Pool.release 0 two_out)) = [1; 0]
  ∧ (∃ id, Pool.timers two_out !! id = None
           ∧ Pool.timers (Pool.release 0 two_out) =
             <[id := {| Pool.timer_callback := Pool.IdleTimeout 0;
                        Pool.timer_delay := 50;
                        Pool.timer_status := Pool.Scheduled |}]> (Pool.timers two_out))
  ∧ Pool.timers (Pool.release 0 one_out) = Pool.timers one_out
  ∧ Pool.availableConnections (Pool.self idle) = [0]
  ∧ Pool.availableConnections (Pool.self (Pool.fire Scenario.disconnect_ok 0 idle)) = []
  ∧ Pool.self (Pool.fire Scenario.disconnect_ok 0 taken) = Pool.self taken.
Proof.
  intros two_out one_out idle taken.
  destruct (proj1 (idle_eviction_checks_membership_only
                     Scenario.disconnect_ok two_out) 0)
    as (Hpush & Hset & _).
  { by_computation. }
  { reflexivity. }
  destruct (proj1 (idle_eviction_checks_membership_only
                     Scenario.disconnect_ok one_out) 0)
    as (_ & _ & Hnone).
  { by_computation. }
  { reflexivity. }
  destruct (proj2 (idle_eviction_checks_membership_only
                     Scenario.disconnect_ok idle) 0 0 50%N eq_refl)
    as [Hevict _].
  destruct (proj2 (idle_eviction_checks_membership_only
                     Scenario.disconnect_ok taken) 0 0 50%N eq_refl)
    as [_ Hkeep].
  split; [exact Hpush|].
  split; [apply Hset; vm_compute; lia|].
  split; [apply Hnone; vm_compute; lia|].
  split; [reflexivity|].
  split.
  - destruct Hevict as (index & _ & Hdel & Hlen & _); [by_computation|].
    apply nil_length_inv.
    change (length (Pool.availableConnections (Pool.self idle))) with 1 in Hlen.
    lia.
  - apply Hkeep. by_computation.
Defined.

(** [withConnection] with a function that throws: on a new pool, against a
    server that refuses every connection, on a pool with an available
    connection, and on an exhausted pool, where the call waits until
    connection 0 is released to it. *)
Lemma withConnection_releases_witness :
  let w := Pool.new (Scenario.config 2 3) in
  let used := Scenario.run [Pool.Acquire; Pool.Release 0] w in
  let full := Scenario.run [Pool.Initialize; Pool.Acquire]
                           (Pool.new (Scenario.config 1 1)) in
  let waiting := (Pool.withConnection Nat.mul Nat.pow Scenario.server_up
                                      Scenario.fn_throws full).1 in
  let served := Pool.release 0 waiting in
  (Pool.withConnection Nat.mul Nat.pow Scenario.server_up Scenario.fn_throws w).2 =
    Pool.Settled (Throw (ForeignError 1))
  ∧ Pool.released
      (Pool.stats (Pool.self
         (Pool.withConnection Nat.mul Nat.pow Scenario.server_up
                              Scenario.fn_throws w).1)) = 1
  ∧ (Pool.withConnection Nat.mul Nat.pow (λ _, Scenario.always_fails)
                         Scenario.fn_throws w).2 =
    Pool.Settled (Throw
      (OdooConnectionError "Failed to create connection"
         (Some (OdooConnectionError "Failed to connect to Odoo"
            (Some (OdooConnectionError "Failed to authenticate after 3 attempts"
               (Some (ForeignError 3))))))))
  ∧ Pool.total (Pool.withConnection Nat.mul Nat.pow Scenario.server_up
                                    Scenario.fn_throws used).1 = Pool.total used
  ∧ (Pool.withConnection Nat.mul Nat.pow Scenario.server_up
                         Scenario.fn_throws full).2 = Pool.Awaiting 0
  ∧ Pool.withConnection_resume Scenario.fn_throws 0 waiting =
    (waiting, Pool.Awaiting 0)
  ∧ Pool.withConnection_resume Scenario.fn_throws 0 served =
    (Pool.release 0 served, Pool.Settled (Throw (ForeignError 1)))
  ∧ Pool.released (Pool.stats (Pool.self (Pool.release 0 served))) = 2
  ∧ Pool.withConnection_resume Scenario.fn_throws 0
      (Pool.fire Scenario.disconnect_ok 0 waiting) =
    (Pool.fire Scenario.disconnect_ok 0 waiting,
     Pool.Settled (Throw (OdooConnectionError
                            "Timeout waiting for available connection" None))).
Proof.
  intros w used full waiting served.
  destruct (proj1 (withConnection_releases Nat.mul Nat.pow Scenario.server_up
                     Scenario.fn_throws w)
                  (Scenario.acquire w).1 0 (Scenario.acquire w).1
                  (Throw (ForeignError 1)) eq_refl eq_refl)
    as (Hrun & Hreleased & _).
  destruct (withConnection_releases Nat.mul Nat.pow
              (λ _, Scenario.always_fails) Scenario.fn_throws w)
    as (_ & Hfail & _).
  destruct (Hfail (Pool.acquire Nat.mul Nat.pow (λ _, Scenario.always_fails) w).1
                  _ eq_refl) as [Hthrown _].
  destruct (withConnection_releases Nat.mul Nat.pow Scenario.server_up
              Scenario.fn_throws used)
    as (_ & _ & _ & _ & _ & _ & Hsame).
  destruct (withConnection_releases Nat.mul Nat.pow Scenario.server_up
              Scenario.fn_throws full)
    as (_ & _ & Hwait & Hserved & Hrejected & Hpending & _).
  destruct (Hwait (Scenario.acquire full).1 0) as [Hqueued _].
  { vm_compute. reflexivity. }
  destruct (Hserved 0 served 0 served (Throw (ForeignError 1)))
    as (Hresume & Hcount & _); [vm_compute; reflexivity|reflexivity|].
  split; [by rewrite Hrun|].
  split; [by rewrite Hrun|].
  split; [by rewrite Hthrown|].
  assert (Pool.availableConnections (Pool.self used) = [0; 0]) as Hav
    by (vm_compute; reflexivity).
  assert (0 ∉ Pool.activeConnections (Pool.self used)) as Hidle
    by by_computation.
  assert (∀ x, Pool.total (Scenario.fn_throws 0 x).1 = Pool.total x) as Hfn
    by reflexivity.
  split; [exact (Hsame 0 [0] Hav Hidle (Hfn _))|].
  split; [by rewrite Hqueued|].
  split; [apply Hpending; vm_compute; reflexivity|].
  split; [exact Hresume|].
  split; [rewrite Hcount; vm_compute; reflexivity|].
  apply Hrejected. vm_compute. reflexivity.
Defined.

(** * More on the session client: [connect], [disconnect], [execute_kw] *)

Section ClientFacts.
Context {num : Type}.
Variable mul : num → num → num.
Variable pow : num → nat → num.
Variable retry : OdooClient.RetryConfig num.
Variable odoo_connect : nat → JSError + nat.
Variable rpc : OdooRpc.Request → JSError + OdooRpc.Value.

Local Abbreviation maxAttempts := (OdooClient.maxAttempts retry).
Local Abbreviation authenticate :=
  (OdooClient._authenticateWithRetry mul pow retry odoo_connect).
Local Abbreviation connect := (OdooClient.connect mul pow retry odoo_connect).
Local Abbreviation first_success := (OdooRpc.first_success retry odoo_connect).
Local Abbreviation all_fail := (OdooRpc.all_fail retry odoo_connect).
Local Abbreviation ready := OdooRpc.ready.
Local Abbreviation exhausted errors :=
  (OdooConnectionError
     ("Failed to authenticate after " +:+ pretty maxAttempts +:+ " attempts")
     (if decide (maxAttempts = 0) then None else Some (errors maxAttempts))).

Lemma authenticate_first_success k u :
  first_success k u → authenticate.2 = Return u.
Proof.
  intros (Hk & Hfail & Hok). unfold OdooClient._authenticateWithRetry.
  rewrite (retry_loop_success mul pow retry odoo_connect (k - 1) maxAttempts 1 None u);
    try lia; try done.
  - intros j Hj. apply Hfail. lia.
  - by replace (1 + (k - 1)) with k by lia.
Qed.

Lemma authenticate_all_fail errors :
  all_fail errors → authenticate.2 = Throw (exhausted errors).
Proof.
  intros Hfail. unfold OdooClient._authenticateWithRetry.
  assert (∀ n, n = maxAttempts →
            (OdooClient.retry_loop mul pow retry odoo_connect n 1 None).2 =
            Throw (exhausted errors)) as Hloop; [|by apply Hloop].
  intros [|m] Hn.
  - simpl. by destruct (decide (maxAttempts = 0)).
  - rewrite (retry_loop_exhausted mul pow retry odoo_connect errors m 1 None);
      try lia; [|done].
    simpl. destruct (decide (maxAttempts = 0)); [lia|done].
Qed.

Lemma connect_not_connected c :
  OdooClient.connected c = false →
  connect c =
  match authenticate.2 with
  | Return u =>
      ({| OdooClient.odoo := true; OdooClient.uid := Some u;
          OdooClient.connected := true |}, Return tt)
  | Throw error =>
      ({| OdooClient.odoo := true; OdooClient.uid := OdooClient.uid c;
          OdooClient.connected := false |},
       Throw (OdooConnectionError "Failed to connect to Odoo" (Some error)))
  end.
Proof.
  intros Hc. unfold OdooClient.connect. rewrite Hc. simpl.
  by destruct (authenticate.2).
Qed.

Lemma connect_ready c : ready c → connect c = (c, Return tt).
Proof.
  intros (Hc & [n Hu] & _). unfold OdooClient.connect. by rewrite Hc, Hu.
Qed.

(** X1.  [connect()] on a client that is not connected.  If one of the
    first [maxAttempts] authentication calls succeeds, the client becomes
    connected with the user id of the first success, and [isConnected()]
    holds.  If they all fail (also when [maxAttempts] is 0 and no call is
    made), the client stays unconnected and the error is "Failed to connect
    to Odoo" around "Failed to authenticate after N attempts" around the
    last server error. *)
Theorem connect_outcome c :
  OdooClient.connected c = false →
  (∀ k u, first_success k u →
     connect c =
       ({| OdooClient.odoo := true; OdooClient.uid := Some u;
           OdooClient.connected := true |}, Return tt)
     ∧ OdooClient.isConnected (connect c).1 = true)
  ∧ (∀ errors, all_fail errors →
       connect c =
         ({| OdooClient.odoo := true; OdooClient.uid := OdooClient.uid c;
             OdooClient.connected := false |},
          Throw (OdooConnectionError "Failed to connect to Odoo"
                                     (Some (exhausted errors))))
       ∧ OdooClient.isConnected (connect c).1 = false).
Proof.
  intros Hc. split.
  - intros k u Hfirst. rewrite connect_not_connected by done.
    by rewrite (authenticate_first_success k u).
  - intros errors Hfail. rewrite connect_not_connected by done.
    by rewrite (authenticate_all_fail errors).
Qed.

(** X2.  [disconnect()] puts a connected client back into the state of a
    new one, changes nothing on a client that is not connected, and can be
    repeated; afterwards [isConnected()] is false.  [connect()] on a client
    that is connected with a non-zero user id returns at once and changes
    nothing, whatever the server would answer. *)
Theorem client_lifecycle c :
  (OdooClient.connected c = true → OdooClient.disconnect c = OdooClient.new)
  ∧ (OdooClient.connected c = false → OdooClient.disconnect c = c)
  ∧ OdooClient.disconnect (OdooClient.disconnect c) = OdooClient.disconnect c
  ∧ OdooClient.isConnected (OdooClient.disconnect c) = false
  ∧ (ready c → connect c = (c, Return tt)).
Proof.
  unfold OdooClient.disconnect, OdooClient.isConnected.
  destruct (OdooClient.connected c) eqn:Hc; simpl; rewrite ?Hc; simpl;
    repeat split; try done; apply connect_ready.
Qed.

Local Abbreviation sent model method params kwargs :=
  ({| OdooRpc.model := model; OdooRpc.method := method;
      OdooRpc.params := params;
      OdooRpc.kwargs := if decide (kwargs = ∅) then None else Some kwargs |}).
Local Abbreviation failed_to_execute model method error :=
  (OdooConnectionError ("Failed to execute " +:+ model +:+ "." +:+ method)
                       (Some error)).

Lemma kwargs_sent (kwargs : gmap string OdooRpc.Value) :
  (if decide (0 < size kwargs) then Some kwargs else None) =
  (if decide (kwargs = ∅) then None else Some kwargs).
Proof.
  destruct (decide (kwargs = ∅)) as [->|Hne].
  - by rewrite map_size_empty.
  - destruct (decide (0 < size kwargs)) as [|Hz]; [done|].
    destruct Hne. apply map_size_empty_iff. lia.
Qed.

(** [execute_kw] on a client with its transport, once [connect()] has
    returned. *)
Lemma execute_kw_connected model method params kwargs c c' :
  connect c = (c', Return tt) → OdooClient.odoo c' = true →
  OdooRpc.execute_kw mul pow retry odoo_connect rpc model method params kwargs c =
  match rpc (sent model method params kwargs) with
  | inr result => (c', [sent model method params kwargs], Return result)
  | inl error =>
      (c', [sent model method params kwargs],
       Throw (failed_to_execute model method error))
  end.
Proof.
  intros Hconn Hodoo. unfold OdooRpc.execute_kw.
  rewrite Hconn, Hodoo, kwargs_sent. by destruct (rpc _).
Qed.

(** X3.  [execute_kw] connects first.  (1) If no authentication attempt
    succeeds, no request is sent and the error is the one of [connect()],
    "Failed to connect to Odoo".  (2) A client that was not connected and
    can authenticate is connected before the request is sent and stays
    connected.  (3) On a connected client one request is sent; its keyword
    arguments are left out when [kwargs] is empty; the answer of the server
    is returned, and an error of the server is wrapped into "Failed to
    execute model.method"; the client is unchanged in both cases. *)
Theorem execute_kw_outcome model method params kwargs c :
  (OdooClient.connected c = false →
   ∀ errors, all_fail errors →
     (OdooRpc.execute_kw mul pow retry odoo_connect rpc
                         model method params kwargs c).1.2 = []
     ∧ (OdooRpc.execute_kw mul pow retry odoo_connect rpc
                           model method params kwargs c).2 =
       Throw (OdooConnectionError "Failed to connect to Odoo"
                                  (Some (exhausted errors))))
  ∧ (OdooClient.connected c = false →
     ∀ k u, first_success k u →
       (OdooRpc.execute_kw mul pow retry odoo_connect rpc
                           model method params kwargs c).1 =
       ({| OdooClient.odoo := true; OdooClient.uid := Some u;
           OdooClient.connected := true |},
        [sent model method params kwargs]))
  ∧ (ready c →
     (∀ result, rpc (sent model method params kwargs) = inr result →
        OdooRpc.execute_kw mul pow retry odoo_connect rpc
                           model method params kwargs c =
        (c, [sent model method params kwargs], Return result))
     ∧ (∀ error, rpc (sent model method params kwargs) = inl error →
          OdooRpc.execute_kw mul pow retry odoo_connect rpc
                             model method params kwargs c =
          (c, [sent model method params kwargs],
           Throw (failed_to_execute model method error)))).
Proof.
  split; [|split].
  - intros Hc errors Hfail.
    unfold OdooRpc.execute_kw.
    rewrite connect_not_connected, (authenticate_all_fail errors) by done.
    done.
  - intros Hc k u Hfirst.
    pose proof (connect_not_connected c Hc) as Hconn.
    rewrite (authenticate_first_success k u) in Hconn by done.
    rewrite (execute_kw_connected _ _ _ _ _ _ Hconn) by done.
    by destruct (rpc _).
  - intros Hready. pose proof (connect_ready c Hready) as Hconn.
    destruct Hready as (_ & _ & Hodoo).
    rewrite (execute_kw_connected _ _ _ _ _ _ Hconn Hodoo).
    split; intros ? ->; done.
Qed.

Lemma execute_kw_requests model method params kwargs c :
  ready c →
  (OdooRpc.execute_kw mul pow retry odoo_connect rpc
                      model method params kwargs c).1.2 =
  [sent model method params kwargs].
Proof.
  intros Hready. pose proof (connect_ready c Hready) as Hconn.
  destruct Hready as (_ & _ & Hodoo).
  rewrite (execute_kw_connected _ _ _ _ _ _ Hconn Hodoo).
  by destruct (rpc _).
Qed.

(** X4.  What the verbs send, on a connected client.  [create], [write] and
    [unlink] never send keyword arguments.  [search] sends its options, and
    none when they are empty.  [read] sends [{fields}] only for a non-empty
    field list.  [searchRead] sends the options with [fields] set to the
    field list (an entry [fields] of the options is overridden, the other
    entries are kept); with an empty field list it sends the options as they
    are. *)
Theorem verbs_requests c model domain ids values fields options :
  ready c →
  (OdooRpc.search mul pow retry odoo_connect rpc model domain options c).1.2 =
    [{| OdooRpc.model := model; OdooRpc.method := "search";
        OdooRpc.params := [OdooRpc.VArr domain];
        OdooRpc.kwargs := if decide (options = ∅) then None else Some options |}]
  ∧ (OdooRpc.read mul pow retry odoo_connect rpc model ids fields c).1.2 =
    [{| OdooRpc.model := model; OdooRpc.method := "read";
        OdooRpc.params := [ids];
        OdooRpc.kwargs := if decide (fields = []) then None
                          else Some {[ "fields" := OdooRpc.VArr fields ]} |}]
  ∧ (∃ sent_kwargs,
       (OdooRpc.searchRead mul pow retry odoo_connect rpc
                           model domain fields options c).1.2 =
       [{| OdooRpc.model := model; OdooRpc.method := "search_read";
           OdooRpc.params := [OdooRpc.VArr domain];
           OdooRpc.kwargs := sent_kwargs |}]
       ∧ (fields = [] →
          sent_kwargs = if decide (options = ∅) then None else Some options)
       ∧ (fields ≠ [] →
          ∃ kw, sent_kwargs = Some kw
                ∧ kw !! "fields" = Some (OdooRpc.VArr fields)
                ∧ ∀ key, key ≠ "fields" → kw !! key = options !! key))
  ∧ (OdooRpc.create mul pow retry odoo_connect rpc model values c).1.2 =
    [{| OdooRpc.model := model; OdooRpc.method := "create";
        OdooRpc.params := [values]; OdooRpc.kwargs := None |}]
  ∧ (OdooRpc.write mul pow retry odoo_connect rpc model ids values c).1.2 =
    [{| OdooRpc.model := model; OdooRpc.method := "write";
        OdooRpc.params := [ids; values]; OdooRpc.kwargs := None |}]
  ∧ (OdooRpc.unlink mul pow retry odoo_connect rpc model ids c).1.2 =
    [{| OdooRpc.model := model; OdooRpc.method := "unlink";
        OdooRpc.params := [ids]; OdooRpc.kwargs := None |}].
Proof.
  intros Hready.
  unfold OdooRpc.search, OdooRpc.read, OdooRpc.searchRead, OdooRpc.create,
    OdooRpc.write, OdooRpc.unlink.
  rewrite !execute_kw_requests by done.
  split; [done|]. split; [|split; [|by repeat split]].
  - destruct fields as [|f fields]; simpl; [done|].
    destruct (decide (_ = ∅)) as [Hempty|_]; [|done].
    by apply map_non_empty_singleton in Hempty.
  - eexists. split; [done|]. split.
    + intros ->. done.
    + intros Hfields. destruct fields as [|f fields]; [done|]. simpl.
      destruct (decide (_ = ∅)) as [Hempty|_].
      { by apply insert_non_empty in Hempty. }
      eexists. split; [done|]. split.
      * by rewrite lookup_insert_eq.
      * intros key Hkey. by rewrite lookup_insert_ne.
Qed.
End ClientFacts.

(** * More on the pool: [initialize], [connect], the verbs, and what holds
    along every history *)

Section PoolMore.
Context {num : Type}.
Variable mul : num → num → num.
Variable pow : num → nat → num.
Variable transport : nat → nat → JSError + nat.
Variable login_order : list nat → nat.
Variable disconnect_error : nat → option JSError.
Variable rpc : OdooRpc.Request → JSError + OdooRpc.Value.
Implicit Types (w : Pool.World num) (c p id : nat).

(** [tauto] on a goal about sets, without the answers of the server. *)
Local Ltac plain_tauto :=
  try clear rpc; try clear disconnect_error; try clear login_order;
  try clear transport; try clear pow; try clear mul; tauto.

Local Abbreviation acquire := (Pool.acquire mul pow transport).
Local Abbreviation _createConnection := (Pool._createConnection mul pow transport).
Local Abbreviation finish_connection := (Pool.finish_connection mul pow transport).
Local Abbreviation initialize := (Pool.initialize mul pow transport login_order).
Local Abbreviation initialize_in_flight :=
  (Pool.initialize_in_flight mul pow transport login_order).
Local Abbreviation initialize_settled :=
  (Pool.initialize_settled mul pow transport login_order).
Local Abbreviation settling_order := (PoolApi.settling_order login_order).
Local Abbreviation accepted r := (PoolApi.login_accepted mul pow transport r).
Local Abbreviation destroy := (Pool.destroy disconnect_error).
Local Abbreviation fire := (Pool.fire disconnect_error).
Local Abbreviation step :=
  (Pool.step mul pow transport login_order disconnect_error).
Local Abbreviation run :=
  (Pool.run mul pow transport login_order disconnect_error).
Local Abbreviation server_accepts := (PoolApi.server_accepts transport).
Local Abbreviation online u :=
  ({| OdooClient.odoo := true; OdooClient.uid := Some u;
      OdooClient.connected := true |}).
Local Abbreviation same_settings := PoolApi.same_settings.
Local Abbreviation tracked := PoolApi.tracked.
Local Abbreviation stats_le := PoolApi.stats_le.

(** ** One call of [_createConnection] *)

Local Abbreviation created_world c client w :=
  (Pool.logger Pool.Debug "Created new connection"
     (Pool.on_self
        (λ s, Pool.set_available (Pool.availableConnections s ++ [c]) s)
        (Pool.on_self Pool.incr_created
           (Pool.set_clients (<[c := client]> (Pool.clients w)) w)))).
Local Abbreviation failed_world c client w :=
  (Pool.logger Pool.LogError "Failed to create connection"
     (Pool.set_clients (<[c := client]> (Pool.clients w)) w)).

(** The two ways [_createConnection] can end. *)
Lemma createConnection_cases w :
  let c := fresh (dom (Pool.clients w)) in
  (∃ client, _createConnection w = (created_world c client w, Return c))
  ∨ (∃ client cause,
       _createConnection w =
       (failed_world c client w,
        Throw (OdooConnectionError "Failed to create connection" (Some cause)))).
Proof using Type.
  unfold Pool._createConnection.
  destruct (OdooClient.connect _ _ _ _ _) as [client [[]|e]]; simpl; eauto.
Qed.

(** A server that lets the new connection in. *)
Lemma createConnection_accepted w k u :
  OdooRpc.first_success (Pool.retry (Pool.config (Pool.self w)))
                        (transport (fresh (dom (Pool.clients w)))) k u →
  _createConnection w =
  (created_world (fresh (dom (Pool.clients w))) (online u) w,
   Return (fresh (dom (Pool.clients w)))).
Proof using Type.
  intros Hfirst. unfold Pool._createConnection.
  rewrite connect_not_connected by done.
  by rewrite (authenticate_first_success _ _ _ _ k u).
Qed.

(** ** [initialize()] *)

(** Connections that are all let in pass the filter. *)
Lemma filter_accepted r (cs : list nat) :
  Forall (λ c, accepted r c = true) cs → List.filter (accepted r) cs = cs.
Proof using Type.
  induction 1 as [|c cs Hc _ IH]; simpl; [done|]. by rewrite Hc, IH.
Qed.

(** X6.  [initialize()] starts [minConnections] logins on new client
    objects and waits for all of them; they settle in some order.  It never
    takes a connection back: (1) the active set and the queue are untouched,
    both when it returns or throws and when the last login has settled;
    (2) when every login is let in, it returns normally with the
    connections appended to the available list in the order in which they
    settled, all counted in [created], and no login in flight; (3) at the
    first login that is refused it throws "Failed to create connection",
    and at that moment the connections that settled before are on the
    available list and counted, and the logins that had not settled are
    still in flight; each of those that is let in later is appended and
    counted as well. *)
Theorem initialize_keeps_what_connected w :
  let r := Pool.retry (Pool.config (Pool.self w)) in
  let started :=
    fresh_list (Pool.minConnections (Pool.self w)) (dom (Pool.clients w)) in
  let order := settling_order started in
  order ≡ₚ started
  ∧ Pool.activeConnections (Pool.self (initialize w).1) =
    Pool.activeConnections (Pool.self w)
  ∧ Pool.connectionQueue (Pool.self (initialize w).1) =
    Pool.connectionQueue (Pool.self w)
  ∧ Pool.activeConnections (Pool.self (initialize_settled w)) =
    Pool.activeConnections (Pool.self w)
  ∧ Pool.connectionQueue (Pool.self (initialize_settled w)) =
    Pool.connectionQueue (Pool.self w)
  ∧ (Forall (λ c, accepted r c = true) order →
     (initialize w).2 = Return tt
     ∧ (initialize_in_flight w).2 = []
     ∧ Pool.availableConnections (Pool.self (initialize w).1) =
       Pool.availableConnections (Pool.self w) ++ order
     ∧ Pool.created (Pool.stats (Pool.self (initialize w).1)) =
       Pool.created (Pool.stats (Pool.self w)) + Pool.minConnections (Pool.self w))
  ∧ (∀ pre c post,
       order = pre ++ c :: post →
       Forall (λ c, accepted r c = true) pre →
       accepted r c = false →
       (∃ cause,
          (initialize w).2 =
          Throw (OdooConnectionError "Failed to create connection" (Some cause)))
       ∧ settling_order (initialize_in_flight w).2 = post
       ∧ Pool.availableConnections (Pool.self (initialize w).1) =
         Pool.availableConnections (Pool.self w) ++ pre
       ∧ Pool.created (Pool.stats (Pool.self (initialize w).1)) =
         Pool.created (Pool.stats (Pool.self w)) + length pre
       ∧ Pool.availableConnections (Pool.self (initialize_settled w)) =
         Pool.availableConnections (Pool.self w) ++ List.filter (accepted r) order
       ∧ Pool.created (Pool.stats (Pool.self (initialize_settled w))) =
         Pool.created (Pool.stats (Pool.self w))
         + length (List.filter (accepted r) order)).
Proof using Type.
  intros r started order.
  destruct (initialize_frame mul pow transport login_order w (initialize w).1)
    as (Hq & Hact & _); [by left|].
  destruct (initialize_frame mul pow transport login_order w (initialize_settled w))
    as (Hq' & Hact' & _); [by right|].
  assert (length started = Pool.minConnections (Pool.self w)) as Hlen
    by apply length_fresh_list.
  split; [by apply settling_Permutation|].
  do 4 (split; [done|]).
  unfold Pool.initialize, Pool.initialize_settled, Pool.initialize_in_flight.
  destruct (start_connections_spec
              (Pool.minConnections (Pool.self w))
              (Pool.logger Pool.Info
                 "Initializing connection pool with minimum connections" w))
    as (Hcs & Hself & _).
  simpl in Hcs, Hself |- *.
  destruct (Pool.start_connections _ _) as [w1 promises].
  simpl in Hcs, Hself |- *. subst promises. fold started.
  assert (Pool.retry (Pool.config (Pool.self w1)) = r) as Hr by by rewrite Hself.
  split.
  - intros Hall.
    destruct (await_all_accepted mul pow transport login_order r
                (length started) started w1 eq_refl Hr Hall)
      as (w' & -> & Hav & Hcr & _).
    simpl. rewrite Hav, Hcr, Hself.
    repeat split; try done; by rewrite Hlen.
  - intros pre c post Horder Hpre Hc.
    destruct (await_all_refused mul pow transport login_order r
                (length started) started w1 pre c post eq_refl Hr Horder Hpre Hc)
      as (w' & cause & remaining & -> & Hpost & Hav & Hcr & Hr').
    simpl.
    destruct (settle_logins_spec mul pow transport login_order r
                (length remaining) remaining w' eq_refl Hr') as [-> ->].
    unfold PoolApi.settling_order. rewrite Hpost, Hav, Hcr, Hself.
    fold order. rewrite Horder, List.filter_app. simpl. rewrite Hc.
    rewrite (filter_accepted r pre Hpre), length_app, <- app_assoc.
    repeat split; try done; [eauto|lia].
Qed.

(** A server that lets every connection in lets in each one. *)
Lemma server_accepts_login r c : server_accepts r → accepted r c = true.
Proof using Type.
  intros Hserver. destruct (Hserver c) as (k & u & Hfirst).
  unfold PoolApi.login_accepted.
  by rewrite (authenticate_first_success _ _ _ _ k u Hfirst).
Qed.

Lemma initialize_on_accepting_server w :
  server_accepts (Pool.retry (Pool.config (Pool.self w))) →
  ∃ cs,
    (initialize w).2 = Return tt
    ∧ Pool.availableConnections (Pool.self (initialize w).1) =
      Pool.availableConnections (Pool.self w) ++ cs
    ∧ length cs = Pool.minConnections (Pool.self w)
    ∧ NoDup cs
    ∧ (∀ c, c ∈ cs →
         (c ∉ dom (Pool.clients w))
         ∧ ∃ client, Pool.clients (initialize w).1 !! c = Some client
                     ∧ OdooClient.isConnected client = true)
    ∧ (∀ c, c ∈ dom (Pool.clients w) →
         Pool.clients (initialize w).1 !! c = Pool.clients w !! c)
    ∧ initialize_settled w = (initialize w).1.
Proof using Type.
  intros Hserver.
  set (started := fresh_list (Pool.minConnections (Pool.self w))
                             (dom (Pool.clients w))).
  assert (settling_order started ≡ₚ started) as Hperm
    by by apply settling_Permutation.
  exists (settling_order started).
  unfold Pool.initialize, Pool.initialize_settled, Pool.initialize_in_flight.
  destruct (start_connections_spec
              (Pool.minConnections (Pool.self w))
              (Pool.logger Pool.Info
                 "Initializing connection pool with minimum connections" w))
    as (Hcs & Hself & Hkept).
  simpl in Hcs, Hself, Hkept |- *.
  destruct (Pool.start_connections _ _) as [w1 promises].
  simpl in Hcs, Hself, Hkept |- *. subst promises. fold started in Hkept |- *.
  destruct (await_all_accepted mul pow transport login_order
              (Pool.retry (Pool.config (Pool.self w)))
              (length started) started w1 eq_refl)
    as (w' & -> & Hav & _ & Hnew & Hold & _).
  { by rewrite Hself. }
  { apply Forall_forall. intros c _. by apply server_accepts_login. }
  simpl. rewrite Hav, Hself.
  split; [done|]. split; [done|].
  split; [by rewrite Hperm; apply length_fresh_list|].
  split; [rewrite Hperm; apply NoDup_fresh_list|].
  split; [|split; [|done]].
  - intros c Hc. rewrite Hperm in Hc.
    split; [by apply fresh_list_is_fresh in Hc|].
    destruct (Hnew c Hc) as [u Hu]. eauto.
  - intros c Hc.
    assert (c ∉ started) as Hnot.
    { intros Hin. by apply fresh_list_is_fresh in Hin. }
    rewrite Hold by done. by apply Hkept.
Qed.

(** X5.  [initialize()] against a server that lets every connection in
    returns normally after appending [minConnections] connections to the
    available list.  They are new objects (none was known to the pool
    before), different from each other, and connected; the clients the pool
    had before are untouched. *)
Theorem initialize_accepted w :
  server_accepts (Pool.retry (Pool.config (Pool.self w))) →
  ∃ cs,
    (initialize w).2 = Return tt
    ∧ Pool.availableConnections (Pool.self (initialize w).1) =
      Pool.availableConnections (Pool.self w) ++ cs
    ∧ length cs = Pool.minConnections (Pool.self w)
    ∧ NoDup cs
    ∧ (∀ c, c ∈ cs →
         (c ∉ dom (Pool.clients w))
         ∧ ∃ client, Pool.clients (initialize w).1 !! c = Some client
                     ∧ OdooClient.isConnected client = true)
    ∧ (∀ c, c ∈ dom (Pool.clients w) →
         Pool.clients (initialize w).1 !! c = Pool.clients w !! c).
Proof using Type.
  intros Hserver.
  destruct (initialize_on_accepting_server w Hserver)
    as (cs & ? & ? & ? & ? & ? & ? & _).
  by exists cs.
Qed.

Lemma initialize_active w :
  Pool.activeConnections (Pool.self (initialize w).1) =
  Pool.activeConnections (Pool.self w).
Proof using Type.
  destruct (initialize_frame mul pow transport login_order w (initialize w).1)
    as (_ & Hact & _); [by left|done].
Qed.

(** X16.  [initialize()] does not look at [maxConnections].  On an empty
    pool, against a server that lets every connection in, it leaves
    [minConnections] different connections in the pool, whatever
    [maxConnections] is. *)
Theorem initialize_ignores_maxConnections w :
  server_accepts (Pool.retry (Pool.config (Pool.self w))) →
  Pool.availableConnections (Pool.self w) = [] →
  Pool.activeConnections (Pool.self w) = ∅ →
  (initialize w).2 = Return tt
  ∧ size (tracked (initialize w).1) = Pool.minConnections (Pool.self w).
Proof using Type.
  intros Hserver Hav Hact.
  destruct (initialize_on_accepting_server w Hserver)
    as (cs & Hres & Hav' & Hlen & Hnd & _).
  split; [done|]. unfold PoolApi.tracked.
  rewrite Hav', Hav, initialize_active, Hact. simpl.
  rewrite union_empty_r_L, size_list_to_set by done. done.
Qed.

(** ** What every method keeps *)

Lemma stats_le_refl s : stats_le s s.
Proof using Type. by repeat split. Qed.

Lemma stats_le_trans s1 s2 s3 : stats_le s1 s2 → stats_le s2 s3 → stats_le s1 s3.
Proof using Type. unfold PoolApi.stats_le. lia. Qed.

Lemma same_settings_refl w : same_settings w w.
Proof using Type. by repeat split. Qed.

Lemma same_settings_trans w1 w2 w3 :
  same_settings w1 w2 → same_settings w2 w3 → same_settings w1 w3.
Proof using Type.
  intros (? & ? & ? & ?) (? & ? & ? & ?). repeat split; congruence.
Qed.

Lemma clients_setIdleTimeout c w :
  Pool.clients (Pool._setIdleTimeout c w) = Pool.clients w.
Proof using Type. unfold Pool._setIdleTimeout. by case_decide. Qed.

(** [release] moves connections between the two collections, or nothing at
    all. *)
Lemma release_keeps c w :
  same_settings w (Pool.release c w)
  ∧ Pool.clients (Pool.release c w) = Pool.clients w
  ∧ stats_le (Pool.stats (Pool.self w)) (Pool.stats (Pool.self (Pool.release c w)))
  ∧ tracked (Pool.release c w) = tracked w.
Proof using Type.
  unfold PoolApi.tracked, PoolApi.same_settings, PoolApi.stats_le, Pool.release.
  simpl. destruct (decide (c ∉ _)) as [Hnot|Hin]; simpl.
  { repeat split; lia. }
  apply dec_stable in Hin.
  destruct (Pool.connectionQueue (Pool.self w)) as [|cb rest]; simpl.
  - rewrite self_setIdleTimeout, clients_setIdleTimeout. simpl.
    repeat split; try lia.
    rewrite list_to_set_snoc_L. apply set_eq. intros x.
    rewrite !elem_of_union, elem_of_difference, elem_of_singleton.
    destruct (decide (x = c)) as [Heq|Hne]; [rewrite Heq|]; plain_tauto.
  - rewrite self_call, clients_call. simpl.
    repeat split; try lia. by rewrite remove_then_add.
Qed.

Lemma clients_wait_timeout p w :
  Pool.clients (Pool.wait_timeout p w) = Pool.clients w.
Proof using Type.
  unfold Pool.wait_timeout. rewrite clients_settle. by case_match.
Qed.

(** A timer going off removes at most one connection from the available
    list. *)
Lemma fire_keeps id w :
  same_settings w (fire id w)
  ∧ dom (Pool.clients (fire id w)) = dom (Pool.clients w)
  ∧ stats_le (Pool.stats (Pool.self w)) (Pool.stats (Pool.self (fire id w)))
  ∧ tracked (fire id w) ⊆ tracked w.
Proof using Type.
  unfold Pool.fire.
  destruct (Pool.timers w !! id) as [[cb d []]|];
    try (split; [apply same_settings_refl|];
         split; [done|]; split; [apply stats_le_refl|done]).
  destruct cb as [p|c].
  - unfold PoolApi.tracked, PoolApi.same_settings, PoolApi.stats_le,
      Pool.wait_timeout.
    rewrite self_settle, clients_settle.
    destruct (Pool.indexOf _ _); simpl; repeat split; try lia; done.
  - unfold PoolApi.tracked, PoolApi.same_settings, PoolApi.stats_le,
      Pool.idle_timeout, Pool.disconnect_client. simpl.
    destruct (Pool.indexOf _ c) as [index|]; simpl;
      [|repeat split; try lia; done].
    assert (list_to_set (delete index (Pool.availableConnections (Pool.self w)))
              ∪ Pool.activeConnections (Pool.self w)
            ⊆ list_to_set (Pool.availableConnections (Pool.self w))
              ∪ Pool.activeConnections (Pool.self w)) as Hsub.
    { intros x. rewrite !elem_of_union, !elem_of_list_to_set.
      intros [Hx|Hx]; [left|by right].
      by apply list_elem_of_delete_inv in Hx. }
    destruct (disconnect_error c); simpl; repeat split; try lia; try done.
    by rewrite dom_alter_L.
Qed.

Lemma destroy_one_keeps w c :
  let w' := Pool.destroy_one disconnect_error w c in
  same_settings w w'
  ∧ dom (Pool.clients w') = dom (Pool.clients w)
  ∧ stats_le (Pool.stats (Pool.self w)) (Pool.stats (Pool.self w')).
Proof using Type.
  unfold Pool.destroy_one, Pool.disconnect_client, PoolApi.same_settings,
    PoolApi.stats_le.
  destruct (disconnect_error c); simpl; repeat split; try lia.
  by rewrite dom_alter_L.
Qed.

Lemma destroy_each_keeps l : ∀ w,
  let w' := foldl (Pool.destroy_one disconnect_error) w l in
  same_settings w w'
  ∧ dom (Pool.clients w') = dom (Pool.clients w)
  ∧ stats_le (Pool.stats (Pool.self w)) (Pool.stats (Pool.self w')).
Proof using Type.
  induction l as [|c l IH]; intros w; simpl.
  - split; [apply same_settings_refl|]. split; [done|apply stats_le_refl].
  - destruct (IH (Pool.destroy_one disconnect_error w c)) as (Hs & Hd & Hle).
    destruct (destroy_one_keeps w c) as (Hs1 & Hd1 & Hle1).
    split; [by eapply same_settings_trans|].
    split; [by rewrite Hd, Hd1|by eapply stats_le_trans].
Qed.

(** [destroy()] forgets every connection and every client object stays. *)
Lemma destroy_keeps w :
  same_settings w (destroy w).1
  ∧ dom (Pool.clients (destroy w).1) = dom (Pool.clients w)
  ∧ stats_le (Pool.stats (Pool.self w)) (Pool.stats (Pool.self (destroy w).1))
  ∧ tracked (destroy w).1 = ∅.
Proof using Type.
  unfold Pool.destroy. simpl.
  match goal with |- context [foldl (Pool.destroy_one _) ?w0 ?l] =>
    destruct (destroy_each_keeps l w0) as (Hs & Hd & Hle) end.
  unfold PoolApi.same_settings, PoolApi.stats_le, PoolApi.tracked in *.
  simpl in *. rewrite !reject_all_self, ?reject_all_clients in *. simpl in *.
  repeat split; plain_tauto.
Qed.

(** [acquire()] moves a connection, or makes a new one while fewer than
    [maxConnections] are active and none is available, or waits. *)
Lemma acquire_keeps w :
  same_settings w (acquire w).1
  ∧ dom (Pool.clients w) ⊆ dom (Pool.clients (acquire w).1)
  ∧ stats_le (Pool.stats (Pool.self w)) (Pool.stats (Pool.self (acquire w).1))
  ∧ (tracked w ⊆ dom (Pool.clients w) →
     tracked (acquire w).1 ⊆ dom (Pool.clients (acquire w).1))
  ∧ (size (tracked w) ≤ Pool.maxConnections (Pool.self w) →
     size (tracked (acquire w).1) ≤ Pool.maxConnections (Pool.self w)).
Proof using Type.
  unfold PoolApi.tracked, PoolApi.same_settings, PoolApi.stats_le, Pool.acquire.
  simpl.
  destruct (Pool.availableConnections (Pool.self w)) as [|c rest] eqn:Hav; simpl.
  - destruct (decide (size _ < _)) as [Hlt|Hge].
    + destruct (createConnection_cases (Pool.on_self Pool.incr_acquired w))
        as [[client Hc]|(client & cause & Hc)];
        rewrite Hc; simpl; rewrite Hav; simpl; rewrite dom_insert_L;
        repeat split; try lia.
      * apply union_subseteq_r.
      * intros Hsub x. rewrite !elem_of_union, !elem_of_singleton, elem_of_empty.
        intros [[Hx|[]]|[Hx|Hx]]; [by left|right|by left].
        apply Hsub. by apply elem_of_union_r.
      * intros _.
        transitivity (size (Pool.activeConnections (Pool.self w) ∪
                            {[fresh (dom (Pool.clients w))]})).
        { apply subseteq_size. intros x.
          rewrite !elem_of_union, !elem_of_singleton, elem_of_empty. plain_tauto. }
        rewrite size_union_alt.
        pose proof (subseteq_size
                      ({[fresh (dom (Pool.clients w))]}
                         ∖ Pool.activeConnections (Pool.self w))
                      {[fresh (dom (Pool.clients w))]}) as Hone.
        rewrite size_singleton in Hone.
        assert ({[fresh (dom (Pool.clients w))]}
                  ∖ Pool.activeConnections (Pool.self w)
                ⊆ ({[fresh (dom (Pool.clients w))]} : gset nat)) as Hsub.
        { intros x. rewrite elem_of_difference. plain_tauto. }
        specialize (Hone Hsub). lia.
      * apply union_subseteq_r.
      * intros Hsub x Hx. apply elem_of_union_r, Hsub. done.
    + simpl. rewrite Hav. simpl. repeat split; try lia; done.
  - repeat split; try lia; try done.
    + intros Hsub x. rewrite !elem_of_union.
      intros Hx. apply Hsub. rewrite !elem_of_union. plain_tauto.
    + intros Hbound. etransitivity; [|exact Hbound].
      apply subseteq_size. intros x. rewrite !elem_of_union. plain_tauto.
Qed.

(** [initialize()] and its logins make client objects and append to the
    available list. *)
Lemma initialize_keeps w :
  same_settings w (initialize_settled w)
  ∧ dom (Pool.clients w) ⊆ dom (Pool.clients (initialize_settled w))
  ∧ stats_le (Pool.stats (Pool.self w))
             (Pool.stats (Pool.self (initialize_settled w)))
  ∧ (tracked w ⊆ dom (Pool.clients w) →
     tracked (initialize_settled w) ⊆ dom (Pool.clients (initialize_settled w))).
Proof using Type.
  set (Q := λ w' : Pool.World num,
         same_settings w w'
         ∧ dom (Pool.clients w) ⊆ dom (Pool.clients w')
         ∧ stats_le (Pool.stats (Pool.self w)) (Pool.stats (Pool.self w'))
         ∧ (tracked w ⊆ dom (Pool.clients w) → tracked w' ⊆ dom (Pool.clients w'))).
  assert (Q (initialize_in_flight w).1.1 ∧ Q (initialize_settled w)) as [_ H];
    [|exact H].
  apply initialize_invariant; unfold Q.
  - intros l message w0 H. exact H.
  - intros w0 (Hs & Hd & Hle & Ht). unfold Pool.start_connection. simpl.
    rewrite dom_insert_L.
    split; [exact Hs|]. split; [|split; [exact Hle|]].
    + etransitivity; [exact Hd|]. apply union_subseteq_r.
    + intros Hsub. etransitivity; [by apply Ht|]. apply union_subseteq_r.
  - intros c w0 (Hs & Hd & Hle & Ht).
    assert (same_settings w0 (finish_connection c w0).1
            ∧ dom (Pool.clients w0) ⊆ dom (Pool.clients (finish_connection c w0).1)
            ∧ stats_le (Pool.stats (Pool.self w0))
                       (Pool.stats (Pool.self (finish_connection c w0).1))
            ∧ (tracked w0 ⊆ dom (Pool.clients w0) →
               tracked (finish_connection c w0).1
                 ⊆ dom (Pool.clients (finish_connection c w0).1)))
      as (Hs1 & Hd1 & Hle1 & Ht1).
    { unfold PoolApi.tracked, PoolApi.same_settings, PoolApi.stats_le.
      destruct (finish_connection_cases mul pow transport c w0)
        as [[client ->]|(client & cause & ->)];
        simpl; rewrite dom_insert_L;
        repeat split; try lia; try apply union_subseteq_r.
      - intros Hsub x.
        rewrite list_to_set_snoc_L, !elem_of_union, elem_of_singleton.
        intros [[Hx|Hx]|Hx]; [right|by left|right];
          apply Hsub, elem_of_union; plain_tauto.
      - intros Hsub x Hx. apply elem_of_union_r, Hsub. done. }
    split; [by eapply same_settings_trans|].
    split; [by etransitivity|].
    split; [by eapply stats_le_trans|auto].
  - split; [apply same_settings_refl|]. split; [done|].
    split; [apply stats_le_refl|done].
Qed.

(** ** Along every history *)

Lemma step_keeps w op :
  same_settings w (step w op)
  ∧ dom (Pool.clients w) ⊆ dom (Pool.clients (step w op))
  ∧ stats_le (Pool.stats (Pool.self w)) (Pool.stats (Pool.self (step w op)))
  ∧ (tracked w ⊆ dom (Pool.clients w) →
     tracked (step w op) ⊆ dom (Pool.clients (step w op))).
Proof using Type.
  destruct op as [| |c|id|]; unfold Pool.step.
  - apply initialize_keeps.
  - destruct (acquire_keeps w) as (? & ? & ? & ? & _). done.
  - destruct (release_keeps c w) as (? & Hcl & ? & Htr).
    rewrite Hcl, Htr. done.
  - destruct (fire_keeps id w) as (Hs & Hd & Hle & Htr).
    split; [done|]. split; [by rewrite Hd|]. split; [done|].
    intros Hsub. rewrite Hd. by etransitivity.
  - destruct (destroy_keeps w) as (Hs & Hd & Hle & Htr).
    split; [done|]. split; [by rewrite Hd|]. split; [done|].
    intros _. rewrite Htr. apply empty_subseteq.
Qed.

Lemma step_bound w op :
  op ≠ Pool.Initialize →
  size (tracked w) ≤ Pool.maxConnections (Pool.self w) →
  size (tracked (step w op)) ≤ Pool.maxConnections (Pool.self w).
Proof using Type.
  intros Hop Hbound. destruct op as [| |c|id|]; unfold Pool.step; [done|..].
  - by apply acquire_keeps.
  - destruct (release_keeps c w) as (_ & _ & _ & ->). done.
  - destruct (fire_keeps id w) as (_ & _ & _ & Hsub).
    apply subseteq_size in Hsub. lia.
  - destruct (destroy_keeps w) as (_ & _ & _ & ->).
    rewrite size_empty. lia.
Qed.

(** X8.  Without [initialize()], and as long as every call is finished
    before the next one starts, the pool never holds more than
    [maxConnections] different connections: if the connections of the
    available list and of the active set, each counted once, are at most
    [maxConnections], they still are after any sequence of [acquire()],
    [release()], [destroy()] and timers going off. *)
Theorem tracked_never_exceeds_max history : ∀ w,
  Forall (λ op, op ≠ Pool.Initialize) history →
  size (tracked w) ≤ Pool.maxConnections (Pool.self w) →
  size (tracked (run history w)) ≤ Pool.maxConnections (Pool.self w).
Proof using Type.
  induction history as [|op history IH]; intros w Hops Hbound; simpl; [done|].
  apply Forall_cons in Hops as [Hop Hops].
  destruct (step_keeps w op) as ((_ & _ & Hmax & _) & _).
  rewrite <- Hmax. apply IH; [done|].
  rewrite Hmax. by apply step_bound.
Qed.

(** X9.  The pool only ever holds connections it has made: if every
    connection of the available list and of the active set is a client
    object of the pool, this is still so after any history (of calls each
    finished before the next one starts); a connection passed to
    [release()] that the pool does not know never gets in. *)
Theorem tracked_are_clients history : ∀ w,
  tracked w ⊆ dom (Pool.clients w) →
  tracked (run history w) ⊆ dom (Pool.clients (run history w)).
Proof using Type.
  induction history as [|op history IH]; intros w Hsub; simpl; [done|].
  apply IH. by apply step_keeps.
Qed.

Lemma destroy_each_calls l : ∀ w,
  Pool.acquired (Pool.stats (Pool.self (foldl (Pool.destroy_one disconnect_error) w l))) =
    Pool.acquired (Pool.stats (Pool.self w))
  ∧ Pool.released (Pool.stats (Pool.self (foldl (Pool.destroy_one disconnect_error) w l))) =
    Pool.released (Pool.stats (Pool.self w)).
Proof using Type.
  induction l as [|c l IH]; intros w; simpl; [done|].
  destruct (IH (Pool.destroy_one disconnect_error w c)) as [-> ->].
  unfold Pool.destroy_one, Pool.disconnect_client.
  by destruct (disconnect_error c).
Qed.

(** The two counters that count calls. *)
Lemma step_calls w op :
  Pool.acquired (Pool.stats (Pool.self (step w op))) =
    Pool.acquired (Pool.stats (Pool.self w)) + PoolApi.acquire_calls [op]
  ∧ Pool.released (Pool.stats (Pool.self (step w op))) =
    Pool.released (Pool.stats (Pool.self w)) + PoolApi.release_calls [op].
Proof using Type.
  destruct op as [| |c|id|]; unfold Pool.step; simpl;
    rewrite ?Nat.add_0_r, ?Nat.add_1_r.
  - destruct (initialize_frame mul pow transport login_order w
                (initialize_settled w)) as (_ & _ & -> & -> & _); [by right|done].
  - unfold Pool.acquire. simpl.
    destruct (Pool.availableConnections (Pool.self w)); simpl; [|done].
    destruct (decide _); simpl; [|done].
    destruct (createConnection_frame mul pow transport
                (Pool.on_self Pool.incr_acquired w)) as (_ & _ & Ha & Hr & _).
    destruct (Pool._createConnection _ _ _ _) as [w1 [c|e]]; simpl in *;
      by rewrite Ha, Hr.
  - unfold Pool.release. simpl. destruct (decide _); simpl; [done|].
    destruct (Pool.connectionQueue (Pool.self w)); simpl.
    + by rewrite self_setIdleTimeout.
    + by rewrite self_call.
  - unfold Pool.fire.
    destruct (Pool.timers w !! id) as [[cb d []]|]; try done.
    destruct cb as [p|c].
    + unfold Pool.wait_timeout. rewrite self_settle. by case_match.
    + unfold Pool.idle_timeout, Pool.disconnect_client. simpl.
      destruct (Pool.indexOf _ c); [|done]. by destruct (disconnect_error c).
  - unfold Pool.destroy. simpl.
    match goal with |- context [foldl (Pool.destroy_one _) ?w0 ?l] =>
      destruct (destroy_each_calls l w0) as [-> ->] end.
    simpl. by rewrite !reject_all_self.
Qed.

(** X10.  The statistics only grow: after any history (of calls each
    finished before the next one starts) no counter is smaller than before.  [acquired] has grown by the number of [acquire()] calls
    and [released] by the number of [release()] calls of the history,
    whether or not a call was served or was for a known connection. *)
Theorem counters_never_decrease history : ∀ w,
  stats_le (Pool.stats (Pool.self w)) (Pool.stats (Pool.self (run history w)))
  ∧ Pool.acquired (Pool.stats (Pool.self (run history w))) =
    Pool.acquired (Pool.stats (Pool.self w)) + PoolApi.acquire_calls history
  ∧ Pool.released (Pool.stats (Pool.self (run history w))) =
    Pool.released (Pool.stats (Pool.self w)) + PoolApi.release_calls history.
Proof using Type.
  induction history as [|op history IH]; intros w; simpl.
  - rewrite !Nat.add_0_r. split; [apply stats_le_refl|done].
  - destruct (IH (step w op)) as (Hle & Ha & Hr).
    destruct (step_keeps w op) as (_ & _ & Hle1 & _).
    destruct (step_calls w op) as (Ha1 & Hr1).
    split; [by eapply stats_le_trans|].
    rewrite Ha, Hr, Ha1, Hr1.
    unfold PoolApi.acquire_calls, PoolApi.release_calls. simpl.
    destruct op; simpl; lia.
Qed.

(** ** [connect()], [isConnected()], [disconnect()] of the pool *)

Lemma isConnected_false w :
  PoolApi.isConnected w = false ↔
  length (Pool.availableConnections (Pool.self w)) = 0
  ∧ size (Pool.activeConnections (Pool.self w)) = 0.
Proof using Type.
  unfold PoolApi.isConnected.
  rewrite orb_false_iff, !bool_decide_eq_false. lia.
Qed.

Lemma isConnected_true w :
  PoolApi.isConnected w = true ↔
  0 < length (Pool.availableConnections (Pool.self w))
  ∨ 0 < size (Pool.activeConnections (Pool.self w)).
Proof using Type.
  unfold PoolApi.isConnected.
  by rewrite orb_true_iff, !bool_decide_eq_true.
Qed.

(** X7.  [connect()] of the pool initializes it only when it holds no
    connection at all.  On a pool that holds one it does nothing.  On an
    empty pool with [minConnections > 0] and a server that lets connections
    in, it returns normally with [minConnections] available connections,
    [isConnected()] is true afterwards, and a second [connect()] does
    nothing.  After [disconnect()] the pool holds no connection and
    [isConnected()] is false. *)
Theorem pool_connect_once w :
  (PoolApi.isConnected w = true →
   PoolApi.connect mul pow transport login_order w = (w, Return tt))
  ∧ (PoolApi.isConnected w = false →
     0 < Pool.minConnections (Pool.self w) →
     server_accepts (Pool.retry (Pool.config (Pool.self w))) →
     (PoolApi.connect mul pow transport login_order w).2 = Return tt
     ∧ length (Pool.availableConnections
                 (Pool.self (PoolApi.connect mul pow transport login_order w).1)) =
       Pool.minConnections (Pool.self w)
     ∧ PoolApi.isConnected (PoolApi.connect mul pow transport login_order w).1 = true
     ∧ PoolApi.connect mul pow transport login_order (PoolApi.connect mul pow transport login_order w).1 =
       ((PoolApi.connect mul pow transport login_order w).1, Return tt))
  ∧ PoolApi.isConnected (PoolApi.disconnect disconnect_error w).1 = false.
Proof using Type.
  assert (∀ w', PoolApi.isConnected w' = true →
                PoolApi.connect mul pow transport login_order w' = (w', Return tt)) as Hnoop.
  { intros w' Hcon. apply isConnected_true in Hcon.
    unfold PoolApi.connect. destruct (decide _) as [[? ?]|]; [lia|done]. }
  split; [apply Hnoop|]. split.
  - intros Hcon Hmin Hserver. pose proof Hcon as Hempty.
    apply isConnected_false in Hempty.
    destruct (initialize_on_accepting_server w Hserver)
      as (cs & Hres & Hav & Hlen & _).
    assert (PoolApi.connect mul pow transport login_order w = initialize w) as ->.
    { unfold PoolApi.connect. by destruct (decide _). }
    assert (length (Pool.availableConnections (Pool.self (initialize w).1)) =
            Pool.minConnections (Pool.self w)) as Hlen'.
    { rewrite Hav, length_app. lia. }
    assert (PoolApi.isConnected (initialize w).1 = true) as Hnow.
    { apply isConnected_true. lia. }
    auto.
  - apply isConnected_false. unfold PoolApi.disconnect.
    destruct (destroy_clears disconnect_error w) as (_ & _ & -> & -> & _).
    by rewrite size_empty.
Qed.

(** ** A destroyed pool is not closed *)

(** [acquire()] making a connection on a server that lets it in. *)
Lemma acquire_creates w k u :
  Pool.availableConnections (Pool.self w) = [] →
  size (Pool.activeConnections (Pool.self w)) < Pool.maxConnections (Pool.self w) →
  OdooRpc.first_success (Pool.retry (Pool.config (Pool.self w)))
                        (transport (fresh (dom (Pool.clients w)))) k u →
  (acquire w).2 = Pool.Settled (Return (fresh (dom (Pool.clients w))))
  ∧ Pool.activeConnections (Pool.self (acquire w).1) =
    Pool.activeConnections (Pool.self w) ∪ {[fresh (dom (Pool.clients w))]}
  ∧ Pool.clients (acquire w).1 =
    <[fresh (dom (Pool.clients w)) := online u]> (Pool.clients w).
Proof using Type.
  intros Hav Hlt Hfirst. unfold Pool.acquire. simpl. rewrite Hav.
  destruct (decide _) as [_|?]; [|done].
  rewrite (createConnection_accepted (Pool.on_self Pool.incr_acquired w) k u)
    by done.
  done.
Qed.

(** X12.  [destroy()] does not close the pool.  Afterwards [isConnected()]
    is false, and (with [maxConnections > 0] and a server that lets the
    connection in) the next [acquire()] is served with a newly made
    connection, which is connected and in the active set. *)
Theorem destroy_does_not_close w k u :
  0 < Pool.maxConnections (Pool.self w) →
  OdooRpc.first_success (Pool.retry (Pool.config (Pool.self w)))
                        (transport (fresh (dom (Pool.clients w)))) k u →
  PoolApi.isConnected (destroy w).1 = false
  ∧ (acquire (destroy w).1).2 =
    Pool.Settled (Return (fresh (dom (Pool.clients w))))
  ∧ (fresh (dom (Pool.clients w)) ∉ dom (Pool.clients w))
  ∧ Pool.activeConnections (Pool.self (acquire (destroy w).1).1) =
    {[fresh (dom (Pool.clients w))]}
  ∧ Pool.clients (acquire (destroy w).1).1 !! fresh (dom (Pool.clients w)) =
    Some (online u).
Proof using Type.
  intros Hmax Hfirst.
  destruct (destroy_clears disconnect_error w) as (_ & _ & Hav & Hact & _).
  destruct (destroy_keeps w) as ((Hcfg & _ & Hmax' & _) & Hdom & _).
  destruct (acquire_creates (destroy w).1 k u) as (Hres & Hact' & Hcl).
  - done.
  - rewrite Hact, size_empty, Hmax'. done.
  - by rewrite Hcfg, Hdom.
  - rewrite Hdom in Hres, Hact', Hcl.
    split; [apply isConnected_false; by rewrite Hav, Hact, size_empty|].
    split; [done|]. split; [apply is_fresh|].
    split; [by rewrite Hact', Hact, union_empty_l_L|].
    by rewrite Hcl, lookup_insert_eq.
Qed.

(** ** The verbs of the pool *)

Local Abbreviation sent model method params kwargs :=
  ({| OdooRpc.model := model; OdooRpc.method := method;
      OdooRpc.params := params;
      OdooRpc.kwargs := if decide (kwargs = ∅) then None else Some kwargs |}).

(** X11.  [execute_kw] of the pool, when a connection [c] is available, is
    connected, and nobody waits: the request is sent on [c], the answer of
    the server is the result, and an error of the server comes back wrapped
    into "Failed to execute model.method".  In both cases [c] is back in
    the pool afterwards, at the end of the available list; the active set
    and the clients are as before, and [acquired] and [released] have both
    grown by one. *)
Theorem pool_execute_kw_reuses model method params kwargs w c rest client :
  Pool.availableConnections (Pool.self w) = c :: rest →
  c ∉ Pool.activeConnections (Pool.self w) →
  Pool.connectionQueue (Pool.self w) = [] →
  Pool.clients w !! c = Some client →
  OdooRpc.ready client →
  let out := PoolApi.execute_kw mul pow transport rpc
                                model method params kwargs w in
  out.2 =
    Pool.Settled
      match rpc (sent model method params kwargs) with
      | inr result => Return result
      | inl error =>
          Throw (OdooConnectionError
                   ("Failed to execute " +:+ model +:+ "." +:+ method)
                   (Some error))
      end
  ∧ Pool.availableConnections (Pool.self out.1) = rest ++ [c]
  ∧ Pool.activeConnections (Pool.self out.1) = Pool.activeConnections (Pool.self w)
  ∧ Pool.clients out.1 = Pool.clients w
  ∧ Pool.acquired (Pool.stats (Pool.self out.1)) =
    S (Pool.acquired (Pool.stats (Pool.self w)))
  ∧ Pool.released (Pool.stats (Pool.self out.1)) =
    S (Pool.released (Pool.stats (Pool.self w))).
Proof using Type.
  intros Hav Hc Hq Hcl Hready.
  unfold PoolApi.execute_kw, Pool.withConnection, Pool.acquire. simpl.
  rewrite Hav. simpl.
  unfold Pool.use_connection, PoolApi.on_connection. simpl. rewrite Hcl.
  pose proof (connect_ready mul pow (Pool.retry (Pool.config (Pool.self w)))
                            (transport c) client Hready) as Hconn.
  destruct Hready as (_ & _ & Hodoo).
  rewrite (execute_kw_connected _ _ _ _ rpc _ _ _ _ _ _ Hconn Hodoo).
  assert (∀ w0 : Pool.World num,
            Pool.availableConnections (Pool.self w0) = rest →
            Pool.activeConnections (Pool.self w0) =
              Pool.activeConnections (Pool.self w) ∪ {[c]} →
            Pool.connectionQueue (Pool.self w0) = [] →
            Pool.availableConnections (Pool.self (Pool.release c w0)) = rest ++ [c]
            ∧ Pool.activeConnections (Pool.self (Pool.release c w0)) =
              Pool.activeConnections (Pool.self w)
            ∧ Pool.clients (Pool.release c w0) = Pool.clients w0
            ∧ Pool.acquired (Pool.stats (Pool.self (Pool.release c w0))) =
              Pool.acquired (Pool.stats (Pool.self w0))
            ∧ Pool.released (Pool.stats (Pool.self (Pool.release c w0))) =
              S (Pool.released (Pool.stats (Pool.self w0)))) as Hrelease.
  { intros w0 Hav0 Hact0 Hq0. unfold Pool.release. simpl.
    destruct (decide (c ∉ _)) as [Hnot|_].
    { destruct Hnot. rewrite Hact0. by apply elem_of_union_r, elem_of_singleton. }
    simpl. rewrite Hq0. simpl.
    rewrite self_setIdleTimeout, clients_setIdleTimeout. simpl.
    rewrite Hav0, Hact0. repeat split.
    apply set_eq. intros x.
    rewrite elem_of_difference, elem_of_union, elem_of_singleton.
    destruct (decide (x = c)) as [Heq|Hne]; [rewrite Heq|]; plain_tauto. }
  destruct (rpc _) as [error|result]; simpl; rewrite (insert_id _ _ _ Hcl);
    match goal with |- context [Pool.release c ?w0] =>
      destruct (Hrelease w0) as (Ha & Hb & Hcc & Hd & He); try done
    end; rewrite Ha, Hb, Hcc, Hd, He; done.
Qed.

(** ** Waiters and their timers *)

(** A cleared timer is not scheduled. *)
Lemma clearTimeout_unschedules id w cb d :
  Pool.timers (Pool.clearTimeout id w) !! id ≠
  Some {| Pool.timer_callback := cb; Pool.timer_delay := d;
          Pool.timer_status := Pool.Scheduled |}.
Proof using Type.
  unfold Pool.clearTimeout.
  destruct (Pool.timers w !! id) as [[cb' d' []]|] eqn:Hid; simpl;
    rewrite ?lookup_insert_eq, ?Hid; congruence.
Qed.

(** A timer that is not scheduled does nothing. *)
Lemma fire_unscheduled id w :
  (∀ cb d, Pool.timers w !! id ≠
           Some {| Pool.timer_callback := cb; Pool.timer_delay := d;
                   Pool.timer_status := Pool.Scheduled |}) →
  fire id w = w.
Proof using Type.
  intros Hid. unfold Pool.fire.
  destruct (Pool.timers w !! id) as [[cb d []]|]; try done.
  by destruct (Hid cb d).
Qed.

(** X13.  A waiter that has been served cannot time out any more.  When
    [release()] hands a connection to the waiter at the head of the queue,
    the waiter's pending promise is resolved with that connection, and its
    timer is cleared: the timer going off later changes nothing, and the
    promise stays resolved. *)
Theorem served_waiter_cannot_time_out c p timeout rest w :
  c ∈ Pool.activeConnections (Pool.self w) →
  Pool.connectionQueue (Pool.self w) = Pool.WaitCallback p timeout :: rest →
  Pool.promises w !! p = Some Pool.Pending →
  Pool.promises (Pool.release c w) !! p = Some (Pool.Resolved (Some c))
  ∧ fire timeout (Pool.release c w) = Pool.release c w
  ∧ Pool.promises (fire timeout (Pool.release c w)) !! p =
    Some (Pool.Resolved (Some c)).
Proof using Type.
  intros Hc Hq Hp.
  assert (Pool.promises (Pool.release c w) !! p = Some (Pool.Resolved (Some c)))
    as Hdone.
  { destruct (release_to_waiter c _ _ w Hc Hq) as (_ & _ & _ & ->).
    simpl. rewrite settle_pending by (by rewrite promises_clearTimeout).
    by rewrite lookup_insert_eq. }
  assert (fire timeout (Pool.release c w) = Pool.release c w) as Hfire.
  { apply fire_unscheduled. intros cb d.
    unfold Pool.release. simpl.
    destruct (decide (c ∉ _)) as [?|_]; [done|]. simpl. rewrite Hq. simpl.
    rewrite timers_settle. apply clearTimeout_unschedules. }
  by rewrite Hfire.
Qed.

(** X14.  A [withConnection(fn)] that finds the pool exhausted waits for a
    new promise, guarded by a timer of [connectionTimeoutMillis] (10000
    when that is not set).  If the timer goes off first, the call fails
    with "Timeout waiting for available connection"; [fn] is not run and
    nothing is released. *)
Theorem queued_withConnection_times_out {R : Type}
    (fn : nat → Pool.World num → Pool.World num * Completion R) w :
  Pool.availableConnections (Pool.self w) = [] →
  ¬ size (Pool.activeConnections (Pool.self w)) < Pool.maxConnections (Pool.self w) →
  ∃ p id,
    let w1 := (Pool.withConnection mul pow transport fn w).1 in
    (Pool.withConnection mul pow transport fn w).2 = Pool.Awaiting p
    ∧ Pool.timers w1 !! id =
      Some {| Pool.timer_callback := Pool.WaitTimeout p;
              Pool.timer_delay :=
                Pool.or_default_ms
                  (Pool.connectionTimeoutMillis
                     (Pool.pool (Pool.config (Pool.self w)))) 10000;
              Pool.timer_status := Pool.Scheduled |}
    ∧ Pool.withConnection_resume fn p (fire id w1) =
      (fire id w1,
       Pool.Settled (Throw (OdooConnectionError
                              "Timeout waiting for available connection" None)))
    ∧ Pool.released (Pool.stats (Pool.self (fire id w1))) =
      Pool.released (Pool.stats (Pool.self w)).
Proof using Type.
  intros Hav Hfull.
  exists (fresh (dom (Pool.promises w))), (fresh (dom (Pool.timers w))).
  unfold Pool.withConnection, Pool.acquire. simpl. rewrite Hav.
  destruct (decide _) as [?|_]; [done|]. simpl.
  split; [done|]. split; [by rewrite lookup_insert_eq|].
  unfold Pool.fire. simpl. rewrite lookup_insert_eq. simpl.
  assert (∀ w0 : Pool.World num,
            Pool.promises w0 !! fresh (dom (Pool.promises w)) = Some Pool.Pending →
            Pool.promises (Pool.wait_timeout (fresh (dom (Pool.promises w))) w0)
              !! fresh (dom (Pool.promises w)) =
            Some (Pool.Rejected (OdooConnectionError
                                   "Timeout waiting for available connection" None))
            ∧ Pool.released (Pool.stats (Pool.self
                (Pool.wait_timeout (fresh (dom (Pool.promises w))) w0))) =
              Pool.released (Pool.stats (Pool.self w0))) as Htimeout.
  { intros w0 Hp. unfold Pool.wait_timeout. rewrite self_settle. split.
    - rewrite settle_pending.
      + by rewrite lookup_insert_eq.
      + by case_match.
    - by case_match. }
  match goal with |- context [Pool.wait_timeout _ ?w0] =>
    destruct (Htimeout w0) as [Hrej Hrel] end.
  { simpl. by rewrite lookup_insert_eq. }
  unfold Pool.withConnection_resume. rewrite Hrej, Hrel. done.
Qed.

(** ** The available list is a queue *)

Lemma release_to_pool c w :
  c ∈ Pool.activeConnections (Pool.self w) →
  Pool.connectionQueue (Pool.self w) = [] →
  Pool.availableConnections (Pool.self (Pool.release c w)) =
    Pool.availableConnections (Pool.self w) ++ [c]
  ∧ Pool.activeConnections (Pool.self (Pool.release c w)) =
    Pool.activeConnections (Pool.self w) ∖ {[c]}
  ∧ Pool.connectionQueue (Pool.self (Pool.release c w)) = [].
Proof using Type.
  intros Hc Hq. unfold Pool.release. simpl.
  destruct (decide (c ∉ _)) as [?|_]; [done|]. simpl. rewrite Hq. simpl.
  by rewrite self_setIdleTimeout.
Qed.

Lemma release_all_to_pool cs : ∀ w,
  Pool.connectionQueue (Pool.self w) = [] →
  NoDup cs →
  Forall (λ c, c ∈ Pool.activeConnections (Pool.self w)) cs →
  Pool.availableConnections (Pool.self (Pool.release_all cs w)) =
    Pool.availableConnections (Pool.self w) ++ cs
  ∧ Pool.activeConnections (Pool.self (Pool.release_all cs w)) =
    Pool.activeConnections (Pool.self w) ∖ list_to_set cs
  ∧ Pool.connectionQueue (Pool.self (Pool.release_all cs w)) = [].
Proof using Type.
  induction cs as [|c cs IH]; intros w Hq Hnd Hact; simpl.
  - rewrite app_nil_r, difference_empty_L. done.
  - apply NoDup_cons in Hnd as [Hc Hnd].
    apply Forall_cons in Hact as [Hin Hact].
    destruct (release_to_pool c w Hin Hq) as (Hav1 & Hact1 & Hq1).
    destruct (IH (Pool.release c w)) as (Hav2 & Hact2 & Hq2); [done..| |].
    + rewrite Forall_forall in Hact |- *. intros x Hx.
      rewrite Hact1, elem_of_difference, elem_of_singleton.
      split; [by apply Hact|]. intros ->. done.
    + unfold Pool.release_all in *. rewrite Hav2, Hact2, Hq2, Hav1, Hact1.
      rewrite <- app_assoc. repeat split.
      apply set_eq. intros x.
      rewrite !elem_of_difference, elem_of_union, elem_of_singleton. plain_tauto.
Qed.

(** X15.  The available list is used as a queue.  Released connections
    (different ones, all active, while nobody waits) are appended to it in
    the order of their release and leave the active set; the next
    [acquire()] takes the connection at the front, which is the one that
    has been available for the longest time. *)
Theorem available_list_is_fifo cs w :
  Pool.connectionQueue (Pool.self w) = [] →
  NoDup cs →
  Forall (λ c, c ∈ Pool.activeConnections (Pool.self w)) cs →
  Pool.availableConnections (Pool.self (Pool.release_all cs w)) =
    Pool.availableConnections (Pool.self w) ++ cs
  ∧ Pool.activeConnections (Pool.self (Pool.release_all cs w)) =
    Pool.activeConnections (Pool.self w) ∖ list_to_set cs
  ∧ ∀ c rest,
      Pool.availableConnections (Pool.self w) ++ cs = c :: rest →
      (acquire (Pool.release_all cs w)).2 = Pool.Settled (Return c)
      ∧ Pool.availableConnections (Pool.self (acquire (Pool.release_all cs w)).1) =
        rest.
Proof using Type.
  intros Hq Hnd Hact.
  destruct (release_all_to_pool cs w Hq Hnd Hact) as (Hav & Hact' & _).
  split; [done|]. split; [done|].
  intros c rest Hfront. rewrite Hfront in Hav.
  destruct (acquire_reuse mul pow transport c rest _ Hav) as (? & ? & _). done.
Qed.

End PoolMore.

(** * The singleton and [resetInstance] *)

Section Reset.
Context {num : Type}.
Variable disconnect_error : nat → option JSError.
Implicit Types (w : Pool.World num) (c p : nat).

Local Abbreviation destroy := (Pool.destroy disconnect_error).
Local Abbreviation destroy_begin := (Pool.destroy_begin disconnect_error).
Local Abbreviation destroy_end := (Pool.destroy_end disconnect_error).
Local Abbreviation resetInstance := (PoolStatic.resetInstance disconnect_error).
Local Abbreviation disconnect_each :=
  (foldl (λ w c, (Pool.disconnect_client disconnect_error c w).1)).
Local Abbreviation count_each := (foldl (Pool.destroy_count disconnect_error)).
Local Abbreviation closing :=
  (Pool.Rejected (OdooConnectionError "Connection pool is closing" None)).

(** ** [destroy()] in two parts *)

(** What the calls of [disconnect()] leave alone. *)
Lemma disconnect_each_frame l : ∀ w,
  Pool.self (disconnect_each w l) = Pool.self w
  ∧ Pool.promises (disconnect_each w l) = Pool.promises w
  ∧ Pool.timers (disconnect_each w l) = Pool.timers w
  ∧ Pool.log (disconnect_each w l) = Pool.log w.
Proof.
  induction l as [|c l IH]; intros w; simpl; [done|].
  destruct (IH (Pool.disconnect_client disconnect_error c w).1)
    as (-> & -> & -> & ->).
  unfold Pool.disconnect_client. by destruct (disconnect_error c).
Qed.

(** Counting a disconnection and disconnecting another client do not get
    in each other's way. *)
Lemma destroy_count_disconnect w c c' :
  (Pool.disconnect_client disconnect_error c'
     (Pool.destroy_count disconnect_error w c)).1 =
  Pool.destroy_count disconnect_error
    (Pool.disconnect_client disconnect_error c' w).1 c.
Proof.
  unfold Pool.destroy_count, Pool.disconnect_client.
  by destruct (disconnect_error c), (disconnect_error c').
Qed.

Lemma destroy_count_disconnect_each l : ∀ w c,
  disconnect_each (Pool.destroy_count disconnect_error w c) l =
  Pool.destroy_count disconnect_error (disconnect_each w l) c.
Proof.
  induction l as [|c' l IH]; intros w c; simpl; [done|].
  by rewrite destroy_count_disconnect, IH.
Qed.

(** The callbacks of [map], each run from its call to its end, amount to
    all the calls of [disconnect()] followed by all the countings. *)
Lemma destroy_each_parts l : ∀ w,
  foldl (Pool.destroy_one disconnect_error) w l =
  count_each (disconnect_each w l) l.
Proof.
  induction l as [|c l IH]; intros w; simpl; [done|].
  rewrite IH.
  assert (Pool.destroy_one disconnect_error w c =
          Pool.destroy_count disconnect_error
            (Pool.disconnect_client disconnect_error c w).1 c) as ->.
  { unfold Pool.destroy_one, Pool.destroy_count, Pool.disconnect_client.
    by destruct (disconnect_error c). }
  by rewrite destroy_count_disconnect_each.
Qed.

(** The two parts of [destroy()], run one after the other, are
    [destroy()]. *)
Lemma destroy_parts w :
  destroy_end (destroy_begin w).2 (destroy_begin w).1 = (destroy w).1.
Proof.
  unfold Pool.destroy, Pool.destroy_end, Pool.destroy_begin. simpl.
  by rewrite destroy_each_parts.
Qed.

(** The second part touches neither promises nor clients. *)
Lemma destroy_end_frame l w :
  Pool.promises (destroy_end l w) = Pool.promises w
  ∧ Pool.clients (destroy_end l w) = Pool.clients w.
Proof.
  unfold Pool.destroy_end. simpl.
  assert (∀ w0, Pool.promises (count_each w0 l) = Pool.promises w0
                ∧ Pool.clients (count_each w0 l) = Pool.clients w0) as Hcount.
  { induction l as [|c l IH]; intros w0; simpl; [done|].
    destruct (IH (Pool.destroy_count disconnect_error w0 c)) as [-> ->].
    unfold Pool.destroy_count. by destruct (disconnect_error c). }
  apply Hcount.
Qed.

(** What the first part has done to the pool itself: the queue is empty,
    and nothing else has changed yet. *)
Lemma destroy_begin_self w :
  Pool.self (destroy_begin w).1 = Pool.set_queue [] (Pool.self w).
Proof.
  unfold Pool.destroy_begin. simpl.
  match goal with |- context [disconnect_each ?w0 ?l] =>
    destruct (disconnect_each_frame l w0) as (-> & _) end.
  simpl. by rewrite reject_all_self.
Qed.

(** X17.  [resetInstance()] without an instance does nothing.  With an
    instance it calls [destroy()] on it, does not wait, and clears the
    static field.  When it returns, the old pool has run [destroy()] up to
    its [await]: (1) its queue is empty, every waiter whose promise was
    pending is rejected with "Connection pool is closing", and every
    connection whose [disconnect()] does not fail is disconnected: promises
    and clients are already as the whole [destroy()] leaves them; (2) its
    available list, active set and counters are still as they were; they
    are dealt with when [destroy()] goes on, which ends in the state
    [destroy()] gives; (3) the other pools are untouched; (4) [getInstance()]
    without a configuration throws again, and [getInstance(config)] makes a
    new pool from [config], another object than the old one. *)
Theorem resetInstance_then_getInstance (s : PoolStatic.Program num) :
  (PoolStatic.instance s = None → resetInstance s = s)
  ∧ (∀ r w,
       PoolStatic.instance s = Some r →
       PoolStatic.pools s !! r = Some w →
       let w' := (destroy_begin w).1 in
       PoolStatic.instance (resetInstance s) = None
       ∧ PoolStatic.pools (resetInstance s) !! r = Some w'
       ∧ (∀ r', r' ≠ r →
            PoolStatic.pools (resetInstance s) !! r' = PoolStatic.pools s !! r')
       ∧ Pool.connectionQueue (Pool.self w') = []
       ∧ (∀ p timeout,
            Pool.WaitCallback p timeout ∈ Pool.connectionQueue (Pool.self w) →
            Pool.PromiseResolve p ∉ Pool.connectionQueue (Pool.self w) →
            Pool.promises w !! p = Some Pool.Pending →
            Pool.promises w' !! p = Some closing)
       ∧ (∀ c client,
            c ∈ Pool.availableConnections (Pool.self w)
            ∨ c ∈ Pool.activeConnections (Pool.self w) →
            disconnect_error c = None →
            Pool.clients w !! c = Some client →
            ∃ client', Pool.clients w' !! c = Some client'
                       ∧ OdooClient.isConnected client' = false)
       ∧ Pool.promises w' = Pool.promises (destroy w).1
       ∧ Pool.clients w' = Pool.clients (destroy w).1
       ∧ Pool.availableConnections (Pool.self w') =
         Pool.availableConnections (Pool.self w)
       ∧ Pool.activeConnections (Pool.self w') = Pool.activeConnections (Pool.self w)
       ∧ Pool.stats (Pool.self w') = Pool.stats (Pool.self w)
       ∧ destroy_end (destroy_begin w).2 w' = (destroy w).1
       ∧ (Pool.getInstance None (PoolStatic.static (resetInstance s))).2 =
         Throw (Error
           "Config is required for first initialization of OdooConnectionPool")
       ∧ ∀ cfg, ∃ r',
           (Pool.getInstance (Some cfg) (PoolStatic.static (resetInstance s))).2 =
             Return r'
           ∧ r' ≠ r
           ∧ Pool.objects (Pool.getInstance (Some cfg)
                             (PoolStatic.static (resetInstance s))).1 !! r' =
             Some (Pool.construct cfg)
           ∧ Pool.objects (Pool.getInstance (Some cfg)
                             (PoolStatic.static (resetInstance s))).1 !! r =
             Some (Pool.self w')).
Proof.
  unfold PoolStatic.resetInstance. split.
  - by intros ->.
  - intros r w Hr Hw. cbv zeta. rewrite Hr.
    set (w' := (destroy_begin w).1). simpl.
    destruct (destroy_end_frame (destroy_begin w).2 w') as [Hpromises Hclients].
    rewrite destroy_parts in Hpromises, Hclients.
    pose proof (destroy_begin_self w) as Hself. fold w' in Hself.
    split; [done|].
    split; [by rewrite list_lookup_alter_eq, Hw|].
    split; [intros r' Hne; by rewrite list_lookup_alter_ne|].
    split; [by rewrite Hself|].
    split; [|split].
    { intros p timeout Hin Hnot Hp. rewrite <- Hpromises.
      unfold Pool.destroy. simpl. rewrite destroy_each_promises. simpl.
      by apply (reject_all_rejects _ _ p timeout). }
    { intros c client Hc Hok Hcl. rewrite <- Hclients.
      assert (c ∈ Pool.availableConnections (Pool.self w)
                  ++ elements (Pool.activeConnections (Pool.self w))) as Hin.
      { apply elem_of_app. rewrite elem_of_elements. done. }
      unfold Pool.destroy. simpl. rewrite !reject_all_self. simpl.
      match goal with |- context [foldl (Pool.destroy_one _) ?w0 ?l] =>
        destruct (destroy_each_disconnects disconnect_error l w0 c client Hin Hok)
          as (client' & Hcl' & Hoff)
      end.
      { simpl. by rewrite reject_all_clients. }
      exists client'. split; [done|].
      unfold OdooClient.isConnected. by rewrite Hoff. }
    split; [exact (eq_sym Hpromises)|]. split; [exact (eq_sym Hclients)|].
    split; [by rewrite Hself|]. split; [by rewrite Hself|].
    split; [by rewrite Hself|]. split; [apply destroy_parts|].
    split; [done|].
    intros cfg. exists (length (PoolStatic.pools s)).
    unfold Pool.getInstance, PoolStatic.static. simpl.
    assert (r < length (PoolStatic.pools s)) as Hlt by by eapply lookup_lt_Some.
    rewrite length_fmap, length_alter.
    split; [done|]. split; [lia|]. split.
    + rewrite lookup_app_r; rewrite length_fmap, length_alter; [|lia].
      by rewrite Nat.sub_diag.
    + rewrite lookup_app_l by (rewrite length_fmap, length_alter; lia).
      by rewrite list_lookup_fmap, list_lookup_alter_eq, Hw.
Qed.

End Reset.

(** * The further theorems at concrete inputs *)

Local Ltac by_evaluation := apply (bool_decide_unpack _); vm_compute; exact I.

Lemma fails_twice_first_success :
  OdooRpc.first_success Scenario.retry3 Scenario.fails_twice 3 7.
Proof.
  split; [simpl; lia|]. split; [|reflexivity].
  intros j Hj. exists (ForeignError j). unfold Scenario.fails_twice.
  destruct (decide (j < 3)); [reflexivity|lia].
Defined.

Lemma server_up_first_success connection :
  OdooRpc.first_success Scenario.retry3 (Scenario.server_up connection) 1 7.
Proof.
  split; [simpl; lia|]. split; [|reflexivity]. intros j Hj. lia.
Defined.

Lemma online7_ready : OdooRpc.ready ScenarioRpc.online7.
Proof. split; [reflexivity|]. split; [by exists 6|reflexivity]. Defined.

(** A new client against the server that refuses twice, and against the
    one that always refuses. *)
Lemma connect_outcome_witness :
  OdooClient.connect Nat.mul Nat.pow Scenario.retry3 Scenario.fails_twice
                     OdooClient.new =
    (ScenarioRpc.online7, Return tt)
  ∧ (OdooClient.connect Nat.mul Nat.pow Scenario.retry3 Scenario.always_fails
                        OdooClient.new).2 =
    Throw (OdooConnectionError "Failed to connect to Odoo"
             (Some (OdooConnectionError "Failed to authenticate after 3 attempts"
                      (Some (ForeignError 3))))).
Proof.
  split.
  - apply (proj1 (connect_outcome Nat.mul Nat.pow Scenario.retry3
                    Scenario.fails_twice OdooClient.new eq_refl) 3 7).
    exact fails_twice_first_success.
  - destruct (proj2 (connect_outcome Nat.mul Nat.pow Scenario.retry3
                       Scenario.always_fails OdooClient.new eq_refl)
                    ForeignError) as [Hconn _].
    + intros j Hj. reflexivity.
    + by rewrite Hconn.
Defined.

(** A connected client: disconnecting it, and connecting it again while the
    server refuses. *)
Lemma client_lifecycle_witness :
  OdooClient.disconnect ScenarioRpc.online7 = OdooClient.new
  ∧ OdooClient.disconnect OdooClient.new = OdooClient.new
  ∧ OdooClient.connect Nat.mul Nat.pow Scenario.retry3 Scenario.always_fails
                       ScenarioRpc.online7 =
    (ScenarioRpc.online7, Return tt).
Proof.
  destruct (client_lifecycle Nat.mul Nat.pow Scenario.retry3
              Scenario.always_fails ScenarioRpc.online7)
    as (Hoff & _ & _ & _ & Hstay).
  destruct (client_lifecycle Nat.mul Nat.pow Scenario.retry3
              Scenario.always_fails OdooClient.new)
    as (_ & Hsame & _).
  split; [by apply Hoff|]. split; [by apply Hsame|].
  apply Hstay, online7_ready.
Defined.

(** [execute_kw('hr.employee', 'search_count', [[]])] on a new client whose
    server refuses the login, on a new client that gets in at the third
    attempt, and on a connected client whose server refuses the request. *)
Lemma execute_kw_outcome_witness :
  OdooRpc.execute_kw Nat.mul Nat.pow Scenario.retry3 Scenario.always_fails
                     ScenarioRpc.echo "hr.employee" "search_count"
                     [OdooRpc.VArr []] ∅ OdooClient.new =
    ({| OdooClient.odoo := true; OdooClient.uid := None;
        OdooClient.connected := false |}, [],
     Throw (OdooConnectionError "Failed to connect to Odoo"
              (Some (OdooConnectionError "Failed to authenticate after 3 attempts"
                       (Some (ForeignError 3))))))
  ∧ (OdooRpc.execute_kw Nat.mul Nat.pow Scenario.retry3 Scenario.fails_twice
                        ScenarioRpc.echo "hr.employee" "search_count"
                        [OdooRpc.VArr []] ∅ OdooClient.new).1 =
    (ScenarioRpc.online7,
     [{| OdooRpc.model := "hr.employee"; OdooRpc.method := "search_count";
         OdooRpc.params := [OdooRpc.VArr []]; OdooRpc.kwargs := None |}])
  ∧ OdooRpc.execute_kw Nat.mul Nat.pow Scenario.retry3 Scenario.always_fails
                       ScenarioRpc.refuses "hr.employee" "search_count"
                       [OdooRpc.VArr []] ScenarioRpc.limit5 ScenarioRpc.online7 =
    (ScenarioRpc.online7,
     [{| OdooRpc.model := "hr.employee"; OdooRpc.method := "search_count";
         OdooRpc.params := [OdooRpc.VArr []];
         OdooRpc.kwargs := Some ScenarioRpc.limit5 |}],
     Throw (OdooConnectionError "Failed to execute hr.employee.search_count"
                                (Some (ForeignError 9)))).
Proof.
  split; [|split].
  - destruct (proj1 (execute_kw_outcome Nat.mul Nat.pow Scenario.retry3
                       Scenario.always_fails ScenarioRpc.echo
                       "hr.employee" "search_count" [OdooRpc.VArr []] ∅
                       OdooClient.new) eq_refl ForeignError) as [Hsent Herr].
    + intros j Hj. reflexivity.
    + reflexivity.
  - rewrite (proj1 (proj2 (execute_kw_outcome Nat.mul Nat.pow Scenario.retry3
                             Scenario.fails_twice ScenarioRpc.echo
                             "hr.employee" "search_count" [OdooRpc.VArr []] ∅
                             OdooClient.new)) eq_refl 3 7
                    fails_twice_first_success).
    by destruct (decide (_ = ∅)).
  - rewrite (proj2 (proj2 (proj2 (execute_kw_outcome Nat.mul Nat.pow
                             Scenario.retry3 Scenario.always_fails
                             ScenarioRpc.refuses
                             "hr.employee" "search_count" [OdooRpc.VArr []]
                             ScenarioRpc.limit5 ScenarioRpc.online7))
                          online7_ready) (ForeignError 9)).
    + destruct (decide (_ = ∅)) as [Hempty|_]; [|reflexivity].
      unfold ScenarioRpc.limit5 in Hempty.
      by apply map_non_empty_singleton in Hempty.
    + reflexivity.
Defined.

(** The verbs on a connected client, for the model [hr.employee]. *)
Lemma verbs_requests_witness :
  (OdooRpc.read Nat.mul Nat.pow Scenario.retry3 Scenario.always_fails
                ScenarioRpc.echo "hr.employee" (OdooRpc.VNum 3) []
                ScenarioRpc.online7).1.2 =
    [{| OdooRpc.model := "hr.employee"; OdooRpc.method := "read";
        OdooRpc.params := [OdooRpc.VNum 3]; OdooRpc.kwargs := None |}]
  ∧ (OdooRpc.unlink Nat.mul Nat.pow Scenario.retry3 Scenario.always_fails
                    ScenarioRpc.echo "hr.employee" (OdooRpc.VNum 3)
                    ScenarioRpc.online7).1.2 =
    [{| OdooRpc.model := "hr.employee"; OdooRpc.method := "unlink";
        OdooRpc.params := [OdooRpc.VNum 3]; OdooRpc.kwargs := None |}]
  ∧ ∃ kw,
      (OdooRpc.searchRead Nat.mul Nat.pow Scenario.retry3 Scenario.always_fails
                          ScenarioRpc.echo "hr.employee" []
                          ScenarioRpc.two_fields ScenarioRpc.limit5
                          ScenarioRpc.online7).1.2 =
      [{| OdooRpc.model := "hr.employee"; OdooRpc.method := "search_read";
          OdooRpc.params := [OdooRpc.VArr []]; OdooRpc.kwargs := Some kw |}]
      ∧ kw !! "fields" = Some (OdooRpc.VArr ScenarioRpc.two_fields)
      ∧ kw !! "limit" = Some (OdooRpc.VNum 5).
Proof.
  destruct (verbs_requests Nat.mul Nat.pow Scenario.retry3 Scenario.always_fails
              ScenarioRpc.echo ScenarioRpc.online7 "hr.employee" []
              (OdooRpc.VNum 3) OdooRpc.VNull [] ScenarioRpc.limit5 online7_ready)
    as (_ & Hread & _ & _ & _ & Hunlink).
  destruct (verbs_requests Nat.mul Nat.pow Scenario.retry3 Scenario.always_fails
              ScenarioRpc.echo ScenarioRpc.online7 "hr.employee" []
              (OdooRpc.VNum 3) OdooRpc.VNull ScenarioRpc.two_fields
              ScenarioRpc.limit5 online7_ready)
    as (_ & _ & (sent_kwargs & Hsent & _ & Hfields) & _).
  split; [exact Hread|]. split; [exact Hunlink|].
  destruct Hfields as (kw & -> & Hkw & Hother); [done|].
  exists kw. split; [exact Hsent|]. split; [exact Hkw|].
  rewrite Hother by done. reflexivity.
Defined.

(** [initialize()] of a new pool with [min = 2]. *)
Lemma initialize_accepted_witness :
  ∃ cs,
    (Pool.initialize Nat.mul Nat.pow Scenario.server_up
                     Scenario.first_started
                     (Pool.new (Scenario.config 2 3))).2 = Return tt
    ∧ Pool.availableConnections
        (Pool.self (Pool.initialize Nat.mul Nat.pow Scenario.server_up
                     Scenario.first_started
                                    (Pool.new (Scenario.config 2 3))).1) = cs
    ∧ length cs = 2
    ∧ NoDup cs.
Proof.
  destruct (initialize_accepted Nat.mul Nat.pow Scenario.server_up
              Scenario.first_started
              (Pool.new (Scenario.config 2 3)))
    as (cs & Hres & Hav & Hlen & Hnd & _).
  - intros connection. exists 1, 7. apply server_up_first_success.
  - exists cs. split; [exact Hres|]. split; [exact Hav|]. split; [exact Hlen|].
    exact Hnd.
Defined.

(** [initialize()] with [min = 2] when only connection 0 gets in.  If its
    login settles first, the call throws with connection 0 in the pool; if
    the login of connection 1 settles first, the call throws with an empty
    pool and connection 0 arrives afterwards. *)
Lemma initialize_keeps_what_connected_witness :
  let w := Pool.new (Scenario.config 2 3) in
  let first := Pool.initialize Nat.mul Nat.pow ScenarioRpc.only_first
                               Scenario.first_started w in
  let last := Pool.initialize Nat.mul Nat.pow ScenarioRpc.only_first
                              Scenario.last_started w in
  (∃ cause,
     first.2 =
     Throw (OdooConnectionError "Failed to create connection" (Some cause)))
  ∧ Pool.availableConnections (Pool.self first.1) = [0]
  ∧ Pool.created (Pool.stats (Pool.self first.1)) = 1
  ∧ (∃ cause,
       last.2 =
       Throw (OdooConnectionError "Failed to create connection" (Some cause)))
  ∧ Pool.availableConnections (Pool.self last.1) = []
  ∧ PoolApi.settling_order Scenario.last_started
      (Pool.initialize_in_flight Nat.mul Nat.pow ScenarioRpc.only_first
                                 Scenario.last_started w).2 = [0]
  ∧ Pool.availableConnections
      (Pool.self (Pool.initialize_settled Nat.mul Nat.pow ScenarioRpc.only_first
                                          Scenario.last_started w)) = [0].
Proof.
  intros w first last.
  destruct (initialize_keeps_what_connected Nat.mul Nat.pow
              ScenarioRpc.only_first Scenario.first_started w)
    as (_ & _ & _ & _ & _ & _ & Hfirst).
  destruct (initialize_keeps_what_connected Nat.mul Nat.pow
              ScenarioRpc.only_first Scenario.last_started w)
    as (_ & _ & _ & _ & _ & _ & Hlast).
  destruct (Hfirst [0] 1 []) as (Hthrow & _ & Hav & Hcr & _);
    [reflexivity|repeat constructor|reflexivity|].
  destruct (Hlast [] 1 [0]) as (Hthrow' & Hflight & Hav' & _ & Hsettled & _);
    [reflexivity|constructor|reflexivity|].
  split; [exact Hthrow|]. split; [exact Hav|]. split; [exact Hcr|].
  split; [exact Hthrow'|]. split; [exact Hav'|]. split; [exact Hflight|].
  exact Hsettled.
Defined.

(** [connect()], [isConnected()] and [disconnect()] on a new pool. *)
Lemma pool_connect_once_witness :
  let w := Pool.new (Scenario.config 2 3) in
  let w1 := (PoolApi.connect Nat.mul Nat.pow Scenario.server_up
                            Scenario.first_started w).1 in
  PoolApi.isConnected w = false
  ∧ PoolApi.isConnected w1 = true
  ∧ PoolApi.connect Nat.mul Nat.pow Scenario.server_up
                            Scenario.first_started w1 = (w1, Return tt)
  ∧ PoolApi.isConnected (PoolApi.disconnect Scenario.disconnect_ok w1).1 = false.
Proof.
  intros w w1.
  destruct (pool_connect_once Nat.mul Nat.pow Scenario.server_up
              Scenario.first_started
              Scenario.disconnect_ok w) as (_ & Hinit & _).
  destruct (pool_connect_once Nat.mul Nat.pow Scenario.server_up
              Scenario.first_started
              Scenario.disconnect_ok w1) as (Hnoop & _ & Hoff).
  destruct Hinit as (_ & _ & Hon & Hagain).
  - reflexivity.
  - vm_compute. lia.
  - intros connection. exists 1, 7. apply server_up_first_success.
  - split; [reflexivity|]. split; [exact Hon|]. split; [exact Hagain|exact Hoff].
Defined.

(** A history with [max = 2]. *)
Lemma tracked_never_exceeds_max_witness :
  size (PoolApi.tracked
          (Scenario.run [Pool.Acquire; Pool.Acquire; Pool.Acquire;
                         Pool.Release 0; Pool.Acquire; Pool.Fire 0; Pool.Acquire]
                        (Pool.new (Scenario.config 1 2)))) ≤ 2.
Proof.
  apply (tracked_never_exceeds_max Nat.mul Nat.pow Scenario.server_up
           Scenario.first_started
           Scenario.disconnect_ok
           [Pool.Acquire; Pool.Acquire; Pool.Acquire;
            Pool.Release 0; Pool.Acquire; Pool.Fire 0; Pool.Acquire]
           (Pool.new (Scenario.config 1 2))).
  - repeat constructor; discriminate.
  - vm_compute. lia.
Defined.

(** The same history: every connection held is a client of the pool. *)
Lemma tracked_are_clients_witness :
  let w := Scenario.run [Pool.Initialize; Pool.Acquire; Pool.Release 7;
                         Pool.Acquire; Pool.Release 0; Pool.Destroy; Pool.Acquire]
                        (Pool.new (Scenario.config 1 2)) in
  PoolApi.tracked w ⊆ dom (Pool.clients w).
Proof.
  apply (tracked_are_clients Nat.mul Nat.pow Scenario.server_up
           Scenario.first_started
           Scenario.disconnect_ok
           [Pool.Initialize; Pool.Acquire; Pool.Release 7;
            Pool.Acquire; Pool.Release 0; Pool.Destroy; Pool.Acquire]
           (Pool.new (Scenario.config 1 2))).
  apply empty_subseteq.
Defined.

(** [execute_kw] of an initialized pool, against a server that answers and
    against one that refuses. *)
Lemma pool_execute_kw_reuses_witness :
  let w := Scenario.run [Pool.Initialize] (Pool.new (Scenario.config 2 3)) in
  let answered :=
    PoolApi.execute_kw Nat.mul Nat.pow Scenario.server_up ScenarioRpc.echo
                       "hr.employee" "read" [OdooRpc.VNum 3] ∅ w in
  let refused :=
    PoolApi.execute_kw Nat.mul Nat.pow Scenario.server_up ScenarioRpc.refuses
                       "hr.employee" "read" [OdooRpc.VNum 3] ∅ w in
  answered.2 = Pool.Settled (Return (OdooRpc.VArr [OdooRpc.VNum 3]))
  ∧ Pool.availableConnections (Pool.self answered.1) = [1; 0]
  ∧ refused.2 =
    Pool.Settled (Throw (OdooConnectionError "Failed to execute hr.employee.read"
                                             (Some (ForeignError 9))))
  ∧ Pool.availableConnections (Pool.self refused.1) = [1; 0]
  ∧ Pool.activeConnections (Pool.self refused.1) = ∅.
Proof.
  intros w answered refused.
  destruct (pool_execute_kw_reuses Nat.mul Nat.pow Scenario.server_up
              ScenarioRpc.echo "hr.employee" "read" [OdooRpc.VNum 3] ∅
              w 0 [1] ScenarioRpc.online7)
    as (Hres & Hav & _); [reflexivity|by_evaluation|reflexivity|reflexivity
                          |exact online7_ready|].
  destruct (pool_execute_kw_reuses Nat.mul Nat.pow Scenario.server_up
              ScenarioRpc.refuses "hr.employee" "read" [OdooRpc.VNum 3] ∅
              w 0 [1] ScenarioRpc.online7)
    as (Hres' & Hav' & Hact' & _); [reflexivity|by_evaluation|reflexivity
                                    |reflexivity|exact online7_ready|].
  split; [exact Hres|]. split; [exact Hav|]. split; [exact Hres'|].
  split; [exact Hav'|exact Hact'].
Defined.

(** A pool with one connection handed out is destroyed and then asked for a
    connection again. *)
Lemma destroy_does_not_close_witness :
  let w := Scenario.run [Pool.Acquire] (Pool.new (Scenario.config 2 3)) in
  let w' := (Pool.destroy Scenario.disconnect_ok w).1 in
  PoolApi.isConnected w' = false
  ∧ (Scenario.acquire w').2 = Pool.Settled (Return 1)
  ∧ Pool.activeConnections (Pool.self (Scenario.acquire w').1) = {[1]}.
Proof.
  intros w w'.
  destruct (destroy_does_not_close Nat.mul Nat.pow Scenario.server_up
              Scenario.disconnect_ok w 1 7)
    as (Hoff & Hres & _ & Hact & _).
  - vm_compute. lia.
  - apply server_up_first_success.
  - split; [exact Hoff|]. split; [exact Hres|exact Hact].
Defined.

(** Two waiters; the first one is served and its timer goes off later. *)
Lemma served_waiter_cannot_time_out_witness :
  let w := Scenario.run [Pool.Acquire; Pool.Acquire; Pool.Acquire; Pool.Acquire;
                         Pool.Acquire; Pool.Acquire]
                        (Pool.new (Scenario.config 2 2)) in
  Pool.promises (Scenario.run [Pool.Release 1; Pool.Fire 0] w) !! 0 =
    Some (Pool.Resolved (Some 1))
  ∧ Scenario.run [Pool.Release 1; Pool.Fire 0] w = Scenario.run [Pool.Release 1] w.
Proof.
  intros w.
  destruct (served_waiter_cannot_time_out Scenario.disconnect_ok 1 0 0
              [Pool.WaitCallback 1 1] w)
    as (_ & Hsame & Hstill); [by_evaluation|reflexivity|reflexivity|].
  split; [exact Hstill|exact Hsame].
Defined.

(** [withConnection] on an exhausted pool with [max = 1], and its timeout. *)
Lemma queued_withConnection_times_out_witness :
  let w := Scenario.run [Pool.Acquire; Pool.Acquire]
                        (Pool.new (Scenario.config 2 1)) in
  ∃ p id,
    let w1 := (Pool.withConnection Nat.mul Nat.pow Scenario.server_up
                                   Scenario.fn_throws w).1 in
    (Pool.withConnection Nat.mul Nat.pow Scenario.server_up
                         Scenario.fn_throws w).2 = Pool.Awaiting p
    ∧ Pool.withConnection_resume Scenario.fn_throws p
        (Pool.fire Scenario.disconnect_ok id w1) =
      (Pool.fire Scenario.disconnect_ok id w1,
       Pool.Settled (Throw (OdooConnectionError
                              "Timeout waiting for available connection" None))).
Proof.
  intros w.
  destruct (queued_withConnection_times_out Nat.mul Nat.pow Scenario.server_up
              Scenario.disconnect_ok Scenario.fn_throws w)
    as (p & id & Hwait & _ & Hout & _).
  - reflexivity.
  - vm_compute. lia.
  - exists p, id. split; [exact Hwait|exact Hout].
Defined.

(** Connections 1 and 0 are released in this order and 1 is handed out
    next. *)
Lemma available_list_is_fifo_witness :
  let w := Scenario.run [Pool.Acquire; Pool.Acquire; Pool.Acquire; Pool.Acquire]
                        (Pool.new (Scenario.config 2 2)) in
  Pool.availableConnections (Pool.self (Pool.release_all [1; 0] w)) = [1; 0]
  ∧ (Scenario.acquire (Pool.release_all [1; 0] w)).2 = Pool.Settled (Return 1)
  ∧ Pool.availableConnections
      (Pool.self (Scenario.acquire (Pool.release_all [1; 0] w)).1) = [0].
Proof.
  intros w.
  destruct (available_list_is_fifo Nat.mul Nat.pow Scenario.server_up [1; 0] w)
    as (Hav & _ & Hnext).
  - reflexivity.
  - by_evaluation.
  - repeat constructor; by_evaluation.
  - destruct (Hnext 1 [0] eq_refl) as [Hres Hrest].
    split; [exact Hav|]. split; [exact Hres|exact Hrest].
Defined.

(** [initialize()] with [min = 3] and [max = 1]. *)
Lemma initialize_ignores_maxConnections_witness :
  let w := Pool.new (Scenario.config 3 1) in
  Pool.maxConnections (Pool.self w) = 1
  ∧ size (PoolApi.tracked
            (Pool.initialize Nat.mul Nat.pow Scenario.server_up
                     Scenario.first_started w).1) = 3.
Proof.
  intros w. split; [reflexivity|].
  destruct (initialize_ignores_maxConnections Nat.mul Nat.pow Scenario.server_up
              Scenario.first_started w)
    as [_ Hsize].
  - intros connection. exists 1, 7. apply server_up_first_success.
  - reflexivity.
  - reflexivity.
  - exact Hsize.
Defined.

(** The pool of a process is reset while a request is queued, and asked for
    again with another configuration. *)
Lemma resetInstance_then_getInstance_witness :
  let s := PoolStatic.resetInstance Scenario.disconnect_ok ScenarioRpc.one_waiting in
  PoolStatic.resetInstance Scenario.disconnect_ok ScenarioRpc.no_pool =
    ScenarioRpc.no_pool
  ∧ PoolStatic.instance s = None
  ∧ (∃ w', PoolStatic.pools s !! 0 = Some w'
           ∧ Pool.connectionQueue (Pool.self w') = []
           ∧ Pool.promises w' !! 0 =
             Some (Pool.Rejected
                     (OdooConnectionError "Connection pool is closing" None))
           ∧ Pool.activeConnections (Pool.self w') = {[0]}
           ∧ Pool.destroyed (Pool.stats (Pool.self w')) = 0)
  ∧ ∃ r', (Pool.getInstance (Some (Scenario.config 1 1)) (PoolStatic.static s)).2 =
          Return r'
          ∧ r' ≠ 0.
Proof.
  intros s.
  destruct (resetInstance_then_getInstance Scenario.disconnect_ok
              ScenarioRpc.no_pool) as [Hnone _].
  destruct (resetInstance_then_getInstance Scenario.disconnect_ok
              ScenarioRpc.one_waiting) as [_ Hsome].
  split; [by apply Hnone|].
  destruct (Hsome 0 _ eq_refl eq_refl)
    as (Hinst & Hold & _ & Hq & Hreject & _ & _ & _ & _ & Hact & Hstats & _ & _ & Hnew).
  split; [exact Hinst|]. split.
  - eexists. split; [exact Hold|]. split; [exact Hq|].
    split; [|split; [rewrite Hact; reflexivity|rewrite Hstats; reflexivity]].
    apply (Hreject 0 0); [by_evaluation|by_evaluation|reflexivity].
  - destruct (Hnew (Scenario.config 1 1)) as (r' & Hres & Hne & _).
    exists r'. split; [exact Hres|exact Hne].
Defined.
